(** * Project-management backend: routes over a relational store

    A shallow embedding of the Express route handlers for projects,
    invoices and time entries, and of the role helpers they call.

    - A table with a primary key is a finite map from the key (a UUID
      string) to the row; a row's [id] is its key.
    - A route handler is a computation over the database that either goes
      on to its next statement, answers the request ([res.status(c).json(b)]
      followed by [return]), or throws (caught by the handler's [catch]
      block, which answers 500).
    - Monetary amounts ([NUMERIC] columns read back with [parseFloat]) are
      exact quantities counted in the smallest currency unit. Where the
      source adds or compares two of them as doubles, the model adds and
      compares the exact quantities; the two agree whenever the exact
      quantities differ, and the theorems below do not rest on the case
      where they are equal.
    - A date is an ISO-8601 calendar date [YYYY-MM-DD]; instants are
      milliseconds since the epoch.
    - A route is modelled from the point where [authenticateToken] has set
      [req.user] and the validators have filled [validationResult(req)]. *)

From stdpp Require Import base option numbers list sorting gmap strings fin_maps.
From Stdlib Require Import Ascii ZArith QArith Lia DecimalString DecimalPos DecimalZ.

Local Open Scope string_scope.
Local Open Scope Z_scope.

(** ** Dates *)

Record date := Date { d_year : Z; d_month : Z; d_day : Z }.

(** [new Date(a) < new Date(b)] on two calendar dates, and SQL's [a < b]
    on [DATE] columns. *)
Definition date_ltb (a b : date) : bool :=
  (d_year a <? d_year b)
  || ((d_year a =? d_year b)
      && ((d_month a <? d_month b)
          || ((d_month a =? d_month b) && (d_day a <? d_day b)))).

(** SQL's [EXTRACT(YEAR FROM d)] on a [DATE] column. *)
Definition extract_year (d : date) : Z := d_year d.

(** ** Schema *)

Definition uuid := string.

Inductive project_status := P_pending | P_ongoing | P_completed.
Inductive invoice_status := I_pending | I_paid | I_overdue | I_cancelled.

#[global] Instance project_status_eq_dec : EqDecision project_status.
Proof. solve_decision. Defined.
#[global] Instance invoice_status_eq_dec : EqDecision invoice_status.
Proof. solve_decision. Defined.
#[global] Instance date_eq_dec : EqDecision date.
Proof. solve_decision. Defined.

(** Modelled from the spec: the [users] table, whose definition is not
    among the route sources; the columns are those the queries name. *)
Record user_row := {
  u_email : string;
  u_username : string;
  u_name : string;
  u_roles : list string;
  u_approved : bool
}.

(** Modelled from the spec: the [projects] table (name, optional
    description, start date, optional end date, status, creator,
    timestamps), with the column names the queries use. *)
Record project_row := {
  p_name : string;
  p_description : option string;
  p_start_date : date;
  p_end_date : option date;
  p_status : project_status;
  p_created_by : uuid;
  p_created_at : Z;
  p_updated_at : Z
}.

(** Modelled from the spec: the [invoices] table (number, client, optional
    project, amount, description, invoice date, due date, status,
    paid amount, timestamps), with the column names the queries use. *)
Record invoice_row := {
  i_number : string;
  i_client_id : uuid;
  i_project_id : option uuid;
  i_amount : Z;
  i_description : option string;
  i_date : date;
  i_due_date : date;
  i_status : invoice_status;
  i_paid_amount : Z;
  i_created_at : Z;
  i_updated_at : Z
}.

(** Modelled from the spec: the [time_entries] table (user, clock-in,
    optional clock-out, calendar date, timestamps), with the column names
    the queries use. *)
Record time_entry_row := {
  t_user_id : uuid;
  t_clock_in : Z;
  t_clock_out : option Z;
  t_date : date;
  t_created_at : Z;
  t_updated_at : Z
}.

Record db := {
  users : gmap uuid user_row;
  projects : gmap uuid project_row;
  invoices : gmap uuid invoice_row;
  time_entries : gmap uuid time_entry_row
}.

Definition set_projects (t : gmap uuid project_row) (s : db) : db :=
  {| users := users s; projects := t;
     invoices := invoices s; time_entries := time_entries s |}.
Definition set_invoices (t : gmap uuid invoice_row) (s : db) : db :=
  {| users := users s; projects := projects s;
     invoices := t; time_entries := time_entries s |}.
Definition set_time_entries (t : gmap uuid time_entry_row) (s : db) : db :=
  {| users := users s; projects := projects s;
     invoices := invoices s; time_entries := t |}.

(** What a handler reads from outside the request: the clock ([new Date()],
    [NOW()]), the calendar date of that instant ([CURRENT_DATE],
    [now.toISOString().split('T')[0]]), the key the store gives to the
    next inserted row, and the time zone of the server process, as the
    minutes its local time is behind UTC at midnight UTC of a date
    ([new Date(d).getTimezoneOffset()]: positive west of Greenwich, at most
    a day). *)
Record env := {
  now : Z;
  current_date : date;
  fresh_id : uuid;
  timezone_offset : date → Z
}.

(** [new Date(d).getFullYear()] for a date-only string [YYYY-MM-DD]: the
    string is read as midnight UTC and the year is that of the server's
    local time, where it is still the day before when local time is
    behind UTC. *)
Definition getFullYear (e : env) (d : date) : Z :=
  if (0 <? timezone_offset e d) && (d_month d =? 1) && (d_day d =? 1)
  then d_year d - 1
  else d_year d.

(** [req.user], as set by [authenticateToken]. *)
Record principal := { pr_id : uuid; pr_roles : list string }.

(** ** Queries *)

Section Queries.
Context {A : Type}.

(** [SELECT * FROM t WHERE P]: the matching rows with their keys. *)
Definition select_where (P : uuid * A → bool) (t : gmap uuid A)
  : list (uuid * A) :=
  filter (λ kr, P kr = true) (map_to_list t).

(** [UPDATE t SET ... WHERE P]. *)
Definition update_where (P : uuid → A → bool) (f : A → A) (t : gmap uuid A)
  : gmap uuid A :=
  map_imap (λ k r, Some (if P k r then f r else r)) t.

(** [UPDATE t SET ... WHERE id = k]. *)
Definition update_by_id (k : uuid) (f : A → A) (t : gmap uuid A)
  : gmap uuid A :=
  alter f k t.

(** [ORDER BY created_at DESC]. *)
Definition newer_first (key : A → Z) : relation (uuid * A) :=
  λ a b, key (snd b) ≤ key (snd a).

#[global] Instance newer_first_dec key : RelDecision (newer_first key).
Proof. intros a b. unfold newer_first. apply _. Defined.

Definition order_by_desc (key : A → Z) (l : list (uuid * A))
  : list (uuid * A) :=
  merge_sort (newer_first key) l.

(** [LIMIT n OFFSET m], for [n] and [m] that are not negative. *)
Definition limit_offset {B : Type} (n m : Z) (l : list B) : list B :=
  take (Z.to_nat n) (drop (Z.to_nat m) l).
End Queries.

(** ** Responses and handlers *)

Inductive body (B : Type) :=
| Error (error : string)
| ErrorDetails (error : string) (details : list string)
| Json (b : B).
Arguments Error {B} error.
Arguments ErrorDetails {B} error details.
Arguments Json {B} b.

Record response (B : Type) := Response { res_status : Z; res_body : body B }.
Arguments Response {B} res_status res_body.
Arguments res_status {B} r.
Arguments res_body {B} r.

(** The [error] member of a response body, when it has one. *)
Definition res_error {B} (r : response B) : option string :=
  match res_body r with
  | Error e | ErrorDetails e _ => Some e
  | Json _ => None
  end.

Inductive step (B A : Type) :=
| Continue (a : A)
| Respond (r : response B)
| Throw.
Arguments Continue {B A} a.
Arguments Respond {B A} r.
Arguments Throw {B A}.

Definition handler (B A : Type) : Type := db → step B A * db.

#[global] Instance handler_ret {B} : MRet (handler B) :=
  λ A a s, (Continue a, s).

#[global] Instance handler_bind {B} : MBind (handler B) :=
  λ A1 A2 f m s,
    match m s with
    | (Continue a, s') => f a s'
    | (Respond r, s') => (Respond r, s')
    | (Throw, s') => (Throw, s')
    end.

Section Handler.
Context {B : Type}.

(** [return res.status(code).json(b)] *)
Definition res_json {A} (code : Z) (b : body B) : handler B A :=
  λ s, (Respond (Response code b), s).

(** [if (c) { return res.status(code).json(b) }] *)
Definition reject_if (c : bool) (code : Z) (b : body B) : handler B unit :=
  if c then res_json code b else mret tt.

(** [await pool.query('SELECT ...')] *)
Definition query {A} (f : db → A) : handler B A :=
  λ s, (Continue (f s), s).

(** [await pool.query('SELECT ... LIMIT $n OFFSET $m', [..., limit, offset])]:
    the store refuses a negative [LIMIT] or [OFFSET], and the statement
    throws. *)
Definition query_page {A} (limit offset : Z) (f : db → A) : handler B A :=
  λ s, if (limit <? 0) || (offset <? 0) then (Throw, s)
       else (Continue (f s), s).

(** [await pool.query('UPDATE ...')] *)
Definition exec (f : db → db) : handler B unit :=
  λ s, (Continue tt, f s).

(** A statement of the store that fails (a violated key constraint). *)
Definition throw {A} : handler B A := λ s, (Throw, s).

(** [try { h } catch (error) { res.status(500).json({ error: msg }) }];
    a handler body always ends by answering. *)
Definition try_catch (h : handler B Empty_set) (msg : string) (s : db)
  : response B * db :=
  match h s with
  | (Continue v, _) => match v with end
  | (Respond r, s') => (r, s')
  | (Throw, s') => (Response 500 (Error msg), s')
  end.

(** [const errors = validationResult(req);
     if (!errors.isEmpty()) return res.status(400).json(...)] *)
Definition check_validation (errors : list string) : handler B unit :=
  reject_if (negb (bool_decide (errors = [])))
    400 (ErrorDetails "Validation failed" errors).
End Handler.

(** [INSERT INTO t ... RETURNING *] under the key the store picks; a key
    already present violates the primary key. *)
Definition insert_row {A} (k : uuid) (r : A) (t : gmap uuid A)
  : option (gmap uuid A) :=
  match t !! k with
  | Some _ => None
  | None => Some (<[k := r]> t)
  end.

(** ** JavaScript string helpers *)

(** [String(n)] for an integer. *)
Definition String_of (n : Z) : string :=
  NilZero.string_of_int (Z.to_int n).

Fixpoint repeat_string (n : nat) (c : Ascii.ascii) : string :=
  match n with
  | O => ""
  | S n' => String c (repeat_string n' c)
  end.

(** [s.padStart(width, c)] for a one-character [c]. *)
Definition padStart (width : nat) (c : Ascii.ascii) (s : string) : string :=
  repeat_string (width - String.length s) c +:+ s.

(** [x.toFixed(2)] for an amount [x] of [c] hundredths. *)
Definition toFixed2 (c : Z) : string :=
  (if c <? 0 then "-" else "")
  +:+ String_of (Z.abs c / 100) +:+ "."
  +:+ padStart 2 "0"%char (String_of (Z.abs c mod 100)).

(** ** middleware/auth.js *)

Module Auth.
Definition hasRole (userRoles : list string) (requiredRole : string) : bool :=
  bool_decide (requiredRole ∈ userRoles).

Definition canAccessProjects (userRoles : list string) : bool :=
  hasRole userRoles "admin" || hasRole userRoles "madmin"
  || hasRole userRoles "user".

Definition canAccessBilling (userRoles : list string) : bool :=
  hasRole userRoles "admin" || hasRole userRoles "madmin".

Definition canDeleteProjects (userRoles : list string) : bool :=
  hasRole userRoles "admin".

(** [roles.includes('admin') || roles.includes('madmin')], the test the
    project routes repeat inline. *)
Definition isPrivileged (userRoles : list string) : bool :=
  bool_decide ("admin" ∈ userRoles) || bool_decide ("madmin" ∈ userRoles).

(** [s.split(c)] for a one-character separator. *)
Fixpoint split_on (c : Ascii.ascii) (s : string) : list string :=
  match s with
  | "" => [""]
  | String a s' =>
      if Ascii.eqb a c then "" :: split_on c s'
      else match split_on c s' with
           | [] => [String a ""]
           | w :: ws => String a w :: ws
           end
  end.

(** [const token = authHeader && authHeader.split(' ')[1]], with the test
    [!token] that follows: an absent header, a header without a second
    piece and an empty second piece all count as no token. *)
Definition bearer_token (authorization : option string) : option string :=
  header ← authorization;
  token ← split_on " " header !! 1%nat;
  if bool_decide (token = "") then None else Some token.

(** What [jwt.verify] does with a token: the decoded [userId], or one of
    the errors it throws. *)
Inductive jwt_result :=
  | Decoded (userId : uuid)
  | JsonWebTokenError
  | TokenExpiredError
  | OtherError.

Section Authenticate.
Context {B : Type}.

(** [jwt.verify(token, process.env.JWT_SECRET)], a function of the
    [jsonwebtoken] package. *)
Variable jwt_verify : string → jwt_result.

(** [authenticateToken]: answers, or goes on with [req.user] set to the
    stored user. *)
Definition authenticateToken (authorization : option string)
    : handler B (uuid * user_row) :=
  match bearer_token authorization with
  | None => res_json 401 (Error "Access denied. No token provided.")
  | Some token =>
      match jwt_verify token with
      | Decoded userId =>
          result ← query (λ s, users s !! userId);
          match result with
          | None => res_json 401 (Error "Invalid token. User not found.")
          | Some user =>
              (* Check if user is still approved *)
              reject_if (negb (u_approved user)) 403
                (Error "Account has been suspended. Contact administrator.");;
              mret (userId, user)
          end
      | JsonWebTokenError => res_json 401 (Error "Invalid token.")
      | TokenExpiredError => res_json 401 (Error "Token expired.")
      | OtherError => res_json 500 (Error "Token verification failed.")
      end
  end.
End Authenticate.

(** [req.user] as the routes read it. *)
Definition principal_of (user : uuid * user_row) : principal :=
  {| pr_id := fst user; pr_roles := u_roles (snd user) |}.

(** The body of a route behind [requireRole]: the middleware's own 403
    body [{ error, userRoles }], or the route's. *)
Inductive guarded (B : Type) :=
  | RoleDenied (error : string) (userRoles : list string)
  | Passed (b : B).
Arguments RoleDenied {B} error userRoles.
Arguments Passed {B} b.

(** [requiredRoles.some(role => userRoles.includes(role))] *)
Definition hasRequiredRole (requiredRoles userRoles : list string) : bool :=
  existsb (λ role, bool_decide (role ∈ userRoles)) requiredRoles.

(** [requireRole(requiredRoles)] *)
Definition requireRole {B} (requiredRoles : list string)
      (user : option principal) : handler (guarded B) unit :=
  match user with
  | None => res_json 401 (Error "Authentication required.")
  | Some u =>
      let userRoles := pr_roles u in
      if hasRequiredRole requiredRoles userRoles then mret tt
      else res_json 403 (Json (RoleDenied
             ("Access denied. Required roles: "
              +:+ String.concat " or " requiredRoles)
             userRoles))
  end.

Definition requireAdmin {B} := @requireRole B ["admin"].
Definition requireAdminOrMadmin {B} := @requireRole B ["admin"; "madmin"].
Definition requireUser {B} := @requireRole B ["user"; "admin"; "madmin"].
Definition requireStaff {B} :=
    @requireRole B ["staff"; "user"; "admin"; "madmin"].
End Auth.

(** ** routes/invoices.js *)

Module Invoices.
(** An invoice with the columns joined in from [users] and [projects]. *)
Record invoice_view := {
  v_id : uuid;
  v_row : invoice_row;
  v_client_name : option string;
  v_client_email : option string;
  v_project_name : option string
}.

Record pagination := {
  pg_total : Z;
  pg_limit : Z;
  pg_offset : Z;
  pg_hasMore : bool
}.

Record payment_info := {
  pay_amount : Z;
  pay_newBalance : Z;
  pay_totalPaid : Z
}.

Inductive invoice_json :=
| J_list (invoices : list invoice_view) (p : pagination)
| J_invoice (message : string) (invoice : invoice_view)
| J_payment (message : string) (id : uuid) (invoice : invoice_row)
    (payment : payment_info).

Abbreviation route := (handler invoice_json Empty_set).

(** [router.use]: every invoice route runs behind the billing access check. *)
Definition require_billing_access (caller : principal) (h : route) : route :=
  reject_if (negb (Auth.canAccessBilling (pr_roles caller))) 403
    (Error "Access denied. Billing access requires admin or madmin role.");;
  h.

Definition with_details (s : db) (kr : uuid * invoice_row) : invoice_view :=
  let c := users s !! i_client_id (snd kr) in
  let p := i_project_id (snd kr) ≫= λ pid, projects s !! pid in
  {| v_id := fst kr; v_row := snd kr;
     v_client_name := u_name <$> c;
     v_client_email := u_email <$> c;
     v_project_name := p_name <$> p |}.

(** *** GET /api/invoices *)

Record list_query := {
  q_status : option invoice_status;
  q_client_id : option uuid;
  q_project_id : option uuid;
  q_limit : Z;
  q_offset : Z;
  q_search : option string
}.

(** [UPDATE invoices SET status = 'overdue'
     WHERE status = 'pending' AND due_date < CURRENT_DATE] *)
Definition is_past_due (today : date) (r : invoice_row) : bool :=
  bool_decide (i_status r = I_pending) && date_ltb (i_due_date r) today.

Definition set_status (st : invoice_status) (r : invoice_row) : invoice_row :=
  {| i_number := i_number r; i_client_id := i_client_id r;
     i_project_id := i_project_id r; i_amount := i_amount r;
     i_description := i_description r; i_date := i_date r;
     i_due_date := i_due_date r; i_status := st;
     i_paid_amount := i_paid_amount r;
     i_created_at := i_created_at r; i_updated_at := i_updated_at r |}.

Definition flag_overdue (today : date) (t : gmap uuid invoice_row)
  : gmap uuid invoice_row :=
  update_where (λ _ r, is_past_due today r) (set_status I_overdue) t.

Section Listing.
(** SQL's [text ILIKE pattern], an operator of the store. *)
Variable ilike : string → string → bool.

Definition opt_matches {A} `{EqDecision A} (f : option A) (x : A) : bool :=
  match f with
  | Some v => bool_decide (x = v)
  | None => true
  end.

Definition null_ilike (x : option string) (pat : string) : bool :=
  match x with
  | Some v => ilike v pat
  | None => false
  end.

(** The [WHERE] clause the listing builds from the query string. *)
Definition list_filter (s : db) (q : list_query) (kr : uuid * invoice_row)
  : bool :=
  let r := snd kr in
  opt_matches (q_status q) (i_status r)
  && opt_matches (q_client_id q) (i_client_id r)
  && match q_project_id q with
     | Some pid => bool_decide (i_project_id r = Some pid)
     | None => true
     end
  && match q_search q with
     | Some text =>
         let pat := "%" +:+ text +:+ "%" in
         ilike (i_number r) pat
         || null_ilike (i_description r) pat
         || null_ilike (u_name <$> users s !! i_client_id r) pat
     | None => true
     end.

Definition list_body (e : env) (q : list_query) : route :=
  result ← query_page (q_limit q) (q_offset q) (λ s,
    with_details s <$>
      limit_offset (q_limit q) (q_offset q)
        (order_by_desc i_created_at
           (select_where (list_filter s q) (invoices s))));
  total ← query (λ s,
    Z.of_nat (length (select_where (list_filter s q) (invoices s))));
  (* Check for overdue invoices and update status *)
  exec (λ s, set_invoices (flag_overdue (current_date e) (invoices s)) s);;
  res_json 200 (Json (J_list result
    {| pg_total := total; pg_limit := q_limit q; pg_offset := q_offset q;
       pg_hasMore := (q_offset q + q_limit q <? total) |})).

Definition list_invoices (e : env) (caller : principal) (q : list_query)
  : db → response invoice_json * db :=
  try_catch (require_billing_access caller (list_body e q))
    "Failed to fetch invoices".
End Listing.

(** *** POST /api/invoices *)

Record create_body := {
  c_client_id : uuid;
  c_project_id : option uuid;
  c_amount : Z;
  c_description : option string;
  c_date : date;
  c_due_date : date
}.

(** [SELECT COUNT( * ) FROM invoices WHERE EXTRACT(YEAR FROM date) = $1] *)
Definition count_in_year (year : Z) (t : gmap uuid invoice_row) : Z :=
  Z.of_nat (length
    (select_where (λ kr, bool_decide (extract_year (i_date (snd kr)) = year)) t)).

Definition invoice_number (year count : Z) : string :=
  let invoiceCount := count + 1 in
  String_of year +:+ padStart 4 "0"%char (String_of invoiceCount).

Definition create_body_steps (e : env) (errors : list string)
    (b : create_body) : route :=
  check_validation errors;;
  clientResult ← query (λ s, users s !! c_client_id b);
  match clientResult with
  | None => res_json 400 (Error "Client not found")
  | Some client =>
    reject_if (negb (u_approved client)) 400
      (Error "Cannot create invoice for unapproved client");;
    match c_project_id b with
    | Some pid =>
        projectResult ← query (λ s, projects s !! pid);
        reject_if (bool_decide (projectResult = None :> option project_row))
          400 (Error "Project not found")
    | None => mret tt
    end;;
    reject_if (date_ltb (c_due_date b) (c_date b)) 400
      (Error "Due date cannot be before invoice date");;
    let year := getFullYear e (c_date b) in
    count ← query (λ s, count_in_year year (invoices s));
    let newInvoice :=
      {| i_number := invoice_number year count;
         i_client_id := c_client_id b; i_project_id := c_project_id b;
         i_amount := c_amount b; i_description := c_description b;
         i_date := c_date b; i_due_date := c_due_date b;
         i_status := I_pending; i_paid_amount := 0;
         i_created_at := now e; i_updated_at := now e |} in
    inserted ← query (λ s, insert_row (fresh_id e) newInvoice (invoices s));
    match inserted with
    | None => throw
    | Some t =>
        exec (set_invoices t);;
        res_json 201 (Json (J_invoice "Invoice created successfully"
          {| v_id := fresh_id e; v_row := newInvoice;
             v_client_name := Some (u_name client);
             v_client_email := Some (u_email client);
             v_project_name := None |}))
    end
  end.

Definition create_invoice (e : env) (caller : principal)
    (errors : list string) (b : create_body)
  : db → response invoice_json * db :=
  try_catch (require_billing_access caller (create_body_steps e errors b))
    "Failed to create invoice".
(** *** PUT /api/invoices/:id *)

Record update_body := {
  up_client_id : option uuid;
  up_project_id : option uuid;
  up_amount : option Z;
  up_description : option string;
  up_date : option date;
  up_due_date : option date;
  up_status : option invoice_status
}.

(** [updateFields.length === 0]: none of the seven updatable keys is in
    the body. *)
Definition no_valid_fields (u : update_body) : bool :=
  bool_decide (up_client_id u = None) && bool_decide (up_project_id u = None)
  && bool_decide (up_amount u = None) && bool_decide (up_description u = None)
  && bool_decide (up_date u = None) && bool_decide (up_due_date u = None)
  && bool_decide (up_status u = None).

(** [UPDATE invoices SET key = value, ..., updated_at = $n]: each key of
    the body that is on the list overwrites its column. *)
Definition apply_updates (u : update_body) (at_ : Z) (r : invoice_row)
  : invoice_row :=
  {| i_number := i_number r;
     i_client_id := default (i_client_id r) (up_client_id u);
     i_project_id :=
       match up_project_id u with Some p => Some p | None => i_project_id r end;
     i_amount := default (i_amount r) (up_amount u);
     i_description :=
       match up_description u with
       | Some d => Some d
       | None => i_description r
       end;
     i_date := default (i_date r) (up_date u);
     i_due_date := default (i_due_date r) (up_due_date u);
     i_status := default (i_status r) (up_status u);
     i_paid_amount := i_paid_amount r;
     i_created_at := i_created_at r;
     i_updated_at := at_ |}.

Definition update_steps (e : env) (errors : list string) (id : uuid)
    (updates : update_body) : route :=
  check_validation errors;;
  existingInvoice ← query (λ s, invoices s !! id);
  match existingInvoice with
  | None => res_json 404 (Error "Invoice not found")
  | Some invoice =>
    match up_client_id updates with
    | Some cid =>
        clientResult ← query (λ s, users s !! cid);
        reject_if
          (match clientResult with
           | None => true
           | Some c => negb (u_approved c)
           end)
          400 (Error "Invalid or unapproved client")
    | None => mret tt
    end;;
    match up_project_id updates with
    | Some pid =>
        projectResult ← query (λ s, projects s !! pid);
        reject_if (bool_decide (projectResult = None :> option project_row))
          400 (Error "Project not found")
    | None => mret tt
    end;;
    reject_if (no_valid_fields updates) 400
      (Error "No valid fields to update");;
    exec (λ s, set_invoices
      (update_by_id id (apply_updates updates (now e)) (invoices s)) s);;
    details ← query (λ s,
      with_details s (id, apply_updates updates (now e) invoice));
    res_json 200 (Json (J_invoice "Invoice updated successfully" details))
  end.

Definition update_invoice (e : env) (caller : principal)
    (errors : list string) (id : uuid) (updates : update_body)
  : db → response invoice_json * db :=
  try_catch (require_billing_access caller (update_steps e errors id updates))
    "Failed to update invoice".

(** *** PUT /api/invoices/:id/payment *)

Record payment_body := { pm_amount : Z; pm_markAsPaid : bool }.

(** [UPDATE invoices SET paid_amount = $1, status = $2, updated_at = NOW()] *)
Definition set_payment (paid : Z) (st : invoice_status) (at_ : Z)
    (r : invoice_row) : invoice_row :=
  {| i_number := i_number r; i_client_id := i_client_id r;
     i_project_id := i_project_id r; i_amount := i_amount r;
     i_description := i_description r; i_date := i_date r;
     i_due_date := i_due_date r; i_status := st;
     i_paid_amount := paid;
     i_created_at := i_created_at r; i_updated_at := at_ |}.

(** The route adds and compares [parseFloat] doubles. Here the sum and the
    two comparisons are those of the exact amounts: the doubles compare
    the same way whenever the exact total differs from the invoice amount,
    and the [NUMERIC] column stores the exact total. The numbers of the
    [payment] member are the exact ones likewise. *)
Definition payment_steps (e : env) (errors : list string) (id : uuid)
    (b : payment_body) : route :=
  check_validation errors;;
  existingInvoice ← query (λ s, invoices s !! id);
  match existingInvoice with
  | None => res_json 404 (Error "Invoice not found")
  | Some invoice =>
    reject_if (bool_decide (i_status invoice = I_cancelled)) 400
      (Error "Cannot add payment to cancelled invoice");;
    let currentPaidAmount := i_paid_amount invoice in
    let invoiceAmount := i_amount invoice in
    let paymentAmount := pm_amount b in
    new ←
      (if pm_markAsPaid b then
         (* Mark as fully paid - set paid amount to invoice amount *)
         mret (invoiceAmount, I_paid)
       else
         (* Add partial payment *)
         let newPaidAmount := currentPaidAmount + paymentAmount in
         reject_if (invoiceAmount <? newPaidAmount) 400
           (Error ("Payment amount exceeds remaining balance. Remaining: $"
                   +:+ toFixed2 (invoiceAmount - currentPaidAmount)));;
         mret (newPaidAmount,
               if invoiceAmount <=? newPaidAmount then I_paid else I_pending));
    let newPaidAmount := fst new in
    let newStatus := snd new in
    exec (λ s, set_invoices
      (update_by_id id (set_payment newPaidAmount newStatus (now e))
         (invoices s)) s);;
    res_json 200 (Json (J_payment
      (if pm_markAsPaid b then "Invoice marked as paid"
       else "Payment added successfully")
      id (set_payment newPaidAmount newStatus (now e) invoice)
      {| pay_amount :=
           if pm_markAsPaid b then invoiceAmount - currentPaidAmount
           else paymentAmount;
         pay_newBalance := invoiceAmount - newPaidAmount;
         pay_totalPaid := newPaidAmount |}))
  end.

Definition add_payment (e : env) (caller : principal)
    (errors : list string) (id : uuid) (b : payment_body)
  : db → response invoice_json * db :=
  try_catch (require_billing_access caller (payment_steps e errors id b))
    "Failed to add payment".

(** *** GET /api/invoices/:id *)

Record invoice_detail := {
  dt_view : invoice_view;
  dt_client_username : option string;
  dt_project_description : option string
}.

(** [router.use] for the routes whose bodies are not [invoice_json]. *)
Definition billing_check {B} (caller : principal) : handler B unit :=
  reject_if (negb (Auth.canAccessBilling (pr_roles caller))) 403
    (Error "Access denied. Billing access requires admin or madmin role.").

Definition get_steps (caller : principal) (errors : list string) (id : uuid)
    : handler invoice_detail Empty_set :=
  billing_check caller;;
  check_validation errors;;
  result ← query (λ s,
    r ← invoices s !! id;
    Some {| dt_view := with_details s (id, r);
            dt_client_username := u_username <$> users s !! i_client_id r;
            dt_project_description :=
              pid ← i_project_id r; p ← projects s !! pid; p_description p |});
  match result with
  | None => res_json 404 (Error "Invoice not found")
  | Some invoice => res_json 200 (Json invoice)
  end.

Definition get_invoice (caller : principal) (errors : list string) (id : uuid)
    : db → response invoice_detail * db :=
  try_catch (get_steps caller errors id) "Failed to fetch invoice".

(** *** DELETE /api/invoices/:id *)

Definition delete_steps (caller : principal) (errors : list string)
    (id : uuid) : handler (Auth.guarded string) Empty_set :=
  billing_check caller;;
  Auth.requireAdmin (Some caller);;
  check_validation errors;;
  (* Check if invoice exists *)
  existingInvoice ← query (λ s, invoices s !! id);
  match existingInvoice with
  | None => res_json 404 (Error "Invoice not found")
  | Some invoice =>
      let invoiceNumber := i_number invoice in
      exec (λ s, set_invoices (delete id (invoices s)) s);;
      res_json 200 (Json (Auth.Passed
        ("Invoice " +:+ invoiceNumber +:+ " deleted successfully")))
  end.

Definition delete_invoice (caller : principal) (errors : list string)
    (id : uuid) : db → response (Auth.guarded string) * db :=
  try_catch (delete_steps caller errors id) "Failed to delete invoice".

End Invoices.

(** ** JavaScript numbers read from SQL results *)

(** A number with two decimals, or [NaN]. *)
Inductive number := NaN | Num (hundredths : Z).

(** [parseFloat(v)] of a [NUMERIC] column; SQL [NULL] arrives as [null]. *)
Definition parseFloat (v : option Z) : number :=
  match v with
  | Some x => Num x
  | None => NaN
  end.

(** [a || b] on numbers: [NaN] and [0] are falsy. *)
Definition js_or (a b : number) : number :=
  match a with
  | NaN => b
  | Num x => if x =? 0 then b else a
  end.

(** [a / b] rounded to the nearest integer, halves away from zero, for a
    positive [b]: SQL's [ROUND] and the rounding of [toFixed]. *)
Definition round_div (a b : Z) : Z :=
  Z.sgn a * ((2 * Z.abs a + b) / (2 * b)).

(** [NULLIF(x, 0)] *)
Definition nullif0 (x : Z) : option Z :=
  if x =? 0 then None else Some x.

(** [COALESCE(SUM(...), 0)]: the sum over no rows is [NULL]. *)
Definition sql_sum (l : list Z) : option Z :=
  match l with
  | [] => None
  | _ => Some (foldr Z.add 0 l)
  end.

Definition coalesce (v : option Z) (d : Z) : Z := default d v.

(** ** The project routes *)

Module Projects.
Record project_view := {
  pv_id : uuid;
  pv_row : project_row;
  pv_created_by_name : option string;
  pv_created_by_username : option string
}.

Record stats := {
  st_total : Z;
  st_pending : Z;
  st_ongoing : Z;
  st_completed : Z;
  st_completionRate : number
}.

Inductive project_json :=
| J_project (message : string) (project : project_view)
| J_stats (s : stats).

Abbreviation route := (handler project_json Empty_set).

Definition with_creator (s : db) (id : uuid) (r : project_row) (by_ : uuid)
  : project_view :=
  let u := users s !! by_ in
  {| pv_id := id; pv_row := r;
     pv_created_by_name := u_name <$> u;
     pv_created_by_username := u_username <$> u |}.

Definition access_denied (what : string) : body project_json :=
  Error ("Access denied. Project " +:+ what
         +:+ " requires user, madmin, or admin role.").

(** *** POST /api/projects *)

Record create_body := {
  c_name : string;
  c_description : option string;
  c_start_date : date;
  c_end_date : option date;
  c_status : option project_status
}.

(** [end_date && new Date(end_date) < new Date(start_date)] *)
Definition ends_before_start (end_date : option date) (start_date : date)
  : bool :=
  match end_date with
  | Some d => date_ltb d start_date
  | None => false
  end.

(** [end_date && status !== 'completed'] *)
Definition end_without_completed (end_date : option date)
    (st : option project_status) : bool :=
  match end_date with
  | Some _ => negb (bool_decide (st = Some P_completed))
  | None => false
  end.

Definition create_steps (e : env) (caller : principal)
    (errors : list string) (b : create_body) : route :=
  check_validation errors;;
  reject_if (negb (Auth.canAccessProjects (pr_roles caller))) 403
    (access_denied "creation");;
  let status := default P_pending (c_status b) in
  (* Validate date logic *)
  reject_if (ends_before_start (c_end_date b) (c_start_date b)) 400
    (Error "End date cannot be before start date");;
  (* For regular users, end_date can only be set when status is completed *)
  reject_if (negb (Auth.isPrivileged (pr_roles caller))
             && end_without_completed (c_end_date b) (Some status)) 400
    (Error "End date can only be set when project status is completed");;
  let newProject :=
    {| p_name := c_name b; p_description := c_description b;
       p_start_date := c_start_date b; p_end_date := c_end_date b;
       p_status := status; p_created_by := pr_id caller;
       p_created_at := now e; p_updated_at := now e |} in
  inserted ← query (λ s, insert_row (fresh_id e) newProject (projects s));
  match inserted with
  | None => throw
  | Some t =>
      exec (set_projects t);;
      view ← query (λ s,
        with_creator s (fresh_id e) newProject (pr_id caller));
      res_json 201 (Json (J_project "Project created successfully" view))
  end.

Definition create_project (e : env) (caller : principal)
    (errors : list string) (b : create_body)
  : db → response project_json * db :=
  try_catch (create_steps e caller errors b) "Failed to create project".

(** *** PUT /api/projects/:id *)

Record update_body := {
  up_name : option string;
  up_description : option string;
  up_start_date : option date;
  up_end_date : option date;
  up_status : option project_status
}.

Definition no_valid_fields (u : update_body) : bool :=
  bool_decide (up_name u = None) && bool_decide (up_description u = None)
  && bool_decide (up_start_date u = None)
  && bool_decide (up_end_date u = None)
  && bool_decide (up_status u = None).

Definition keep {A} (new old : option A) : option A :=
  match new with
  | Some v => Some v
  | None => old
  end.

Definition apply_updates (u : update_body) (at_ : Z) (r : project_row)
  : project_row :=
  {| p_name := default (p_name r) (up_name u);
     p_description := keep (up_description u) (p_description r);
     p_start_date := default (p_start_date r) (up_start_date u);
     p_end_date := keep (up_end_date u) (p_end_date r);
     p_status := default (p_status r) (up_status u);
     p_created_by := p_created_by r;
     p_created_at := p_created_at r;
     p_updated_at := at_ |}.

(** [roles.includes('admin') || roles.includes('madmin')
     || project.created_by === req.user.id] *)
Definition owner_or_privileged (caller : principal) (r : project_row)
  : bool :=
  Auth.isPrivileged (pr_roles caller)
  || bool_decide (p_created_by r = pr_id caller).

Definition update_steps (e : env) (caller : principal)
    (errors : list string) (id : uuid) (updates : update_body) : route :=
  check_validation errors;;
  reject_if (negb (Auth.canAccessProjects (pr_roles caller))) 403
    (access_denied "access");;
  existingProject ← query (λ s, projects s !! id);
  match existingProject with
  | None => res_json 404 (Error "Project not found")
  | Some project =>
    (* Check permissions *)
    reject_if (negb (owner_or_privileged caller project)) 403
      (Error "Access denied. You can only edit your own projects.");;
    (* For regular users, validate end_date rules *)
    reject_if (negb (Auth.isPrivileged (pr_roles caller))
               && end_without_completed (up_end_date updates)
                    (up_status updates)) 400
      (Error "End date can only be set when project status is completed");;
    reject_if (no_valid_fields updates) 400
      (Error "No valid fields to update");;
    let updatedProject := apply_updates updates (now e) project in
    exec (λ s, set_projects
      (update_by_id id (apply_updates updates (now e)) (projects s)) s);;
    view ← query (λ s,
      with_creator s id updatedProject (p_created_by updatedProject));
    res_json 200 (Json (J_project "Project updated successfully" view))
  end.

Definition update_project (e : env) (caller : principal)
    (errors : list string) (id : uuid) (updates : update_body)
  : db → response project_json * db :=
  try_catch (update_steps e caller errors id updates)
    "Failed to update project".

(** *** PUT /api/projects/:id/complete *)

(** [SET status = 'completed', end_date = CURRENT_DATE, updated_at = NOW()] *)
Definition mark_completed (e : env) (r : project_row) : project_row :=
  {| p_name := p_name r; p_description := p_description r;
     p_start_date := p_start_date r;
     p_end_date := Some (current_date e);
     p_status := P_completed;
     p_created_by := p_created_by r;
     p_created_at := p_created_at r;
     p_updated_at := now e |}.

Definition complete_steps (e : env) (caller : principal)
    (errors : list string) (id : uuid) : route :=
  check_validation errors;;
  reject_if (negb (Auth.canAccessProjects (pr_roles caller))) 403
    (access_denied "access");;
  existingProject ← query (λ s, projects s !! id);
  match existingProject with
  | None => res_json 404 (Error "Project not found")
  | Some project =>
    reject_if (negb (owner_or_privileged caller project)) 403
      (Error "Access denied. You can only complete your own projects.");;
    reject_if (bool_decide (p_status project = P_completed)) 400
      (Error "Project is already completed");;
    (* Mark as completed with current date as end_date *)
    let completedProject := mark_completed e project in
    exec (λ s, set_projects
      (update_by_id id (mark_completed e) (projects s)) s);;
    view ← query (λ s,
      with_creator s id completedProject (p_created_by completedProject));
    res_json 200 (Json (J_project "Project marked as completed" view))
  end.

Definition complete_project (e : env) (caller : principal)
    (errors : list string) (id : uuid)
  : db → response project_json * db :=
  try_catch (complete_steps e caller errors id)
    "Failed to complete project".

(** *** GET /api/projects/stats/overview *)

(** [COUNT(CASE WHEN status = st THEN 1 END)] *)
Definition count_status (st : project_status) (rows : list (uuid * project_row))
  : Z :=
  Z.of_nat (length (filter (λ kr, p_status (snd kr) = st) rows)).

(** [ROUND(completed * 100.0 / NULLIF(total, 0), 2)], in hundredths of a
    percent; [NULL] when the divisor is. *)
Definition completion_rate (completed total : Z) : option Z :=
  d ← nullif0 total; Some (round_div (completed * 100 * 100) d).

(** [WHERE created_by = $1] for callers that are neither admin nor
    madmin, no [WHERE] clause for the others. *)
Definition stats_scope (caller : principal) (kr : uuid * project_row) : bool :=
  Auth.isPrivileged (pr_roles caller)
  || bool_decide (p_created_by (snd kr) = pr_id caller).

Definition stats_steps (caller : principal) : route :=
  reject_if (negb (Auth.canAccessProjects (pr_roles caller))) 403
    (access_denied "access");;
  rows ← query (λ s, select_where (stats_scope caller) (projects s));
  let total_projects := Z.of_nat (length rows) in
  let completed_projects := count_status P_completed rows in
  res_json 200 (Json (J_stats
    {| st_total := total_projects;
       st_pending := count_status P_pending rows;
       st_ongoing := count_status P_ongoing rows;
       st_completed := completed_projects;
       st_completionRate :=
         js_or (parseFloat (completion_rate completed_projects total_projects))
               (Num 0) |})).

Definition stats_overview (caller : principal)
  : db → response project_json * db :=
  try_catch (stats_steps caller) "Failed to fetch project statistics".

(** *** GET /api/projects and GET /api/projects/:id *)

Record list_query := {
  q_status : option project_status;
  q_search : option string;
  q_user_id : option uuid;
  q_limit : Z;
  q_offset : Z
}.

Inductive read_json :=
| J_projects (projects : list project_view) (p : Invoices.pagination)
| J_found (project : project_view) (created_by_email : option string).

Abbreviation reader := (handler read_json Empty_set).

Definition view_of (s : db) (kr : uuid * project_row) : project_view :=
  with_creator s (fst kr) (snd kr) (p_created_by (snd kr)).

Section Listing.
(** SQL's [text ILIKE pattern], an operator of the store. *)
Variable ilike : string → string → bool.

(** The [WHERE] clause of the listing: the filters of the query string
    and, for callers that are neither admin nor madmin,
    [AND p.created_by = $n] with the caller's id. *)
Definition list_filter (caller : principal) (q : list_query)
    (kr : uuid * project_row) : bool :=
  let r := snd kr in
  Invoices.opt_matches (q_status q) (p_status r)
  && match q_search q with
     | Some text =>
         let pat := "%" +:+ text +:+ "%" in
         ilike (p_name r) pat || Invoices.null_ilike ilike (p_description r) pat
     | None => true
     end
  && Invoices.opt_matches (q_user_id q) (p_created_by r)
  && (Auth.isPrivileged (pr_roles caller)
      || bool_decide (p_created_by r = pr_id caller)).

Definition list_steps (caller : principal) (q : list_query) : reader :=
  reject_if (negb (Auth.canAccessProjects (pr_roles caller))) 403
    (Error
       "Access denied. Project access requires user, madmin, or admin role.");;
  result ← query_page (q_limit q) (q_offset q) (λ s,
    view_of s <$>
      limit_offset (q_limit q) (q_offset q)
        (order_by_desc p_created_at
           (select_where (list_filter caller q) (projects s))));
  total ← query (λ s,
    Z.of_nat (length (select_where (list_filter caller q) (projects s))));
  res_json 200 (Json (J_projects result
    {| Invoices.pg_total := total; Invoices.pg_limit := q_limit q;
       Invoices.pg_offset := q_offset q;
       Invoices.pg_hasMore := (q_offset q + q_limit q <? total) |})).

Definition list_projects (caller : principal) (q : list_query)
    : db → response read_json * db :=
  try_catch (list_steps caller q) "Failed to fetch projects".
End Listing.

Definition get_steps (caller : principal) (errors : list string) (id : uuid)
    : reader :=
  check_validation errors;;
  reject_if (negb (Auth.canAccessProjects (pr_roles caller))) 403
    (Error
       "Access denied. Project access requires user, madmin, or admin role.");;
  result ← query (λ s, projects s !! id);
  match result with
  | None => res_json 404 (Error "Project not found")
  | Some project =>
      (* Check if user can access this specific project *)
      reject_if (negb (Auth.isPrivileged (pr_roles caller))
                 && negb (bool_decide (p_created_by project = pr_id caller)))
        403 (Error "Access denied. You can only view your own projects.");;
      found ← query (λ s,
        J_found (view_of s (id, project))
          (u_email <$> users s !! p_created_by project));
      res_json 200 (Json found)
  end.

Definition get_project (caller : principal) (errors : list string) (id : uuid)
    : db → response read_json * db :=
  try_catch (get_steps caller errors id) "Failed to fetch project".
End Projects.

(** ** routes/timeEntries.js *)

Module TimeEntries.
Record time_stats := {
  ts_totalEntries : Z;
  ts_completedEntries : Z;
  ts_activeEntries : Z;
  ts_daysWorked : Z;
  ts_totalHours : string;
  ts_averageHoursPerDay : number
}.

Inductive time_json :=
| J_entry (message : string) (id : uuid) (timeEntry : time_entry_row)
    (duration : option string)
| J_message (message : string)
| J_stats (period : string) (s : time_stats).

Abbreviation route := (handler time_json Empty_set).

(** [clock_out IS NULL] *)
Definition is_open (r : time_entry_row) : bool :=
  bool_decide (t_clock_out r = None).

(** [WHERE user_id = $1 AND clock_out IS NULL] *)
Definition open_entry_of (uid : uuid) (kr : uuid * time_entry_row) : bool :=
  bool_decide (t_user_id (snd kr) = uid) && is_open (snd kr).

(** [`${hours}:${String(minutes).padStart(2, '0')}`] *)
Definition format_duration (diffMs : Z) : string :=
  let hours := diffMs / (1000 * 60 * 60) in
  let minutes := Z.rem diffMs (1000 * 60 * 60) / (1000 * 60) in
  String_of hours +:+ ":" +:+ padStart 2 "0"%char (String_of minutes).

(** *** POST /api/time-entries/clock-in *)

Definition clock_in_steps (e : env) (caller : principal) : route :=
  (* Check if user is already clocked in *)
  existingEntry ← query (λ s,
    select_where (open_entry_of (pr_id caller)) (time_entries s));
  reject_if (0 <? Z.of_nat (length existingEntry)) 400
    (Error "You are already clocked in. Please clock out first.");;
  let newEntry :=
    {| t_user_id := pr_id caller; t_clock_in := now e;
       t_clock_out := None; t_date := current_date e;
       t_created_at := now e; t_updated_at := now e |} in
  inserted ← query (λ s, insert_row (fresh_id e) newEntry (time_entries s));
  match inserted with
  | None => throw
  | Some t =>
      exec (set_time_entries t);;
      res_json 201 (Json
        (J_entry "Clocked in successfully" (fresh_id e) newEntry None))
  end.

Definition clock_in (e : env) (caller : principal)
  : db → response time_json * db :=
  try_catch (clock_in_steps e caller) "Failed to clock in".

(** *** PUT /api/time-entries/clock-out *)

(** [SET clock_out = $1, updated_at = NOW()] *)
Definition close_entry (e : env) (r : time_entry_row) : time_entry_row :=
  {| t_user_id := t_user_id r; t_clock_in := t_clock_in r;
     t_clock_out := Some (now e); t_date := t_date r;
     t_created_at := t_created_at r; t_updated_at := now e |}.

Definition clock_out_steps (e : env) (caller : principal) : route :=
  (* Find current active entry *)
  activeEntry ← query (λ s,
    limit_offset 1 0
      (order_by_desc t_created_at
         (select_where (open_entry_of (pr_id caller)) (time_entries s))));
  match activeEntry with
  | [] => res_json 400 (Error "You are not currently clocked in.")
  | entry :: _ =>
      exec (λ s, set_time_entries
        (update_by_id (fst entry) (close_entry e) (time_entries s)) s);;
      let updatedEntry := close_entry e (snd entry) in
      let diffMs := now e - t_clock_in updatedEntry in
      res_json 200 (Json
        (J_entry "Clocked out successfully" (fst entry) updatedEntry
           (Some (format_duration diffMs))))
  end.

Definition clock_out (e : env) (caller : principal)
  : db → response time_json * db :=
  try_catch (clock_out_steps e caller) "Failed to clock out".

(** *** DELETE /api/time-entries/:id *)

Definition delete_steps (caller : principal) (errors : list string)
    (id : uuid) : route :=
  check_validation errors;;
  (* Check if entry exists and belongs to user *)
  existingEntry ← query (λ s,
    r ← time_entries s !! id;
    guard (t_user_id r = pr_id caller);; Some r);
  match existingEntry with
  | None =>
      res_json 404 (Error
        "Time entry not found or you do not have permission to delete it")
  | Some entry =>
      (* Don't allow deletion of active (not clocked out) entries *)
      reject_if (is_open entry) 400
        (Error "Cannot delete an active time entry. Please clock out first.");;
      exec (λ s, set_time_entries (delete id (time_entries s)) s);;
      res_json 200 (Json (J_message "Time entry deleted successfully"))
  end.

Definition delete_entry (caller : principal) (errors : list string)
    (id : uuid) : db → response time_json * db :=
  try_catch (delete_steps caller errors id) "Failed to delete time entry".

(** *** GET /api/time-entries/stats *)

Inductive period := Week | Month | Year.

Definition periodName (p : period) : string :=
  match p with
  | Week => "This Week"
  | Year => "This Year"
  | Month => "This Month"
  end.

Inductive interval := Days (n : Z) | Years (n : Z).

Definition period_interval (p : period) : interval :=
  match p with
  | Week => Days 7
  | Year => Years 1
  | Month => Days 30
  end.

Section Stats.
(** SQL's [date - INTERVAL '...'], an operator of the store. *)
Variable date_minus : date → interval → date.

(** [WHERE user_id = $1 AND date >= CURRENT_DATE - INTERVAL '...'] *)
Definition stats_filter (e : env) (uid : uuid) (p : period)
    (kr : uuid * time_entry_row) : bool :=
  bool_decide (t_user_id (snd kr) = uid)
  && negb (date_ltb (t_date (snd kr))
             (date_minus (current_date e) (period_interval p))).

(** [CASE WHEN clock_out IS NOT NULL THEN clock_out - clock_in ELSE 0 END],
    in milliseconds. *)
Definition worked_ms (r : time_entry_row) : Z :=
  match t_clock_out r with
  | Some out => out - t_clock_in r
  | None => 0
  end.

Definition ms_per_hour : Z := 3600 * 1000.

Definition stats_steps (e : env) (caller : principal) (p : period) : route :=
  rows ← query (λ s,
    snd <$> select_where (stats_filter e (pr_id caller) p) (time_entries s));
  let total_entries := Z.of_nat (length rows) in
  let completed_entries :=
    Z.of_nat (length (filter (λ r, is_open r = false) rows)) in
  let active_entries :=
    Z.of_nat (length (filter (λ r, is_open r = true) rows)) in
  let days_worked := Z.of_nat (length (remove_dups (t_date <$> rows))) in
  let total_ms := coalesce (sql_sum (worked_ms <$> rows)) 0 in
  (* Get average hours per day *)
  let avgHoursPerDay :=
    if 0 <? days_worked
    then round_div (total_ms * 100) (ms_per_hour * days_worked)
    else 0 in
  res_json 200 (Json (J_stats (periodName p)
    {| ts_totalEntries := total_entries;
       ts_completedEntries := completed_entries;
       ts_activeEntries := active_entries;
       ts_daysWorked := days_worked;
       ts_totalHours := toFixed2 (round_div (total_ms * 100) ms_per_hour);
       ts_averageHoursPerDay := parseFloat (Some avgHoursPerDay) |})).

Definition stats (e : env) (caller : principal) (p : period)
  : db → response time_json * db :=
  try_catch (stats_steps e caller p) "Failed to fetch time statistics".
End Stats.

(** *** GET /api/time-entries *)

(** The [month] parameter, in the format [YYYY-MM]. *)
Record month_param := { m_year : Z; m_month : Z }.

Record list_query := {
  q_limit : Z;
  q_offset : Z;
  q_date : option date;
  q_month : option month_param
}.

Record entry_view := {
  ev_id : uuid;
  ev_entry : time_entry_row;
  ev_duration : option string
}.

Record current_view := {
  cv_id : uuid;
  cv_entry : time_entry_row;
  cv_currentDuration : string
}.

Record today_summary := {
  td_date : date;
  td_clockInTime : option Z;
  td_clockOutTime : option Z;
  td_totalWorked : string;
  td_status : string;
  td_isCurrentlyClockedIn : bool;
  td_entriesCount : Z
}.

Inductive read_json :=
| J_entries (timeEntries : list entry_view) (p : Invoices.pagination)
| J_current (currentEntry : option current_view) (isClockedIn : bool)
| J_today (summary : today_summary).

Abbreviation reader := (handler read_json Empty_set).

(** [`${month}-01`] *)
Definition month_start (m : month_param) : date :=
  Date (m_year m) (m_month m) 1.

(** [parseInt(monthNum) === 12 ? `${parseInt(year) + 1}-01-01`
     : `${year}-${String(parseInt(monthNum) + 1).padStart(2, '0')}-01`] *)
Definition next_month (m : month_param) : date :=
  if m_month m =? 12 then Date (m_year m + 1) 1 1
  else Date (m_year m) (m_month m + 1) 1.

(** [WHERE user_id = $1 AND date = $2 AND date >= $3 AND date < $4], the
    last three present when the query string has them. *)
Definition list_filter (uid : uuid) (q : list_query)
    (kr : uuid * time_entry_row) : bool :=
  let r := snd kr in
  bool_decide (t_user_id r = uid)
  && Invoices.opt_matches (q_date q) (t_date r)
  && match q_month q with
     | Some m =>
         negb (date_ltb (t_date r) (month_start m))
         && date_ltb (t_date r) (next_month m)
     | None => true
     end.

(** Calculate duration for each entry *)
Definition with_duration (kr : uuid * time_entry_row) : entry_view :=
  {| ev_id := fst kr; ev_entry := snd kr;
     ev_duration :=
       out ← t_clock_out (snd kr);
       Some (format_duration (out - t_clock_in (snd kr))) |}.

Definition list_steps (caller : principal) (q : list_query) : reader :=
  result ← query_page (q_limit q) (q_offset q) (λ s,
    limit_offset (q_limit q) (q_offset q)
      (order_by_desc t_created_at
         (select_where (list_filter (pr_id caller) q) (time_entries s))));
  total ← query (λ s,
    Z.of_nat (length
      (select_where (list_filter (pr_id caller) q) (time_entries s))));
  res_json 200 (Json (J_entries (with_duration <$> result)
    {| Invoices.pg_total := total; Invoices.pg_limit := q_limit q;
       Invoices.pg_offset := q_offset q;
       Invoices.pg_hasMore := (q_offset q + q_limit q <? total) |})).

Definition list_entries (caller : principal) (q : list_query)
    : db → response read_json * db :=
  try_catch (list_steps caller q) "Failed to fetch time entries".

(** *** GET /api/time-entries/current *)

Definition current_steps (e : env) (caller : principal) : reader :=
  result ← query (λ s,
    limit_offset 1 0
      (order_by_desc t_created_at
         (select_where (open_entry_of (pr_id caller)) (time_entries s))));
  match result with
  | [] => res_json 200 (Json (J_current None false))
  | entry :: _ =>
      let diffMs := now e - t_clock_in (snd entry) in
      res_json 200 (Json (J_current
        (Some {| cv_id := fst entry; cv_entry := snd entry;
                 cv_currentDuration := format_duration diffMs |})
        true))
  end.

Definition current_entry (e : env) (caller : principal)
    : db → response read_json * db :=
  try_catch (current_steps e caller) "Failed to fetch current time entry".

(** *** GET /api/time-entries/today *)

(** [WHERE user_id = $1 AND date = $2] *)
Definition today_filter (e : env) (uid : uuid) (kr : uuid * time_entry_row)
    : bool :=
  bool_decide (t_user_id (snd kr) = uid)
  && bool_decide (t_date (snd kr) = current_date e).

(** Calculate total worked time: closed entries count their length, open
    ones the time since clock-in when the caller is clocked in. *)
Definition total_worked_ms (e : env) (isCurrentlyClockedIn : bool)
    (rows : list time_entry_row) : Z :=
  foldl (λ totalWorkedMs entry,
           match t_clock_out entry with
           | Some out => totalWorkedMs + (out - t_clock_in entry)
           | None =>
               if isCurrentlyClockedIn
               then totalWorkedMs + (now e - t_clock_in entry)
               else totalWorkedMs
           end) 0 rows.

Definition today_steps (e : env) (caller : principal) : reader :=
  rows ← query (λ s,
    snd <$> order_by_desc t_created_at
              (select_where (today_filter e (pr_id caller)) (time_entries s)));
  let summary :=
    match rows with
    | [] =>
        {| td_date := current_date e; td_clockInTime := None;
           td_clockOutTime := None;
           td_totalWorked := format_duration 0;
           td_status := "Not Started"; td_isCurrentlyClockedIn := false;
           td_entriesCount := 0 |}
    | lastEntry :: _ =>
        (* Get first entry for clock in time *)
        let clockInTime := t_clock_in <$> last rows in
        (* Check if currently clocked in *)
        let currentEntry := List.find is_open rows in
        let isCurrentlyClockedIn := bool_decide (is_Some currentEntry) in
        {| td_date := current_date e; td_clockInTime := clockInTime;
           td_clockOutTime :=
             if isCurrentlyClockedIn then None else t_clock_out lastEntry;
           td_totalWorked :=
             format_duration (total_worked_ms e isCurrentlyClockedIn rows);
           td_status :=
             if isCurrentlyClockedIn then "In Progress" else "Completed";
           td_isCurrentlyClockedIn := isCurrentlyClockedIn;
           td_entriesCount := Z.of_nat (length rows) |}
    end in
  res_json 200 (Json (J_today summary)).

Definition today (e : env) (caller : principal)
    : db → response read_json * db :=
  try_catch (today_steps e caller) "Failed to fetch today's summary".
End TimeEntries.

(** ** routes/invoices.js: statistics *)

Module InvoiceStats.
Record invoice_stats := {
  is_total : Z;
  is_pending : Z;
  is_paid : Z;
  is_overdue : Z;
  is_cancelled : Z;
  is_totalRevenue : Z;
  is_pendingRevenue : Z;
  is_overdueRevenue : Z;
  is_averageAmount : Q
}.

(** [COUNT(CASE WHEN status = st THEN 1 END)] *)
Definition count_status (st : invoice_status) (rows : list invoice_row) : Z :=
  Z.of_nat (length (filter (λ r, i_status r = st) rows)).

(** [COALESCE(SUM(CASE WHEN status = st THEN amount ELSE 0 END), 0)] *)
Definition revenue (st : invoice_status) (rows : list invoice_row) : Z :=
  coalesce
    (sql_sum ((λ r, if bool_decide (i_status r = st) then i_amount r else 0)
              <$> rows)) 0.

Section Average.
(** [parseFloat] of the store's [AVG] over amounts, of which there is at
    least one: the quotient at the scale the store gives it, read as a
    double. *)
Variable numeric_avg : list Z → Q.

(** [COALESCE(AVG(CASE WHEN status = 'paid' THEN amount END), 0)]: the
    store's average of the paid amounts, [NULL] (then 0) when there is
    none. *)
Definition average_paid (rows : list invoice_row) : Q :=
  let paid := filter (λ r, i_status r = I_paid) rows in
  match paid with
  | [] => 0%Q
  | _ => numeric_avg (i_amount <$> paid)
  end.

Definition stats_steps (caller : principal)
    : handler invoice_stats Empty_set :=
  Invoices.billing_check caller;;
  rows ← query (λ s, snd <$> map_to_list (invoices s));
  res_json 200 (Json
    {| is_total := Z.of_nat (length rows);
       is_pending := count_status I_pending rows;
       is_paid := count_status I_paid rows;
       is_overdue := count_status I_overdue rows;
       is_cancelled := count_status I_cancelled rows;
       is_totalRevenue := revenue I_paid rows;
       is_pendingRevenue := revenue I_pending rows;
       is_overdueRevenue := revenue I_overdue rows;
       is_averageAmount := average_paid rows |}).

Definition stats_overview (caller : principal)
    : db → response invoice_stats * db :=
  try_catch (stats_steps caller) "Failed to fetch invoice statistics".
End Average.
End InvoiceStats.

(** * Properties of the routes *)

(** ** Invoices: payments *)

Record payment_request := {
  rq_env : env;
  rq_caller : principal;
  rq_errors : list string;
  rq_id : uuid;
  rq_body : Invoices.payment_body
}.

Definition run_payment (rq : payment_request) (s : db)
  : response Invoices.invoice_json * db :=
  Invoices.add_payment (rq_env rq) (rq_caller rq) (rq_errors rq) (rq_id rq)
    (rq_body rq) s.

(** The store after a sequence of requests to the payment route. *)
Definition apply_payments (reqs : list payment_request) (s : db) : db :=
  foldl (λ s' rq, snd (run_payment rq s')) s reqs.

Definition paid_within_amount (s : db) : Prop :=
  map_Forall (λ _ r, i_paid_amount r ≤ i_amount r) (invoices s).

(** A response that refuses the request. *)
Definition is_rejection {B} (r : response B) : Prop := 400 ≤ res_status r.

(** A partial payment whose new total would exceed the invoice amount. *)
Definition exceeds_balance (s : db) (rq : payment_request) : Prop :=
  Invoices.pm_markAsPaid (rq_body rq) = false
  ∧ ∃ inv, invoices s !! rq_id rq = Some inv
           ∧ i_amount inv < i_paid_amount inv + Invoices.pm_amount (rq_body rq).

(** What the payment route can do to the store. *)
Inductive payment_result (e : env) (id : uuid) (b : Invoices.payment_body)
    (s : db) : response Invoices.invoice_json * db → Prop :=
| payment_rejected r :
    is_rejection r →
    payment_result e id b s (r, s)
| payment_marked inv r :
    invoices s !! id = Some inv →
    i_status inv ≠ I_cancelled →
    Invoices.pm_markAsPaid b = true →
    res_status r = 200 →
    payment_result e id b s
      (r, set_invoices
            (<[id := Invoices.set_payment (i_amount inv) I_paid (now e) inv]>
               (invoices s)) s)
| payment_partial inv r :
    invoices s !! id = Some inv →
    i_status inv ≠ I_cancelled →
    Invoices.pm_markAsPaid b = false →
    i_paid_amount inv + Invoices.pm_amount b ≤ i_amount inv →
    res_status r = 200 →
    payment_result e id b s
      (r, set_invoices
            (<[id := Invoices.set_payment
                       (i_paid_amount inv + Invoices.pm_amount b)
                       (if i_amount inv <=? i_paid_amount inv + Invoices.pm_amount b
                        then I_paid else I_pending)
                       (now e) inv]>
               (invoices s)) s).

(** Status ['paid'] is only stored on an invoice whose paid amount has
    reached its amount. *)
Definition paid_means_settled (s : db) : Prop :=
  map_Forall (λ _ r, i_status r = I_paid → i_amount r ≤ i_paid_amount r)
    (invoices s).

(** ** Sample data *)

Definition client1 : user_row :=
  {| u_email := "client@example.org"; u_username := "client";
     u_name := "Client"; u_roles := ["staff"]; u_approved := true |}.

Definition admin1 : principal :=
  {| pr_id := "u-admin"; pr_roles := ["staff"; "admin"] |}.

(** A server keeping UTC. *)
Definition utc (d : date) : Z := 0.

Definition env1 : env :=
  {| now := 1717200000000; current_date := Date 2024 6 1; fresh_id := "i-2";
     timezone_offset := utc |}.

(** An invoice of 100.00 with nothing paid, due 2024-02-10. *)
Definition invoice100 (st : invoice_status) : invoice_row :=
  {| i_number := "20240001"; i_client_id := "u-client"; i_project_id := None;
     i_amount := 10000; i_description := None; i_date := Date 2024 1 10;
     i_due_date := Date 2024 2 10; i_status := st; i_paid_amount := 0;
     i_created_at := 1704844800000; i_updated_at := 1704844800000 |}.

Definition db_invoice (st : invoice_status) : db :=
  {| users := {[ "u-client" := client1 ]}; projects := ∅;
     invoices := {[ "i-1" := invoice100 st ]}; time_entries := ∅ |}.

Definition partial_payment (cents : Z) : payment_request :=
  {| rq_env := env1; rq_caller := admin1; rq_errors := []; rq_id := "i-1";
     rq_body := {| Invoices.pm_amount := cents;
                   Invoices.pm_markAsPaid := false |} |}.

Definition mark_as_paid : payment_request :=
  {| rq_env := env1; rq_caller := admin1; rq_errors := []; rq_id := "i-1";
     rq_body := {| Invoices.pm_amount := 1;
                   Invoices.pm_markAsPaid := true |} |}.

(** The invoice a payment request names is stored as fully paid. *)
Definition stored_as_paid (rq : payment_request) (s : db) : Prop :=
  ∃ inv, invoices s !! rq_id rq = Some inv
         ∧ i_paid_amount inv = i_amount inv ∧ i_status inv = I_paid.

(** A payment request that passes the billing access check and validation. *)
Definition well_formed (rq : payment_request) : Prop :=
  Auth.canAccessBilling (pr_roles (rq_caller rq)) = true ∧ rq_errors rq = [].

(** A general update whose body is [{ status: 'paid' }]. *)
Definition status_only (st : invoice_status) : Invoices.update_body :=
  {| Invoices.up_client_id := None; Invoices.up_project_id := None;
     Invoices.up_amount := None; Invoices.up_description := None;
     Invoices.up_date := None; Invoices.up_due_date := None;
     Invoices.up_status := Some st |}.

(** ** Invoices: listing *)



(** [GET /api/invoices] without query parameters. *)
Definition list_all : Invoices.list_query :=
  {| Invoices.q_status := None; Invoices.q_client_id := None;
     Invoices.q_project_id := None; Invoices.q_limit := 50;
     Invoices.q_offset := 0; Invoices.q_search := None |}.

(** A stand-in for [ILIKE] where no search text is given. *)
Definition ilike_unused : string → string → bool := λ _ _, false.

(** ** Invoices: numbering *)

(** The value of a string of decimal digits. *)
Definition digits_value (s : string) : option Z :=
  Z.of_uint <$> NilEmpty.uint_of_string s.


(** A server whose local time is five hours behind UTC. *)
Definition env_behind_utc (id : uuid) : env :=
  {| now := 1735732800000; current_date := Date 2025 1 1; fresh_id := id;
     timezone_offset := λ _, 300 |}.

Definition create_new_year : Invoices.create_body :=
  {| Invoices.c_client_id := "u-client"; Invoices.c_project_id := None;
     Invoices.c_amount := 25000; Invoices.c_description := None;
     Invoices.c_date := Date 2025 1 1; Invoices.c_due_date := Date 2025 2 1 |}.

Definition create_march : Invoices.create_body :=
  {| Invoices.c_client_id := "u-client"; Invoices.c_project_id := None;
     Invoices.c_amount := 25000; Invoices.c_description := Some "Mixing";
     Invoices.c_date := Date 2024 3 1; Invoices.c_due_date := Date 2024 4 1 |}.

(** ** Projects *)

(** No stored project ends before it starts. *)
Definition ends_after_start (s : db) : Prop :=
  map_Forall
    (λ _ p, ∀ d, p_end_date p = Some d → date_ltb d (p_start_date p) = false)
    (projects s).

(** Two responses a client can tell apart by their status code, the only
    category a response carries. *)
Definition distinct_kind {B} (r1 r2 : response B) : Prop :=
  res_status r1 ≠ res_status r2.

Definition owner1 : principal :=
  {| pr_id := "u-owner"; pr_roles := ["staff"; "user"] |}.

(** A project starting 2024-01-10 with no end date. *)
Definition project1 (st : project_status) : project_row :=
  {| p_name := "Album"; p_description := None;
     p_start_date := Date 2024 1 10; p_end_date := None; p_status := st;
     p_created_by := "u-owner";
     p_created_at := 1704844800000; p_updated_at := 1704844800000 |}.

Definition db_project (st : project_status) : db :=
  {| users := ∅; projects := {[ "p-1" := project1 st ]};
     invoices := ∅; time_entries := ∅ |}.

(** The body [{ end_date: '2024-01-05' }], with or without a status. *)
Definition end_on_jan5 (st : option project_status) : Projects.update_body :=
  {| Projects.up_name := None; Projects.up_description := None;
     Projects.up_start_date := None;
     Projects.up_end_date := Some (Date 2024 1 5);
     Projects.up_status := st |}.

Definition empty_db : db :=
  {| users := ∅; projects := ∅; invoices := ∅; time_entries := ∅ |}.

(** ** Statistics *)

Definition zero_project_stats : Projects.stats :=
  {| Projects.st_total := 0; Projects.st_pending := 0;
     Projects.st_ongoing := 0; Projects.st_completed := 0;
     Projects.st_completionRate := Num 0 |}.

Definition zero_time_stats : TimeEntries.time_stats :=
  {| TimeEntries.ts_totalEntries := 0; TimeEntries.ts_completedEntries := 0;
     TimeEntries.ts_activeEntries := 0; TimeEntries.ts_daysWorked := 0;
     TimeEntries.ts_totalHours := "0.00";
     TimeEntries.ts_averageHoursPerDay := Num 0 |}.

(** A stand-in for the store's date arithmetic on a table without rows. *)
Definition date_minus_stub (d : date) (i : TimeEntries.interval) : date := d.

(** ** Time entries *)

(** At most one entry per user has no clock-out. *)
Definition one_open_entry_per_user (s : db) : Prop :=
  ∀ k1 k2 r1 r2,
    time_entries s !! k1 = Some r1 →
    time_entries s !! k2 = Some r2 →
    t_user_id r1 = t_user_id r2 →
    t_clock_out r1 = None → t_clock_out r2 = None →
    k1 = k2.

Definition has_open_entry (s : db) (uid : uuid) : Prop :=
  ∃ k r, time_entries s !! k = Some r
         ∧ t_user_id r = uid ∧ t_clock_out r = None.

(** The requests that write to the time-entry table. *)
Inductive time_request :=
| ClockIn (e : env) (caller : principal)
| ClockOut (e : env) (caller : principal)
| DeleteEntry (caller : principal) (errors : list string) (id : uuid).

Definition run_time_request (rq : time_request) (s : db)
  : response TimeEntries.time_json * db :=
  match rq with
  | ClockIn e caller => TimeEntries.clock_in e caller s
  | ClockOut e caller => TimeEntries.clock_out e caller s
  | DeleteEntry caller errors id => TimeEntries.delete_entry caller errors id s
  end.

Definition apply_time_requests (reqs : list time_request) (s : db) : db :=
  foldl (λ s' rq, snd (run_time_request rq s')) s reqs.

Definition already_clocked_in : response TimeEntries.time_json :=
  Response 400 (Error "You are already clocked in. Please clock out first.").

Definition not_clocked_in : response TimeEntries.time_json :=
  Response 400 (Error "You are not currently clocked in.").

Definition env2 : env :=
  {| now := 1717203600000; current_date := Date 2024 6 1; fresh_id := "t-2";
     timezone_offset := utc |}.

(** Clock in, clock in again, clock out. *)
Definition sample_time_requests : list time_request :=
  [ClockIn env1 owner1; ClockIn env2 owner1; ClockOut env2 owner1].

(** ** Authentication and roles *)

Fixpoint contains_char (c : Ascii.ascii) (s : string) : bool :=
  match s with
  | "" => false
  | String a s' => Ascii.eqb a c || contains_char c s'
  end.

(** A middleware lets the request through, leaving the store alone. *)
Definition passes {B} (m : handler B unit) (s : db) : Prop :=
  m s = (Continue tt, s).

(** A verifier that accepts the token "good" for the user "u-owner". *)
Definition jwt_sample (token : string) : Auth.jwt_result :=
  if bool_decide (token = "good") then Auth.Decoded "u-owner"
  else Auth.JsonWebTokenError.

(** ** Reading and guarding projects *)

(** The rows a project listing carries. *)
Definition listed_projects (r : response Projects.read_json)
  : list Projects.project_view :=
  match res_body r with
  | Json (Projects.J_projects rows _) => rows
  | _ => []
  end.

(** The answer of a project route to a caller without a project role. *)
Definition project_denied {B} (what : string) : response B :=
  Response 403
    (Error ("Access denied. Project " +:+ what
            +:+ " requires user, madmin, or admin role.")).

(** The answer to a request that fails validation. *)
Definition validation_failed {B} (errors : list string) : response B :=
  Response 400 (ErrorDetails "Validation failed" errors).

(** A request is refused and the store is left as it was. *)
Definition refused_unchanged {B} (out : response B * db) (s : db) : Prop :=
  is_rejection (fst out) ∧ snd out = s.

Definition staff1 : principal :=
  {| pr_id := "u-staff"; pr_roles := ["staff"] |}.

Definition other1 : principal :=
  {| pr_id := "u-other"; pr_roles := ["staff"; "user"] |}.

Definition project_list_all : Projects.list_query :=
  {| Projects.q_status := None; Projects.q_search := None;
     Projects.q_user_id := None; Projects.q_limit := 50;
     Projects.q_offset := 0 |}.

Definition create_album : Projects.create_body :=
  {| Projects.c_name := "Album"; Projects.c_description := None;
     Projects.c_start_date := Date 2024 1 10; Projects.c_end_date := None;
     Projects.c_status := None |}.

(** ** Reading, deleting and numbering invoices *)

Definition billing_denied {B} : response B :=
  Response 403
    (Error "Access denied. Billing access requires admin or madmin role.").

Definition madmin1 : principal :=
  {| pr_id := "u-madmin"; pr_roles := ["staff"; "madmin"] |}.

(** The year an invoice is dated in. *)
Definition invoice_year (r : invoice_row) : Z := extract_year (i_date r).

(** Every stored number is the one the numbering gives to some count below
    the present count of its year, and no two invoices of a year share a
    number. *)
Definition well_numbered (t : gmap uuid invoice_row) : Prop :=
  (∀ k r, t !! k = Some r →
          ∃ n, 0 ≤ n < Invoices.count_in_year (invoice_year r) t
               ∧ i_number r = Invoices.invoice_number (invoice_year r) n)
  ∧ (∀ k1 k2 r1 r2,
       t !! k1 = Some r1 → t !! k2 = Some r2 →
       invoice_year r1 = invoice_year r2 →
       i_number r1 = i_number r2 → k1 = k2).

(** The requests that reach the invoice table without deleting or
    re-dating an invoice. *)
Inductive billing_request :=
| CreateInvoice (e : env) (caller : principal) (errors : list string)
    (b : Invoices.create_body)
| Pay (rq : payment_request)
| ListInvoices (e : env) (caller : principal) (q : Invoices.list_query).

(** The server's local time is not behind UTC when it handles a request
    to create an invoice. *)
Definition not_behind_utc (rq : billing_request) : Prop :=
  match rq with
  | CreateInvoice e _ _ b => timezone_offset e (Invoices.c_date b) ≤ 0
  | _ => True
  end.

Definition run_billing_request (ilike : string → string → bool)
    (rq : billing_request) (s : db) : db :=
  match rq with
  | CreateInvoice e caller errors b =>
      snd (Invoices.create_invoice e caller errors b s)
  | Pay p => snd (run_payment p s)
  | ListInvoices e caller q => snd (Invoices.list_invoices ilike e caller q s)
  end.

Definition apply_billing_requests (ilike : string → string → bool)
    (reqs : list billing_request) (s : db) : db :=
  foldl (λ s' rq, run_billing_request ilike rq s') s reqs.

(** The payment summary an accepted payment answers with. *)
Definition payment_summary (r : response Invoices.invoice_json)
  : option (uuid * invoice_row * Invoices.payment_info) :=
  match res_body r with
  | Json (Invoices.J_payment _ id inv info) => Some (id, inv, info)
  | _ => None
  end.

(** Two invoices that differ at most in paid amount, status and update
    time. *)
Definition same_but_payment (a b : invoice_row) : Prop :=
  i_number a = i_number b ∧ i_client_id a = i_client_id b
  ∧ i_project_id a = i_project_id b ∧ i_amount a = i_amount b
  ∧ i_description a = i_description b ∧ i_date a = i_date b
  ∧ i_due_date a = i_due_date b ∧ i_created_at a = i_created_at b.

(** The invoice a read answers with. *)
Definition found_invoice (r : response Invoices.invoice_detail)
  : option Invoices.invoice_detail :=
  match res_body r with
  | Json d => Some d
  | _ => None
  end.

(** The stored invoices of a status. *)
Definition invoices_with (st : invoice_status) (s : db) : list invoice_row :=
  filter (λ r, i_status r = st) (snd <$> map_to_list (invoices s)).

(** A stand-in for the store's average: the exact mean of the amounts. *)
Definition exact_mean (l : list Z) : Q :=
  (inject_Z (foldr Z.add 0%Z l) / inject_Z (Z.of_nat (length l)))%Q.

(** The statistics a statistics response carries. *)
Definition invoice_stats_of (r : response InvoiceStats.invoice_stats)
  : option InvoiceStats.invoice_stats :=
  match res_body r with
  | Json st => Some st
  | _ => None
  end.

(** One paid invoice of 100.00 and one of 50.00, and a pending one. *)
Definition db_three_invoices : db :=
  {| users := {[ "u-client" := client1 ]}; projects := ∅;
     invoices :=
       {[ "i-1" := invoice100 I_paid;
          "i-2" := Invoices.apply_updates
                     {| Invoices.up_client_id := None;
                        Invoices.up_project_id := None;
                        Invoices.up_amount := Some 5000;
                        Invoices.up_description := None;
                        Invoices.up_date := None;
                        Invoices.up_due_date := None;
                        Invoices.up_status := None |} 0 (invoice100 I_paid);
          "i-3" := invoice100 I_pending ]};
     time_entries := ∅ |}.

(** ** Reading time entries *)

(** What the current-entry route reports. *)
Definition current_of (r : response TimeEntries.read_json)
  : option (option TimeEntries.current_view * bool) :=
  match res_body r with
  | Json (TimeEntries.J_current entry isClockedIn) => Some (entry, isClockedIn)
  | _ => None
  end.

(** The entries a listing of time entries carries. *)
Definition listed_entries (r : response TimeEntries.read_json)
  : list TimeEntries.entry_view :=
  match res_body r with
  | Json (TimeEntries.J_entries rows _) => rows
  | _ => []
  end.

(** The summary the today route reports. *)
Definition today_of (r : response TimeEntries.read_json)
  : option TimeEntries.today_summary :=
  match res_body r with
  | Json (TimeEntries.J_today summary) => Some summary
  | _ => None
  end.

(** The statistics the time statistics route reports. *)
Definition time_stats_of (r : response TimeEntries.time_json)
  : option TimeEntries.time_stats :=
  match res_body r with
  | Json (TimeEntries.J_stats _ st) => Some st
  | _ => None
  end.

(** A calendar date with a month from 1 to 12 and a day from 1 on. *)
Definition valid_date (d : date) : Prop :=
  1 ≤ d_month d ≤ 12 ∧ 1 ≤ d_day d.

(** An entry of the owner, closed after ninety minutes, and an open entry
    of somebody else. *)
Definition entry_closed : time_entry_row :=
  {| t_user_id := "u-owner"; t_clock_in := 1717200000000;
     t_clock_out := Some 1717205400000; t_date := Date 2024 6 1;
     t_created_at := 1717200000000; t_updated_at := 1717205400000 |}.

Definition entry_open_other : time_entry_row :=
  {| t_user_id := "u-other"; t_clock_in := 1717200000000;
     t_clock_out := None; t_date := Date 2024 6 1;
     t_created_at := 1717200000000; t_updated_at := 1717200000000 |}.

Definition db_entries : db :=
  {| users := ∅; projects := ∅; invoices := ∅;
     time_entries := {[ "t-1" := entry_closed; "t-9" := entry_open_other ]} |}.

Definition june_2024 : TimeEntries.list_query :=
  {| TimeEntries.q_limit := 10; TimeEntries.q_offset := 0;
     TimeEntries.q_date := None;
     TimeEntries.q_month :=
       Some {| TimeEntries.m_year := 2024; TimeEntries.m_month := 6 |} |}.

(** The row an accepted clock-in stores for the caller. *)
Definition clocked_in_entry (e : env) (caller : principal) : time_entry_row :=
  {| t_user_id := pr_id caller; t_clock_in := now e;
     t_clock_out := None; t_date := current_date e;
     t_created_at := now e; t_updated_at := now e |}.

(** What an accepted clock-out answers with. *)
Definition clocked_out (r : response TimeEntries.time_json)
  : option (uuid * time_entry_row * option string) :=
  match res_body r with
  | Json (TimeEntries.J_entry _ id entry duration) => Some (id, entry, duration)
  | _ => None
  end.

Definition db_clocked_in : db :=
  snd (TimeEntries.clock_in env1 owner1 empty_db).

(** The time an entry counts for at the instant of the request: up to its
    clock-out, and up to now while it is open. *)
Definition elapsed (e : env) (r : time_entry_row) : Z :=
  match t_clock_out r with
  | Some out => out - t_clock_in r
  | None => now e - t_clock_in r
  end.

Definition total_elapsed (e : env) (rows : list time_entry_row) : Z :=
  foldr (λ r acc, elapsed e r + acc) 0 rows.

(** The caller's entries of the current date. *)
Definition entries_of_today (e : env) (caller : principal) (s : db)
  : list time_entry_row :=
  snd <$> select_where (TimeEntries.today_filter e (pr_id caller))
            (time_entries s).

(** * Proofs *)

(** Unfolds a route down to the case analysis it performs on the store. *)
Ltac unfold_route :=
  unfold try_catch, check_validation, reject_if, res_json, query, query_page,
    exec, throw, mbind, handler_bind, mret, handler_ret in *;
  simpl in *.

Lemma alter_lookup_insert {A} (f : A → A) (k : uuid) (t : gmap uuid A) (r : A) :
  t !! k = Some r → update_by_id k f t = <[k := f r]> t.
Proof.
  intros Hk. apply map_eq. intros j. unfold update_by_id.
  rewrite lookup_alter, lookup_insert.
  destruct (decide (k = j)) as [->|]; [by rewrite Hk|done].
Qed.

(** *** The payment route *)

Lemma add_payment_cases e caller errors id b s :
  payment_result e id b s (Invoices.add_payment e caller errors id b s).
Proof.
  unfold Invoices.add_payment, Invoices.require_billing_access, Invoices.payment_steps.
  unfold_route.
  destruct (Auth.canAccessBilling (pr_roles caller)); simpl;
    [|by constructor].
  destruct (bool_decide (errors = [])); simpl; [|by constructor].
  destruct (invoices s !! id) as [inv|] eqn:Hinv; [|by constructor].
  destruct (bool_decide_reflect (i_status inv = I_cancelled)) as [Hc|Hc];
    simpl; [by constructor|].
  destruct (Invoices.pm_markAsPaid b) eqn:Hmode; simpl.
  - rewrite (alter_lookup_insert _ _ _ _ Hinv).
    by eapply payment_marked.
  - destruct (Z.ltb_spec (i_amount inv)
                (i_paid_amount inv + Invoices.pm_amount b)) as [Hgt|Hle]; simpl.
    + by constructor.
    + rewrite (alter_lookup_insert _ _ _ _ Hinv).
      by eapply payment_partial.
Qed.

Lemma add_payment_accepts rq s inv :
  well_formed rq →
  invoices s !! rq_id rq = Some inv →
  i_status inv ≠ I_cancelled →
  (Invoices.pm_markAsPaid (rq_body rq) = false →
   i_paid_amount inv + Invoices.pm_amount (rq_body rq) ≤ i_amount inv) →
  res_status (fst (run_payment rq s)) = 200
  ∧ snd (run_payment rq s) =
      set_invoices
        (<[rq_id rq :=
             if Invoices.pm_markAsPaid (rq_body rq)
             then Invoices.set_payment (i_amount inv) I_paid (now (rq_env rq)) inv
             else Invoices.set_payment
                    (i_paid_amount inv + Invoices.pm_amount (rq_body rq))
                    (if i_amount inv
                        <=? i_paid_amount inv + Invoices.pm_amount (rq_body rq)
                     then I_paid else I_pending)
                    (now (rq_env rq)) inv]> (invoices s)) s.
Proof.
  intros [Hacc Herr] Hinv Hc Hfit.
  unfold run_payment, Invoices.add_payment, Invoices.require_billing_access,
    Invoices.payment_steps.
  unfold_route. rewrite Hacc, Herr. simpl. rewrite Hinv. simpl.
  rewrite bool_decide_eq_false_2 by done. simpl.
  destruct (Invoices.pm_markAsPaid (rq_body rq)); simpl.
  - rewrite (alter_lookup_insert _ _ _ _ Hinv). done.
  - specialize (Hfit eq_refl).
    destruct (Z.ltb_spec (i_amount inv)
                (i_paid_amount inv + Invoices.pm_amount (rq_body rq)));
      [lia|]. simpl.
    rewrite (alter_lookup_insert _ _ _ _ Hinv). done.
Qed.

Lemma payment_keeps_bound rq s :
  paid_within_amount s → paid_within_amount (snd (run_payment rq s)).
Proof.
  intros Hs. unfold run_payment.
  pose proof (add_payment_cases (rq_env rq) (rq_caller rq) (rq_errors rq)
                (rq_id rq) (rq_body rq) s) as Hcases.
  inversion Hcases as [r Hr Heq|inv r Hinv Hc Hmode Hr Heq
                       |inv r Hinv Hc Hmode Hfit Hr Heq]; simpl.
  - done.
  - apply map_Forall_insert_2; [simpl; lia|done].
  - apply map_Forall_insert_2; [simpl; lia|done].
Qed.

Lemma apply_payments_keep_bound reqs s :
  paid_within_amount s → paid_within_amount (apply_payments reqs s).
Proof.
  revert s. induction reqs as [|rq reqs IH]; intros s Hs; simpl; [done|].
  apply IH. by apply payment_keeps_bound.
Qed.

Lemma exceeding_payment_rejected rq s :
  exceeds_balance s rq →
  ∃ r, run_payment rq s = (r, s) ∧ is_rejection r.
Proof.
  intros [Hpartial (inv & Hinv & Hover)]. unfold run_payment.
  pose proof (add_payment_cases (rq_env rq) (rq_caller rq) (rq_errors rq)
                (rq_id rq) (rq_body rq) s) as Hcases.
  inversion Hcases as [r Hr Heq|inv' r Hinv' Hc Hmode Hr Heq
                       |inv' r Hinv' Hc Hmode Hfit Hr Heq].
  - by exists r.
  - congruence.
  - rewrite Hinv in Hinv'. injection Hinv' as <-. lia.
Qed.

(** C1. Starting from a store in which no invoice is overpaid, after any
    sequence of requests to the payment route (partial payments and
    mark-as-paid, accepted or not) [paid_amount] is at most [amount] for
    every invoice; and a partial payment whose new total would exceed the
    amount is answered with a rejection that leaves the store as it was. *)
Theorem C1_paid_amount_never_exceeds_amount
    (reqs : list payment_request) (s : db) :
  paid_within_amount s →
  paid_within_amount (apply_payments reqs s)
  ∧ ∀ rq, exceeds_balance (apply_payments reqs s) rq →
          ∃ r, run_payment rq (apply_payments reqs s)
               = (r, apply_payments reqs s)
               ∧ is_rejection r.
Proof.
  intros Hs. split.
  - by apply apply_payments_keep_bound.
  - intros rq. apply exceeding_payment_rejected.
Qed.

Lemma C1_witness :
  paid_within_amount
    (apply_payments [partial_payment 4000] (db_invoice I_pending))
  ∧ ∃ r, run_payment (partial_payment 7000)
           (apply_payments [partial_payment 4000] (db_invoice I_pending))
         = (r, apply_payments [partial_payment 4000] (db_invoice I_pending))
         ∧ is_rejection r.
Proof.
  destruct (C1_paid_amount_never_exceeds_amount [partial_payment 4000]
              (db_invoice I_pending)) as [Hbound Hrejects].
  - apply map_Forall_singleton. simpl. lia.
  - split; [exact Hbound|]. apply Hrejects. split; [reflexivity|].
    exists (Invoices.set_payment 4000 I_pending (now env1)
              (invoice100 I_pending)).
    split; [vm_compute; reflexivity|simpl; lia].
Defined.

(** The scenario of the specification: on an invoice of 100.00, paying
    40.00 leaves it pending with 40.00 paid; 70.00 more is refused with the
    remaining 60.00 reported; 60.00 more settles it. *)
Example payment_scenario :
  let s1 := snd (run_payment (partial_payment 4000) (db_invoice I_pending)) in
  let r2 := fst (run_payment (partial_payment 7000) s1) in
  let s2 := snd (run_payment (partial_payment 7000) s1) in
  let s3 := snd (run_payment (partial_payment 6000) s2) in
  (i_paid_amount <$> invoices s1 !! "i-1" = Some 4000
   ∧ i_status <$> invoices s1 !! "i-1" = Some I_pending)
  ∧ (r2 = Response 400 (Error
       "Payment amount exceeds remaining balance. Remaining: $60.00")
     ∧ s2 = s1)
  ∧ (i_paid_amount <$> invoices s3 !! "i-1" = Some 10000
     ∧ i_status <$> invoices s3 !! "i-1" = Some I_paid).
Proof. vm_compute. done. Qed.

(** *** Status and paid amount *)

Lemma update_invoice_accepted e caller errors id u s :
  res_status (fst (Invoices.update_invoice e caller errors id u s)) = 200 →
  ∃ inv, invoices s !! id = Some inv
         ∧ snd (Invoices.update_invoice e caller errors id u s)
           = set_invoices
               (<[id := Invoices.apply_updates u (now e) inv]> (invoices s)) s.
Proof.
  unfold Invoices.update_invoice, Invoices.require_billing_access, Invoices.update_steps.
  unfold_route.
  destruct (Auth.canAccessBilling (pr_roles caller)); simpl; [|done].
  destruct (bool_decide (errors = [])); simpl; [|done].
  destruct (invoices s !! id) as [inv|] eqn:Hinv; simpl; [|done].
  destruct (Invoices.up_client_id u) as [cid|]; simpl.
  - destruct (users s !! cid) as [c|]; simpl; [|done].
    destruct (u_approved c); simpl; [|done].
    destruct (Invoices.up_project_id u) as [pid|]; simpl.
    + destruct (bool_decide (projects s !! pid = None)); simpl; [done|].
      destruct (Invoices.no_valid_fields u); simpl; [done|].
      intros _. exists inv. by rewrite (alter_lookup_insert _ _ _ _ Hinv).
    + destruct (Invoices.no_valid_fields u); simpl; [done|].
      intros _. exists inv. by rewrite (alter_lookup_insert _ _ _ _ Hinv).
  - destruct (Invoices.up_project_id u) as [pid|]; simpl.
    + destruct (bool_decide (projects s !! pid = None)); simpl; [done|].
      destruct (Invoices.no_valid_fields u); simpl; [done|].
      intros _. exists inv. by rewrite (alter_lookup_insert _ _ _ _ Hinv).
    + destruct (Invoices.no_valid_fields u); simpl; [done|].
      intros _. exists inv. by rewrite (alter_lookup_insert _ _ _ _ Hinv).
Qed.

(** The general update writes the submitted status and amount and keeps
    the paid amount. *)
Lemma update_invoice_overwrites e caller errors id u s :
  res_status (fst (Invoices.update_invoice e caller errors id u s)) = 200 →
  ∃ inv inv',
    invoices s !! id = Some inv
    ∧ invoices (snd (Invoices.update_invoice e caller errors id u s)) !! id
      = Some inv'
    ∧ i_status inv' = default (i_status inv) (Invoices.up_status u)
    ∧ i_amount inv' = default (i_amount inv) (Invoices.up_amount u)
    ∧ i_paid_amount inv' = i_paid_amount inv.
Proof.
  intros Hok. destruct (update_invoice_accepted _ _ _ _ _ _ Hok)
    as (inv & Hinv & ->).
  exists inv, (Invoices.apply_updates u (now e) inv). simpl.
  by rewrite lookup_insert_eq.
Qed.

Lemma payment_accepted_inv rq s :
  res_status (fst (run_payment rq s)) = 200 →
  ∃ inv paid st,
    invoices s !! rq_id rq = Some inv
    ∧ i_status inv ≠ I_cancelled
    ∧ paid ≤ i_amount inv
    ∧ (st = I_paid ∧ paid = i_amount inv ∨ st = I_pending ∧ paid < i_amount inv)
    ∧ (Invoices.pm_markAsPaid (rq_body rq) = false →
       paid = i_paid_amount inv + Invoices.pm_amount (rq_body rq))
    ∧ (Invoices.pm_markAsPaid (rq_body rq) = true →
       st = I_paid ∧ paid = i_amount inv)
    ∧ snd (run_payment rq s)
      = set_invoices
          (<[rq_id rq := Invoices.set_payment paid st (now (rq_env rq)) inv]>
             (invoices s)) s.
Proof.
  unfold run_payment. intros Hok.
  pose proof (add_payment_cases (rq_env rq) (rq_caller rq) (rq_errors rq)
                (rq_id rq) (rq_body rq) s) as Hcases.
  inversion Hcases as [r Hr Heq|inv r Hinv Hc Hmode Hr Heq
                       |inv r Hinv Hc Hmode Hfit Hr Heq];
    rewrite <- Heq in Hok; simpl in *.
  - unfold is_rejection in Hr. exfalso. lia.
  - exists inv, (i_amount inv), I_paid.
    split_and!; [done|done|lia|by left|congruence|done|done].
  - exists inv, (i_paid_amount inv + Invoices.pm_amount (rq_body rq)).
    destruct (Z.leb_spec (i_amount inv)
                (i_paid_amount inv + Invoices.pm_amount (rq_body rq))).
    + exists I_paid. split_and!; [done|done|done| |done|congruence|done].
      left. split; [done|lia].
    + exists I_pending.
      split_and!; [done|done|done|by right|done|congruence|done].
Qed.

(** C3 (as amended). For a request the payment route accepts: in
    mark-as-paid mode the invoice is stored as ['paid'] with [paid_amount]
    equal to [amount]; a partial payment whose new total stays below the
    amount is stored as ['pending'] with that total; and whenever the
    stored status is ['paid'] afterwards, the stored [paid_amount] equals
    the [amount], so that payments keep every store free of invoices that
    are ['paid'] with [paid_amount < amount]. (A partial payment whose
    total is the amount exactly is compared in floating point by the
    source and is left out.) The general update is outside this
    guarantee: when it is accepted it stores the submitted status and
    amount (the old ones where none is submitted) and leaves
    [paid_amount] as it was. *)
Theorem C3_paid_exactly_when_settled_by_payment
    (rq : payment_request) (s : db)
    (e : env) (caller : principal) (errors : list string) (id : uuid)
    (u : Invoices.update_body) (s2 : db) :
  res_status (fst (run_payment rq s)) = 200 →
  res_status (fst (Invoices.update_invoice e caller errors id u s2)) = 200 →
  ((∃ inv inv',
      invoices s !! rq_id rq = Some inv
      ∧ invoices (snd (run_payment rq s)) !! rq_id rq = Some inv'
      ∧ i_amount inv' = i_amount inv
      ∧ (Invoices.pm_markAsPaid (rq_body rq) = true →
         i_status inv' = I_paid ∧ i_paid_amount inv' = i_amount inv')
      ∧ (Invoices.pm_markAsPaid (rq_body rq) = false →
         i_paid_amount inv + Invoices.pm_amount (rq_body rq) < i_amount inv →
         i_status inv' = I_pending
         ∧ i_paid_amount inv'
           = i_paid_amount inv + Invoices.pm_amount (rq_body rq))
      ∧ (i_status inv' = I_paid → i_paid_amount inv' = i_amount inv'))
   ∧ (paid_means_settled s → paid_means_settled (snd (run_payment rq s))))
  ∧ ∃ inv inv',
      invoices s2 !! id = Some inv
      ∧ invoices (snd (Invoices.update_invoice e caller errors id u s2)) !! id
        = Some inv'
      ∧ i_status inv' = default (i_status inv) (Invoices.up_status u)
      ∧ i_amount inv' = default (i_amount inv) (Invoices.up_amount u)
      ∧ i_paid_amount inv' = i_paid_amount inv.
Proof.
  intros Hok Hupdated. split; [|by apply update_invoice_overwrites].
  destruct (payment_accepted_inv rq s Hok)
    as (inv & paid & st & Hinv & Hc & Hle & Hst & Hsum & Hmode & ->).
  split.
  - exists inv, (Invoices.set_payment paid st (now (rq_env rq)) inv). simpl.
    rewrite lookup_insert_eq. split_and!; [done|done|done| | |].
    + intros Hmark. destruct (Hmode Hmark) as [-> ->]. done.
    + intros Hpartial Hbelow. specialize (Hsum Hpartial).
      destruct Hst as [[-> ->]|[-> Hlt]]; [lia|done].
    + destruct Hst as [[-> ->]|[-> Hlt]]; [done|discriminate].
  - intros Hs. apply map_Forall_insert_2; [|done]. simpl.
    destruct Hst as [[-> ->]|[-> Hlt]]; [lia|done].
Qed.

Lemma C3_witness :
  ((∃ inv inv',
      invoices (db_invoice I_overdue) !! "i-1" = Some inv
      ∧ invoices (snd (run_payment (partial_payment 4000)
                         (db_invoice I_overdue))) !! "i-1" = Some inv'
      ∧ i_amount inv' = i_amount inv
      ∧ (Invoices.pm_markAsPaid (rq_body (partial_payment 4000)) = true →
         i_status inv' = I_paid ∧ i_paid_amount inv' = i_amount inv')
      ∧ (Invoices.pm_markAsPaid (rq_body (partial_payment 4000)) = false →
         i_paid_amount inv + 4000 < i_amount inv →
         i_status inv' = I_pending
         ∧ i_paid_amount inv' = i_paid_amount inv + 4000)
      ∧ (i_status inv' = I_paid → i_paid_amount inv' = i_amount inv'))
   ∧ (paid_means_settled (db_invoice I_overdue) →
      paid_means_settled (snd (run_payment (partial_payment 4000)
                                 (db_invoice I_overdue)))))
  ∧ ∃ inv inv',
      invoices (db_invoice I_pending) !! "i-1" = Some inv
      ∧ invoices (snd (Invoices.update_invoice env1 admin1 [] "i-1"
                         (status_only I_cancelled) (db_invoice I_pending)))
          !! "i-1"
        = Some inv'
      ∧ i_status inv' = default (i_status inv) (Some I_cancelled)
      ∧ i_amount inv' = default (i_amount inv) None
      ∧ i_paid_amount inv' = i_paid_amount inv.
Proof.
  apply (C3_paid_exactly_when_settled_by_payment (partial_payment 4000)
           (db_invoice I_overdue) env1 admin1 [] "i-1"
           (status_only I_cancelled) (db_invoice I_pending)).
  - vm_compute. reflexivity.
  - vm_compute. reflexivity.
Defined.

(** C3 (as stated) fails: a general update with body [{ status: 'paid' }]
    on an invoice of 100.00 with nothing paid is accepted and stores status
    ['paid'] next to [paid_amount = 0]. *)
Lemma C3_counterexample :
  paid_means_settled (db_invoice I_pending)
  ∧ res_status (fst (Invoices.update_invoice env1 admin1 [] "i-1"
                       (status_only I_paid) (db_invoice I_pending))) = 200
  ∧ ¬ paid_means_settled
        (snd (Invoices.update_invoice env1 admin1 [] "i-1"
                (status_only I_paid) (db_invoice I_pending))).
Proof.
  split; [|split].
  - apply map_Forall_singleton. done.
  - vm_compute. reflexivity.
  - intros Hs.
    assert (invoices (snd (Invoices.update_invoice env1 admin1 [] "i-1"
                             (status_only I_paid) (db_invoice I_pending)))
              !! "i-1"
            = Some (Invoices.apply_updates (status_only I_paid) (now env1)
                      (invoice100 I_pending))) as Hrow
      by (vm_compute; reflexivity).
    specialize (Hs _ _ Hrow eq_refl). simpl in Hs. lia.
Qed.

(** *** Mark as paid *)

(** C7 (as amended). A valid mark-as-paid request from a caller with
    billing access, on an invoice that is not cancelled, is accepted
    whatever the invoice has been paid so far and stores
    [paid_amount = amount] and status ['paid'], the amount being the one
    the invoice had; on a cancelled invoice it is refused with 400 and the
    store is left as it was. *)
Theorem C7_mark_as_paid_settles_uncancelled
    (rq : payment_request) (s : db) (inv : invoice_row) :
  well_formed rq →
  Invoices.pm_markAsPaid (rq_body rq) = true →
  invoices s !! rq_id rq = Some inv →
  (i_status inv ≠ I_cancelled →
   res_status (fst (run_payment rq s)) = 200
   ∧ stored_as_paid rq (snd (run_payment rq s))
   ∧ (i_amount <$> invoices (snd (run_payment rq s)) !! rq_id rq)
     = Some (i_amount inv))
  ∧ (i_status inv = I_cancelled →
     run_payment rq s
     = (Response 400 (Error "Cannot add payment to cancelled invoice"), s)).
Proof.
  intros Hwf Hmode Hinv. split.
  - intros Hc.
    destruct (add_payment_accepts rq s inv Hwf Hinv Hc) as [Hok ->];
      [congruence|].
    rewrite Hmode. split; [done|]. unfold stored_as_paid. simpl.
    rewrite lookup_insert_eq. split; [|done].
    by eexists.
  - intros Hc. destruct Hwf as [Hacc Herr].
    unfold run_payment, Invoices.add_payment, Invoices.require_billing_access,
      Invoices.payment_steps.
    unfold_route. rewrite Hacc, Herr. simpl. rewrite Hinv. simpl.
    by rewrite bool_decide_eq_true_2.
Qed.

Lemma C7_witness :
  res_status (fst (run_payment mark_as_paid
                     (snd (run_payment (partial_payment 4000)
                             (db_invoice I_overdue))))) = 200
  ∧ stored_as_paid mark_as_paid
      (snd (run_payment mark_as_paid
              (snd (run_payment (partial_payment 4000)
                      (db_invoice I_overdue)))))
  ∧ (i_amount <$>
       invoices (snd (run_payment mark_as_paid
                        (snd (run_payment (partial_payment 4000)
                                (db_invoice I_overdue))))) !! "i-1")
    = Some 10000.
Proof.
  apply (C7_mark_as_paid_settles_uncancelled mark_as_paid
           (snd (run_payment (partial_payment 4000) (db_invoice I_overdue)))
           (Invoices.set_payment 4000 I_pending (now env1)
              (invoice100 I_overdue))).
  - split; vm_compute; reflexivity.
  - reflexivity.
  - vm_compute. reflexivity.
  - simpl. discriminate.
Defined.

(** C7 (as stated) fails on a cancelled invoice: the mark-as-paid request is
    answered 400 and the invoice stays cancelled with nothing paid. *)
Lemma C7_counterexample :
  fst (run_payment mark_as_paid (db_invoice I_cancelled))
  = Response 400 (Error "Cannot add payment to cancelled invoice")
  ∧ ¬ stored_as_paid mark_as_paid
        (snd (run_payment mark_as_paid (db_invoice I_cancelled))).
Proof.
  split; [vm_compute; reflexivity|].
  intros (inv & Hinv & Hpaid & Hst).
  vm_compute in Hinv. injection Hinv as <-. discriminate Hst.
Qed.

(** *** Partial payments and the overdue flag *)

(** C10. For every invoice that is not cancelled, a valid partial payment
    from a caller with billing access whose new total stays strictly below
    the amount is accepted and stores status ['pending'] with the new
    total, whatever the status was before, ['overdue'] included. *)
Theorem C10_partial_payment_resets_status_to_pending
    (rq : payment_request) (s : db) (inv : invoice_row) :
  well_formed rq →
  Invoices.pm_markAsPaid (rq_body rq) = false →
  invoices s !! rq_id rq = Some inv →
  i_status inv ≠ I_cancelled →
  i_paid_amount inv + Invoices.pm_amount (rq_body rq) < i_amount inv →
  res_status (fst (run_payment rq s)) = 200
  ∧ ∃ inv', invoices (snd (run_payment rq s)) !! rq_id rq = Some inv'
            ∧ i_status inv' = I_pending
            ∧ i_paid_amount inv'
              = i_paid_amount inv + Invoices.pm_amount (rq_body rq).
Proof.
  intros Hwf Hmode Hinv Hc Hlt.
  destruct (add_payment_accepts rq s inv Hwf Hinv Hc) as [Hok ->]; [lia|].
  rewrite Hmode. split; [done|]. simpl. rewrite lookup_insert_eq.
  eexists. split; [done|]. simpl.
  destruct (Z.leb_spec (i_amount inv)
              (i_paid_amount inv + Invoices.pm_amount (rq_body rq)));
    [lia|done].
Qed.

Lemma C10_witness :
  res_status (fst (run_payment (partial_payment 4000)
                     (db_invoice I_overdue))) = 200
  ∧ ∃ inv', invoices (snd (run_payment (partial_payment 4000)
                             (db_invoice I_overdue))) !! "i-1" = Some inv'
            ∧ i_status inv' = I_pending
            ∧ i_paid_amount inv' = 0 + 4000.
Proof.
  apply (C10_partial_payment_resets_status_to_pending
           (partial_payment 4000) (db_invoice I_overdue)
           (invoice100 I_overdue)).
  - split; vm_compute; reflexivity.
  - reflexivity.
  - vm_compute. reflexivity.
  - simpl. discriminate.
  - simpl. lia.
Defined.

(** *** Queries *)

Lemma elem_of_select_where {A} (P : uuid * A → bool) (t : gmap uuid A) kr :
  kr ∈ select_where P t ↔ P kr = true ∧ t !! kr.1 = Some kr.2.
Proof.
  unfold select_where. rewrite list_elem_of_filter.
  destruct kr as [k r]. by rewrite elem_of_map_to_list.
Qed.

Lemma select_where_nil {A} (P : uuid * A → bool) (t : gmap uuid A) :
  select_where P t = [] ↔ ∀ k r, t !! k = Some r → P (k, r) = false.
Proof.
  split.
  - intros Hnil k r Hk. destruct (P (k, r)) eqn:HP; [|done].
    assert ((k, r) ∈ select_where P t) as Hin
      by by apply elem_of_select_where.
    rewrite Hnil in Hin. by apply elem_of_nil in Hin.
  - intros Hnone. destruct (select_where P t) as [|[k r] l] eqn:Hsel; [done|].
    assert ((k, r) ∈ select_where P t) as Hin
      by (rewrite Hsel; apply list_elem_of_here).
    apply elem_of_select_where in Hin as [HP Hk]. simpl in *.
    rewrite (Hnone k r Hk) in HP. done.
Qed.

Lemma elem_of_page {A} (key : A → Z) (n m : Z) (l : list (uuid * A)) x :
  x ∈ limit_offset n m (order_by_desc key l) → x ∈ l.
Proof.
  unfold limit_offset, order_by_desc. intros Hx.
  apply subseteq_take, subseteq_drop in Hx.
  by rewrite merge_sort_Permutation in Hx.
Qed.

Lemma lookup_update_where {A} (P : uuid → A → bool) (f : A → A)
    (t : gmap uuid A) k :
  update_where P f t !! k = (λ r, if P k r then f r else r) <$> t !! k.
Proof.
  unfold update_where. rewrite map_lookup_imap. by destruct (t !! k).
Qed.

(** *** The listing route *)

Section ListingProofs.
Variable ilike : string → string → bool.




End ListingProofs.



(** *** Invoice numbers *)




Lemma digits_value_zeros (k : nat) (s : string) :
  digits_value (repeat_string k "0"%char +:+ s) = digits_value s.
Proof.
  induction k as [|k IH]; simpl; [done|].
  rewrite <- IH. unfold digits_value. simpl.
  destruct (NilEmpty.uint_of_string (repeat_string k "0"%char +:+ s)) as [d|];
    reflexivity.
Qed.

Lemma digits_value_String_of (n : Z) :
  0 ≤ n → digits_value (String_of n) = Some n.
Proof.
  intros Hn. destruct n as [|p|p]; [done| |lia].
  unfold String_of, digits_value. simpl.
  assert (NilZero.string_of_uint (Pos.to_uint p)
          = NilEmpty.string_of_uint (Pos.to_uint p)) as ->.
  { pose proof (DecimalPos.Unsigned.to_uint_nonnil p).
    by destruct (Pos.to_uint p). }
  rewrite NilEmpty.usu. simpl. unfold Z.of_uint.
  by rewrite DecimalPos.Unsigned.of_to.
Qed.

Lemma digits_value_padStart (w : nat) (n : Z) :
  0 ≤ n → digits_value (padStart w "0"%char (String_of n)) = Some n.
Proof.
  intros Hn. unfold padStart.
  by rewrite digits_value_zeros, digits_value_String_of.
Qed.

Lemma count_in_year_nonneg year t : 0 ≤ Invoices.count_in_year year t.
Proof. unfold Invoices.count_in_year. lia. Qed.

Lemma count_in_year_none year (t : gmap uuid invoice_row) :
  map_Forall (λ _ inv, extract_year (i_date inv) ≠ year) t →
  Invoices.count_in_year year t = 0.
Proof.
  intros Hnone. unfold Invoices.count_in_year.
  replace (select_where _ t) with (@nil (uuid * invoice_row)); [done|].
  symmetry. apply select_where_nil. intros k r Hk. simpl.
  apply bool_decide_eq_false_2. by apply (Hnone k r).
Qed.

Lemma count_in_year_insert year k r (t : gmap uuid invoice_row) :
  t !! k = None →
  Invoices.count_in_year year (<[k := r]> t)
  = (if bool_decide (invoice_year r = year) then 1 else 0)
    + Invoices.count_in_year year t.
Proof.
  intros Hk. unfold Invoices.count_in_year, select_where.
  rewrite (map_to_list_insert t k r Hk), filter_cons.
  unfold invoice_year. simpl.
  destruct (bool_decide (extract_year (i_date r) = year));
    case_decide; try done; simpl; lia.
Qed.

(** The count only depends on the dates stored under each key. *)
Lemma count_in_year_ext year (t t' : gmap uuid invoice_row) :
  (∀ k, i_date <$> t' !! k = i_date <$> t !! k) →
  Invoices.count_in_year year t' = Invoices.count_in_year year t.
Proof.
  revert t'. induction t as [|k r m Hk IH] using map_ind; intros t' Hsame.
  - replace t' with (∅ : gmap uuid invoice_row); [done|].
    symmetry. apply map_empty. intros k. specialize (Hsame k).
    rewrite lookup_empty in Hsame. by destruct (t' !! k).
  - pose proof (Hsame k) as Hat. rewrite lookup_insert_eq in Hat.
    destruct (t' !! k) as [r'|] eqn:Hk'; [|done].
    injection Hat as Hdate.
    rewrite <- (insert_delete_id t' k r' Hk').
    rewrite !count_in_year_insert by (done || apply lookup_delete_eq).
    unfold invoice_year. rewrite Hdate. f_equal. apply IH. intros j.
    destruct (decide (k = j)) as [<-|Hne].
    + by rewrite lookup_delete_eq, Hk.
    + rewrite lookup_delete_ne by done. rewrite Hsame.
      by rewrite lookup_insert_ne.
Qed.


(** Where local time is not behind UTC, the JavaScript year of a date is
    its calendar year. *)
Lemma getFullYear_not_behind e d :
  timezone_offset e d ≤ 0 → getFullYear e d = d_year d.
Proof.
  intros Hzone. unfold getFullYear.
  by rewrite (proj2 (Z.ltb_ge 0 (timezone_offset e d)) Hzone).
Qed.

Lemma create_invoice_created e caller errors b s :
  res_status (fst (Invoices.create_invoice e caller errors b s)) = 201 →
  invoices s !! fresh_id e = None
  ∧ ∃ inv,
      snd (Invoices.create_invoice e caller errors b s)
      = set_invoices (<[fresh_id e := inv]> (invoices s)) s
      ∧ i_number inv
        = Invoices.invoice_number (getFullYear e (Invoices.c_date b))
            (Invoices.count_in_year (getFullYear e (Invoices.c_date b))
               (invoices s))
      ∧ i_date inv = Invoices.c_date b
      ∧ i_status inv = I_pending
      ∧ i_paid_amount inv = 0.
Proof.
  unfold Invoices.create_invoice, Invoices.require_billing_access,
    Invoices.create_body_steps, insert_row.
  unfold_route.
  destruct (Auth.canAccessBilling (pr_roles caller)); simpl; [|done].
  destruct (bool_decide (errors = [])); simpl; [|done].
  destruct (users s !! Invoices.c_client_id b) as [client|]; simpl; [|done].
  destruct (u_approved client); simpl; [|done].
  destruct (Invoices.c_project_id b) as [pid|]; simpl.
  - destruct (bool_decide (projects s !! pid = None)); simpl; [done|].
    destruct (date_ltb (Invoices.c_due_date b) (Invoices.c_date b)); simpl;
      [done|].
    destruct (invoices s !! fresh_id e) eqn:Hfresh; simpl; [done|].
    intros _. split; [done|]. eexists. split; [done|]. done.
  - destruct (date_ltb (Invoices.c_due_date b) (Invoices.c_date b)); simpl;
      [done|].
    destruct (invoices s !! fresh_id e) eqn:Hfresh; simpl; [done|].
    intros _. split; [done|]. eexists. split; [done|]. done.
Qed.

(** A valid request for an approved client, with an existing project when
    one is named, dates in order and a key the table does not hold yet, is
    answered 201. *)
Lemma create_invoice_accepts e caller b s client :
  Auth.canAccessBilling (pr_roles caller) = true →
  users s !! Invoices.c_client_id b = Some client →
  u_approved client = true →
  (∀ pid, Invoices.c_project_id b = Some pid → is_Some (projects s !! pid)) →
  date_ltb (Invoices.c_due_date b) (Invoices.c_date b) = false →
  invoices s !! fresh_id e = None →
  res_status (fst (Invoices.create_invoice e caller [] b s)) = 201.
Proof.
  intros Hacc Hclient Happroved Hproject Hdates Hfresh.
  unfold Invoices.create_invoice, Invoices.require_billing_access,
    Invoices.create_body_steps, insert_row.
  unfold_route. rewrite Hacc. simpl. rewrite Hclient. simpl.
  rewrite Happroved. simpl.
  destruct (Invoices.c_project_id b) as [pid|]; simpl.
  - destruct (Hproject pid eq_refl) as [p Hp]. rewrite Hp. simpl.
    rewrite Hdates. simpl. by rewrite Hfresh.
  - rewrite Hdates. simpl. by rewrite Hfresh.
Qed.



(** With one invoice dated 2024 in the table, the next invoice dated 2024
    is numbered 20240002 and the first one dated 2025 is numbered
    20250001. *)
Example invoice_numbers :
  (i_number <$>
     invoices (snd (Invoices.create_invoice env1 admin1 [] create_march
                      (db_invoice I_pending))) !! "i-2")
  = Some "20240002"
  ∧ (i_number <$>
       invoices (snd (Invoices.create_invoice env1 admin1 []
                        {| Invoices.c_client_id := "u-client";
                           Invoices.c_project_id := None;
                           Invoices.c_amount := 100;
                           Invoices.c_description := None;
                           Invoices.c_date := Date 2025 1 2;
                           Invoices.c_due_date := Date 2025 1 2 |}
                        (db_invoice I_pending))) !! "i-2")
    = Some "20250001".
Proof. vm_compute. done. Qed.

(** On a server whose local time is behind UTC, [getFullYear] of
    2025-01-01 is 2024: with one invoice dated 2024 in the table, an
    invoice dated 2025-01-01 is numbered 20240002, and so is the next
    one, since neither is counted among the invoices of 2024. *)
Example new_year_behind_utc :
  let s1 := snd (Invoices.create_invoice (env_behind_utc "i-2") admin1 []
                   create_new_year (db_invoice I_pending)) in
  let s2 := snd (Invoices.create_invoice (env_behind_utc "i-3") admin1 []
                   create_new_year s1) in
  i_number <$> invoices s2 !! "i-2" = Some "20240002"
  ∧ i_number <$> invoices s2 !! "i-3" = Some "20240002"
  ∧ i_date <$> invoices s2 !! "i-3" = Some (Date 2025 1 1).
Proof. vm_compute. done. Qed.

(** *** Project dates *)

(** The create route refuses an end date that precedes the start date and
    stores nothing. *)
Lemma create_project_rejects_end_before_start e caller errors b s d :
  Projects.c_end_date b = Some d →
  date_ltb d (Projects.c_start_date b) = true →
  is_rejection (fst (Projects.create_project e caller errors b s))
  ∧ snd (Projects.create_project e caller errors b s) = s.
Proof.
  intros Hend Hlt.
  unfold Projects.create_project, Projects.create_steps, is_rejection.
  unfold_route. unfold Projects.ends_before_start. rewrite Hend, Hlt.
  destruct (bool_decide (errors = [])); simpl; [|done].
  destruct (Auth.canAccessProjects (pr_roles caller)); simpl; done.
Qed.

(** Whatever the create route stores ends on or after its start. *)
Lemma create_project_keeps_dates_ordered e caller errors b s :
  ends_after_start s →
  ends_after_start (snd (Projects.create_project e caller errors b s)).
Proof.
  intros Hs.
  unfold Projects.create_project, Projects.create_steps, insert_row.
  unfold_route.
  destruct (bool_decide (errors = [])); simpl; [|done].
  destruct (Auth.canAccessProjects (pr_roles caller)); simpl; [|done].
  destruct (Projects.ends_before_start (Projects.c_end_date b)
              (Projects.c_start_date b)) eqn:Hdates; simpl; [done|].
  destruct (negb (Auth.isPrivileged (pr_roles caller))
            && Projects.end_without_completed (Projects.c_end_date b)
                 (Some (default P_pending (Projects.c_status b))));
    simpl; [done|].
  destruct (projects s !! fresh_id e) eqn:Hfresh; simpl; [done|].
  apply map_Forall_insert_2; [|done]. simpl. intros d Hd.
  unfold Projects.ends_before_start in Hdates. by rewrite Hd in Hdates.
Qed.

(** C2, where the code departs from it. The update route has no date
    check: on a project starting 2024-01-10, an administrator's update
    with body [{ end_date: '2024-01-05' }], and the owner's update with
    body [{ end_date: '2024-01-05', status: 'completed' }], are both
    answered 200 and leave a stored project whose end date precedes its
    start date. *)
Theorem C2_update_stores_end_before_start :
  ends_after_start (db_project P_ongoing)
  ∧ (res_status (fst (Projects.update_project env1 admin1 [] "p-1"
                        (end_on_jan5 None) (db_project P_ongoing))) = 200
     ∧ ¬ ends_after_start
           (snd (Projects.update_project env1 admin1 [] "p-1"
                   (end_on_jan5 None) (db_project P_ongoing))))
  ∧ (res_status (fst (Projects.update_project env1 owner1 [] "p-1"
                        (end_on_jan5 (Some P_completed))
                        (db_project P_ongoing))) = 200
     ∧ ¬ ends_after_start
           (snd (Projects.update_project env1 owner1 [] "p-1"
                   (end_on_jan5 (Some P_completed)) (db_project P_ongoing)))).
Proof.
  split_and!.
  - apply map_Forall_singleton. done.
  - vm_compute. reflexivity.
  - intros Hs.
    assert (projects (snd (Projects.update_project env1 admin1 [] "p-1"
                             (end_on_jan5 None) (db_project P_ongoing)))
              !! "p-1"
            = Some (Projects.apply_updates (end_on_jan5 None) (now env1)
                      (project1 P_ongoing))) as Hrow
      by (vm_compute; reflexivity).
    specialize (Hs _ _ Hrow (Date 2024 1 5) eq_refl). discriminate Hs.
  - vm_compute. reflexivity.
  - intros Hs.
    assert (projects (snd (Projects.update_project env1 owner1 [] "p-1"
                             (end_on_jan5 (Some P_completed))
                             (db_project P_ongoing)))
              !! "p-1"
            = Some (Projects.apply_updates (end_on_jan5 (Some P_completed))
                      (now env1) (project1 P_ongoing))) as Hrow
      by (vm_compute; reflexivity).
    specialize (Hs _ _ Hrow (Date 2024 1 5) eq_refl). discriminate Hs.
Qed.

(** *** Completing a completed project *)

(** C6 (as amended). Completing a project whose status is already
    ['completed'], by a caller allowed to complete it, is refused with
    status 400 and the message "Project is already completed", and the
    store is left as it was. A request that fails field validation is
    refused with the same status 400 and the message "Validation failed":
    the two are told apart by their message, not by their status. *)
Theorem C6_already_completed_is_refused_with_400
    (e : env) (caller : principal) (id : uuid) (s : db)
    (project : project_row) :
  Auth.canAccessProjects (pr_roles caller) = true →
  projects s !! id = Some project →
  Projects.owner_or_privileged caller project = true →
  p_status project = P_completed →
  Projects.complete_project e caller [] id s
  = (Response 400 (Error "Project is already completed"), s)
  ∧ ∀ details, details ≠ [] →
      Projects.complete_project e caller details id s
      = (Response 400 (ErrorDetails "Validation failed" details), s).
Proof.
  intros Hacc Hproject Hown Hst.
  unfold Projects.complete_project, Projects.complete_steps.
  unfold_route. split.
  - rewrite Hacc. simpl. rewrite Hproject. simpl. rewrite Hown. simpl.
    by rewrite bool_decide_eq_true_2.
  - intros details Hdetails. by rewrite bool_decide_eq_false_2.
Qed.

Lemma C6_witness :
  Projects.complete_project env1 owner1 [] "p-1" (db_project P_completed)
  = (Response 400 (Error "Project is already completed"),
     db_project P_completed)
  ∧ ∀ details, details ≠ [] →
      Projects.complete_project env1 owner1 details "p-1"
        (db_project P_completed)
      = (Response 400 (ErrorDetails "Validation failed" details),
         db_project P_completed).
Proof.
  apply (C6_already_completed_is_refused_with_400 env1 owner1 "p-1"
           (db_project P_completed) (project1 P_completed)).
  - vm_compute. reflexivity.
  - vm_compute. reflexivity.
  - vm_compute. reflexivity.
  - reflexivity.
Defined.

(** C6 (as stated) fails: the response to completing a completed project
    and the response to a request with an invalid id carry the same status
    code, 400. *)
Lemma C6_counterexample :
  ¬ distinct_kind
      (fst (Projects.complete_project env1 owner1 [] "p-1"
              (db_project P_completed)))
      (fst (Projects.complete_project env1 owner1 ["Invalid project ID"]
              "not-a-uuid" (db_project P_completed))).
Proof. intros Hdistinct. apply Hdistinct. vm_compute. reflexivity. Qed.

(** *** Statistics over no rows *)

Lemma completion_rate_of_nothing completed :
  js_or (parseFloat (Projects.completion_rate completed 0)) (Num 0) = Num 0.
Proof. reflexivity. Qed.

(** The completion rate is a number whatever the counts are. *)
Lemma completion_rate_is_a_number completed total :
  js_or (parseFloat (Projects.completion_rate completed total)) (Num 0) ≠ NaN.
Proof.
  unfold Projects.completion_rate, nullif0.
  destruct (total =? 0); simpl; [done|].
  by destruct (round_div (completed * 100 * 100) total =? 0).
Qed.

(** C9. When a caller with a project role has no project in scope, the
    project statistics are answered 200 with every count 0 and a
    completion rate of 0; when none of a caller's time entries falls in
    the period, whatever the caller's roles and projects, the time
    statistics are answered 200 with every count 0, total hours "0.00"
    and an average of 0. Neither is an error or carries [NaN]; with a
    total of 0 the completion rate is 0 whatever the completed count. *)
Theorem C9_statistics_over_no_rows_are_zero
    (date_minus : date → TimeEntries.interval → date)
    (e : env) (caller : principal) (p : TimeEntries.period) (s : db) :
  (Auth.canAccessProjects (pr_roles caller) = true →
   (∀ k r, projects s !! k = Some r →
           Projects.stats_scope caller (k, r) = false) →
   Projects.stats_overview caller s
   = (Response 200 (Json (Projects.J_stats zero_project_stats)), s))
  ∧ ((∀ k r, time_entries s !! k = Some r →
             TimeEntries.stats_filter date_minus e (pr_id caller) p (k, r)
             = false) →
     TimeEntries.stats date_minus e caller p s
     = (Response 200
          (Json (TimeEntries.J_stats (TimeEntries.periodName p)
                   zero_time_stats)), s))
  ∧ ∀ completed,
      js_or (parseFloat (Projects.completion_rate completed 0)) (Num 0)
      = Num 0.
Proof.
  split_and!.
  - intros Hacc Hprojects. apply select_where_nil in Hprojects.
    unfold Projects.stats_overview, Projects.stats_steps.
    unfold_route. rewrite Hacc. simpl. by rewrite Hprojects.
  - intros Hentries. apply select_where_nil in Hentries.
    unfold TimeEntries.stats, TimeEntries.stats_steps.
    unfold_route. by rewrite Hentries.
  - apply completion_rate_of_nothing.
Qed.

Lemma C9_witness :
  Projects.stats_overview owner1 empty_db
  = (Response 200 (Json (Projects.J_stats zero_project_stats)), empty_db)
  ∧ TimeEntries.stats date_minus_stub env1 staff1 TimeEntries.Week
      (db_project P_ongoing)
    = (Response 200
         (Json (TimeEntries.J_stats "This Week" zero_time_stats)),
       db_project P_ongoing)
  ∧ ∀ completed,
      js_or (parseFloat (Projects.completion_rate completed 0)) (Num 0)
      = Num 0.
Proof.
  split_and!.
  - apply (C9_statistics_over_no_rows_are_zero date_minus_stub env1 owner1
             TimeEntries.Week empty_db).
    + vm_compute. reflexivity.
    + intros k r Hk. vm_compute in Hk. discriminate Hk.
  - apply (C9_statistics_over_no_rows_are_zero date_minus_stub env1 staff1
             TimeEntries.Week (db_project P_ongoing)).
    intros k r Hk. vm_compute in Hk. discriminate Hk.
  - apply (C9_statistics_over_no_rows_are_zero date_minus_stub env1 owner1
             TimeEntries.Week empty_db).
Defined.

(** *** Time entries: one open entry per user *)

Lemma open_entry_of_true uid k (r : time_entry_row) :
  TimeEntries.open_entry_of uid (k, r) = true
  ↔ t_user_id r = uid ∧ t_clock_out r = None.
Proof.
  unfold TimeEntries.open_entry_of, TimeEntries.is_open. simpl.
  rewrite andb_true_iff, !bool_decide_eq_true. done.
Qed.

Lemma no_open_rows_iff s uid :
  select_where (TimeEntries.open_entry_of uid) (time_entries s) = []
  ↔ ¬ has_open_entry s uid.
Proof.
  rewrite select_where_nil. split.
  - intros Hnone (k & r & Hk & Hu & Ho).
    specialize (Hnone k r Hk).
    assert (TimeEntries.open_entry_of uid (k, r) = true) as Ht
      by by apply open_entry_of_true.
    congruence.
  - intros Hnone k r Hk.
    destruct (TimeEntries.open_entry_of uid (k, r)) eqn:Hopen; [|done].
    apply open_entry_of_true in Hopen as [Hu Ho].
    destruct Hnone. by exists k, r.
Qed.

Lemma page_nil_iff {A} (key : A → Z) (l : list (uuid * A)) :
  limit_offset 1 0 (order_by_desc key l) = [] ↔ l = [].
Proof.
  unfold limit_offset, order_by_desc. simpl.
  pose proof (merge_sort_Permutation (newer_first key) l) as Hperm.
  destruct (merge_sort (newer_first key) l) as [|x l'] eqn:Hsorted; simpl.
  - apply Permutation_nil_l in Hperm. by rewrite Hperm.
  - split; [done|]. intros ->. by apply Permutation_nil_r in Hperm.
Qed.

(** A table whose open entries all were open entries of the same user
    under the same key keeps the bound. *)
Lemma open_entries_shrink s s' :
  (∀ k r', time_entries s' !! k = Some r' → t_clock_out r' = None →
           ∃ r, time_entries s !! k = Some r
                ∧ t_user_id r = t_user_id r' ∧ t_clock_out r = None) →
  one_open_entry_per_user s → one_open_entry_per_user s'.
Proof.
  intros Hshrink Hs k1 k2 r1 r2 H1 H2 Hu Ho1 Ho2.
  destruct (Hshrink k1 r1 H1 Ho1) as (q1 & Hq1 & Hu1 & Hc1).
  destruct (Hshrink k2 r2 H2 Ho2) as (q2 & Hq2 & Hu2 & Hc2).
  apply (Hs k1 k2 q1 q2); congruence.
Qed.

Lemma clock_in_cases e caller s :
  (has_open_entry s (pr_id caller)
   ∧ TimeEntries.clock_in e caller s = (already_clocked_in, s))
  ∨ (¬ has_open_entry s (pr_id caller)
     ∧ is_Some (time_entries s !! fresh_id e)
     ∧ TimeEntries.clock_in e caller s
       = (Response 500 (Error "Failed to clock in"), s))
  ∨ (¬ has_open_entry s (pr_id caller)
     ∧ time_entries s !! fresh_id e = None
     ∧ ∃ r new,
         TimeEntries.clock_in e caller s
         = (r, set_time_entries (<[fresh_id e := new]> (time_entries s)) s)
         ∧ res_status r = 201
         ∧ t_user_id new = pr_id caller).
Proof.
  unfold TimeEntries.clock_in, TimeEntries.clock_in_steps, insert_row.
  unfold_route.
  destruct (select_where (TimeEntries.open_entry_of (pr_id caller))
              (time_entries s)) as [|x l] eqn:Hsel; simpl.
  - apply no_open_rows_iff in Hsel. right.
    destruct (time_entries s !! fresh_id e) eqn:Hfresh; simpl.
    + left. by split_and!.
    + right. split_and!; [done|done|]. by eexists _, _.
  - left. split; [|done].
    destruct (decide (has_open_entry s (pr_id caller))) as [|Hno]; [done|].
    apply no_open_rows_iff in Hno. congruence.
Qed.

Lemma clock_out_cases e caller s :
  (¬ has_open_entry s (pr_id caller)
   ∧ TimeEntries.clock_out e caller s = (not_clocked_in, s))
  ∨ (has_open_entry s (pr_id caller)
     ∧ ∃ r k entry,
         time_entries s !! k = Some entry
         ∧ t_user_id entry = pr_id caller ∧ t_clock_out entry = None
         ∧ TimeEntries.clock_out e caller s
           = (r, set_time_entries
                   (<[k := TimeEntries.close_entry e entry]> (time_entries s))
                   s)
         ∧ res_status r = 200).
Proof.
  unfold TimeEntries.clock_out, TimeEntries.clock_out_steps.
  unfold_route.
  destruct (limit_offset 1 0
              (order_by_desc t_created_at
                 (select_where (TimeEntries.open_entry_of (pr_id caller))
                    (time_entries s)))) as [|[k entry] l] eqn:Hpage; simpl.
  - left. split; [|done].
    by apply no_open_rows_iff, (page_nil_iff t_created_at).
  - assert ((k, entry) ∈ select_where
              (TimeEntries.open_entry_of (pr_id caller)) (time_entries s))
      as Hin.
    { apply (elem_of_page t_created_at 1 0). rewrite Hpage.
      apply list_elem_of_here. }
    apply elem_of_select_where in Hin as [Hopen Hk]. simpl in Hk.
    apply open_entry_of_true in Hopen as [Hu Ho].
    right. split; [by exists k, entry|].
    rewrite (alter_lookup_insert _ _ _ _ Hk).
    eexists _, k, entry. split_and!; [done|done|done|reflexivity|done].
Qed.

Lemma delete_entry_cases caller errors id s :
  snd (TimeEntries.delete_entry caller errors id s) = s
  ∨ snd (TimeEntries.delete_entry caller errors id s)
    = set_time_entries (delete id (time_entries s)) s.
Proof.
  unfold TimeEntries.delete_entry, TimeEntries.delete_steps.
  unfold_route.
  destruct (bool_decide (errors = [])); simpl; [|by left].
  destruct (time_entries s !! id) as [entry|]; simpl; [|by left].
  case_guard; simpl; [|by left].
  destruct (TimeEntries.is_open entry); simpl; [by left|by right].
Qed.

Lemma time_request_keeps_bound rq s :
  one_open_entry_per_user s →
  one_open_entry_per_user (snd (run_time_request rq s)).
Proof.
  intros Hs. destruct rq as [e caller|e caller|caller errors id]; simpl.
  - destruct (clock_in_cases e caller s)
      as [[_ ->]|[(_ & _ & ->)|(Hnone & Hfresh & r & new & -> & _ & Hu)]];
      [done|done|]. simpl.
    intros k1 k2 r1 r2. simpl.
    rewrite !lookup_insert_Some.
    intros [[<- <-]|[Hk1 H1]] [[<- <-]|[Hk2 H2]] Huser Ho1 Ho2.
    + done.
    + destruct Hnone. exists k2, r2. split_and!; [done|congruence|done].
    + destruct Hnone. exists k1, r1. split_and!; [done|congruence|done].
    + by apply (Hs k1 k2 r1 r2).
  - destruct (clock_out_cases e caller s)
      as [[_ ->]|(_ & r & k & entry & Hk & _ & _ & -> & _)]; [done|]. simpl.
    apply (open_entries_shrink s); [|done]. simpl. intros j r' Hj Ho.
    apply lookup_insert_Some in Hj as [[<- <-]|[Hne Hj]]; [done|].
    by exists r'.
  - destruct (delete_entry_cases caller errors id s) as [->| ->]; [done|].
    apply (open_entries_shrink s); [|done]. simpl. intros j r' Hj Ho.
    apply lookup_delete_Some in Hj as [_ Hj]. by exists r'.
Qed.

Lemma time_requests_keep_bound reqs s :
  one_open_entry_per_user s →
  one_open_entry_per_user (apply_time_requests reqs s).
Proof.
  revert s. induction reqs as [|rq reqs IH]; intros s Hs; simpl; [done|].
  apply IH. by apply time_request_keeps_bound.
Qed.

Lemma clock_in_rejected_iff e caller s :
  fst (TimeEntries.clock_in e caller s) = already_clocked_in
  ↔ has_open_entry s (pr_id caller).
Proof.
  destruct (clock_in_cases e caller s)
    as [[Hopen ->]|[(Hnone & _ & ->)|(Hnone & _ & r & new & -> & Hr & _)]];
    simpl.
  - done.
  - split; [discriminate|done].
  - split; [|done]. intros ->. discriminate Hr.
Qed.

Lemma clock_out_rejected_iff e caller s :
  fst (TimeEntries.clock_out e caller s) = not_clocked_in
  ↔ ¬ has_open_entry s (pr_id caller).
Proof.
  destruct (clock_out_cases e caller s)
    as [[Hnone ->]|(Hopen & r & k & entry & _ & _ & _ & -> & Hr)]; simpl.
  - done.
  - split; [|done]. intros ->. discriminate Hr.
Qed.

(** C5. Starting from a table with at most one open entry per user, after
    any sequence of clock-ins, clock-outs and deletions every user still
    has at most one entry without a clock-out. In each such state a
    clock-in is refused (400, "already clocked in", store unchanged)
    exactly when the caller has an open entry, and otherwise, the new key
    being free, answered 201; a clock-out is refused (400, "not currently
    clocked in", store unchanged) exactly when the caller has no open
    entry, and otherwise answered 200. *)
Theorem C5_at_most_one_open_entry_per_user
    (reqs : list time_request) (s : db) :
  one_open_entry_per_user s →
  one_open_entry_per_user (apply_time_requests reqs s)
  ∧ (∀ e caller,
       (fst (TimeEntries.clock_in e caller (apply_time_requests reqs s))
        = already_clocked_in
        ↔ has_open_entry (apply_time_requests reqs s) (pr_id caller))
       ∧ (has_open_entry (apply_time_requests reqs s) (pr_id caller) →
          snd (TimeEntries.clock_in e caller (apply_time_requests reqs s))
          = apply_time_requests reqs s)
       ∧ (¬ has_open_entry (apply_time_requests reqs s) (pr_id caller) →
          time_entries (apply_time_requests reqs s) !! fresh_id e = None →
          res_status
            (fst (TimeEntries.clock_in e caller (apply_time_requests reqs s)))
          = 201))
  ∧ (∀ e caller,
       (fst (TimeEntries.clock_out e caller (apply_time_requests reqs s))
        = not_clocked_in
        ↔ ¬ has_open_entry (apply_time_requests reqs s) (pr_id caller))
       ∧ (¬ has_open_entry (apply_time_requests reqs s) (pr_id caller) →
          snd (TimeEntries.clock_out e caller (apply_time_requests reqs s))
          = apply_time_requests reqs s)
       ∧ (has_open_entry (apply_time_requests reqs s) (pr_id caller) →
          res_status
            (fst (TimeEntries.clock_out e caller (apply_time_requests reqs s)))
          = 200)).
Proof.
  intros Hs. split_and!.
  - by apply time_requests_keep_bound.
  - intros e caller. split_and!.
    + apply clock_in_rejected_iff.
    + intros Hopen.
      destruct (clock_in_cases e caller (apply_time_requests reqs s))
        as [[_ ->]|[(Hnone & _)|(Hnone & _)]]; done.
    + intros Hnone Hfresh.
      destruct (clock_in_cases e caller (apply_time_requests reqs s))
        as [[Hopen _]|[(_ & [x Hx] & _)|(_ & _ & r & new & -> & Hr & _)]];
        [done|congruence|done].
  - intros e caller. split_and!.
    + apply clock_out_rejected_iff.
    + intros Hnone.
      destruct (clock_out_cases e caller (apply_time_requests reqs s))
        as [[_ ->]|[Hopen _]]; done.
    + intros Hopen.
      destruct (clock_out_cases e caller (apply_time_requests reqs s))
        as [[Hnone _]|(_ & r & k & entry & _ & _ & _ & -> & Hr)]; done.
Qed.

Lemma C5_witness :
  one_open_entry_per_user (apply_time_requests sample_time_requests empty_db)
  ∧ (∀ e caller,
       (fst (TimeEntries.clock_in e caller
               (apply_time_requests sample_time_requests empty_db))
        = already_clocked_in
        ↔ has_open_entry (apply_time_requests sample_time_requests empty_db)
            (pr_id caller))
       ∧ (has_open_entry (apply_time_requests sample_time_requests empty_db)
            (pr_id caller) →
          snd (TimeEntries.clock_in e caller
                 (apply_time_requests sample_time_requests empty_db))
          = apply_time_requests sample_time_requests empty_db)
       ∧ (¬ has_open_entry (apply_time_requests sample_time_requests empty_db)
              (pr_id caller) →
          time_entries (apply_time_requests sample_time_requests empty_db)
            !! fresh_id e = None →
          res_status
            (fst (TimeEntries.clock_in e caller
                    (apply_time_requests sample_time_requests empty_db)))
          = 201))
  ∧ (∀ e caller,
       (fst (TimeEntries.clock_out e caller
               (apply_time_requests sample_time_requests empty_db))
        = not_clocked_in
        ↔ ¬ has_open_entry (apply_time_requests sample_time_requests empty_db)
              (pr_id caller))
       ∧ (¬ has_open_entry (apply_time_requests sample_time_requests empty_db)
              (pr_id caller) →
          snd (TimeEntries.clock_out e caller
                 (apply_time_requests sample_time_requests empty_db))
          = apply_time_requests sample_time_requests empty_db)
       ∧ (has_open_entry (apply_time_requests sample_time_requests empty_db)
            (pr_id caller) →
          res_status
            (fst (TimeEntries.clock_out e caller
                    (apply_time_requests sample_time_requests empty_db)))
          = 200)).
Proof.
  apply (C5_at_most_one_open_entry_per_user sample_time_requests empty_db).
  intros k1 k2 r1 r2 H1. vm_compute in H1. discriminate H1.
Defined.

(** Clocking in twice: the second request is refused and stores nothing;
    the clock-out that follows closes the one open entry. *)
Example clock_in_twice :
  let s1 := snd (TimeEntries.clock_in env1 owner1 empty_db) in
  let r2 := fst (TimeEntries.clock_in env2 owner1 s1) in
  let s2 := snd (TimeEntries.clock_in env2 owner1 s1) in
  let s3 := snd (TimeEntries.clock_out env2 owner1 s2) in
  (t_clock_out <$> time_entries s1 !! "i-2") = Some None
  ∧ r2 = already_clocked_in ∧ s2 = s1
  ∧ (t_clock_out <$> time_entries s3 !! "i-2") = Some (Some (now env2))
  ∧ fst (TimeEntries.clock_out env2 owner1 s3) = not_clocked_in.
Proof. vm_compute. done. Qed.

(** * Further properties of the routes *)

(** ** Roles and authentication *)

Lemma hasRequiredRole_true requiredRoles userRoles :
  Auth.hasRequiredRole requiredRoles userRoles = true
  ↔ ∃ role, role ∈ requiredRoles ∧ role ∈ userRoles.
Proof.
  unfold Auth.hasRequiredRole. rewrite existsb_exists. split.
  - intros (role & Hin & Hdec). exists role.
    apply bool_decide_eq_true in Hdec. by rewrite list_elem_of_In.
  - intros (role & Hin & Hrole). exists role.
    rewrite <- list_elem_of_In. by rewrite bool_decide_eq_true.
Qed.

Lemma requireRole_passes {B} requiredRoles u s :
  passes (@Auth.requireRole B requiredRoles (Some u)) s
  ↔ Auth.hasRequiredRole requiredRoles (pr_roles u) = true.
Proof.
  unfold passes, Auth.requireRole.
  destruct (Auth.hasRequiredRole requiredRoles (pr_roles u)); unfold_route.
  - done.
  - split; discriminate.
Qed.

(** X1. The role checks nest: whoever passes [requireAdmin] passes
    [requireAdminOrMadmin], whoever passes that passes [requireUser], and
    whoever passes that passes [requireStaff]. [requireAdminOrMadmin]
    lets through exactly the callers for which [canAccessBilling] holds,
    [requireUser] exactly those for which [canAccessProjects] holds, and
    [requireAdmin] exactly those for which [canDeleteProjects] holds. *)
Theorem X1_role_checks_nest (B : Type) (u : principal) (s : db) :
  (passes (@Auth.requireAdmin B (Some u)) s →
   passes (@Auth.requireAdminOrMadmin B (Some u)) s)
  ∧ (passes (@Auth.requireAdminOrMadmin B (Some u)) s →
     passes (@Auth.requireUser B (Some u)) s)
  ∧ (passes (@Auth.requireUser B (Some u)) s →
     passes (@Auth.requireStaff B (Some u)) s)
  ∧ (passes (@Auth.requireAdminOrMadmin B (Some u)) s
     ↔ Auth.canAccessBilling (pr_roles u) = true)
  ∧ (passes (@Auth.requireUser B (Some u)) s
     ↔ Auth.canAccessProjects (pr_roles u) = true)
  ∧ (passes (@Auth.requireAdmin B (Some u)) s
     ↔ Auth.canDeleteProjects (pr_roles u) = true).
Proof.
  unfold Auth.requireAdmin, Auth.requireAdminOrMadmin, Auth.requireUser,
    Auth.requireStaff.
  rewrite !requireRole_passes.
  unfold Auth.hasRequiredRole, Auth.canAccessBilling, Auth.canAccessProjects,
    Auth.canDeleteProjects, Auth.hasRole. simpl.
  destruct (bool_decide ("admin" ∈ pr_roles u)),
    (bool_decide ("madmin" ∈ pr_roles u)),
    (bool_decide ("user" ∈ pr_roles u)),
    (bool_decide ("staff" ∈ pr_roles u)); simpl; naive_solver.
Qed.

(** A caller without any of the required roles is answered 403 with the
    required roles spelled out and the caller's own roles echoed, and the
    store is left as it was. *)
Lemma requireRole_denies {B} requiredRoles u s :
  Auth.hasRequiredRole requiredRoles (pr_roles u) = false →
  @Auth.requireRole B requiredRoles (Some u) s
  = (Respond (Response 403 (Json (Auth.RoleDenied
       ("Access denied. Required roles: "
        +:+ String.concat " or " requiredRoles) (pr_roles u)))), s).
Proof. intros Hno. unfold Auth.requireRole. by rewrite Hno. Qed.

Lemma split_on_no_separator c s :
  contains_char c s = false → Auth.split_on c s = [s].
Proof.
  induction s as [|a s IH]; simpl; [done|].
  destruct (Ascii.eqb a c); simpl; [done|].
  intros Hs. by rewrite (IH Hs).
Qed.

Lemma split_on_first c w rest :
  contains_char c w = false →
  Auth.split_on c (w +:+ String c rest) = w :: Auth.split_on c rest.
Proof.
  induction w as [|a w IH]; simpl.
  - intros _. by rewrite Ascii.eqb_refl.
  - destruct (Ascii.eqb a c); simpl; [done|].
    intros Hw. by rewrite (IH Hw).
Qed.

(** X2. The token of an [Authorization] header is its second
    space-separated piece: for a first word without spaces and a
    non-empty token without spaces, the header [word token] yields the
    token, whatever the word is (the scheme is not compared with
    [Bearer]); a header with no space, and no header at all, yield no
    token. *)
Theorem X2_bearer_token_is_second_piece (word token : string) :
  contains_char " " word = false →
  contains_char " " token = false →
  token ≠ "" →
  Auth.bearer_token (Some (word +:+ " " +:+ token)) = Some token
  ∧ Auth.bearer_token (Some word) = None
  ∧ Auth.bearer_token None = None.
Proof.
  intros Hword Htoken Hne. unfold Auth.bearer_token. simpl.
  split_and!; [|by rewrite (split_on_no_separator _ _ Hword)|done].
  change (word +:+ " " +:+ token) with (word +:+ String " "%char token).
  rewrite (split_on_first " " word token Hword).
  rewrite (split_on_no_separator _ _ Htoken). simpl.
  by rewrite bool_decide_eq_false_2.
Qed.

Lemma X2_witness :
  Auth.bearer_token (Some ("Bearer" +:+ " " +:+ "abc.def")) = Some "abc.def"
  ∧ Auth.bearer_token (Some "Bearer") = None
  ∧ Auth.bearer_token None = None.
Proof.
  apply (X2_bearer_token_is_second_piece "Bearer" "abc.def");
    [reflexivity|reflexivity|discriminate].
Defined.

(** X3. [authenticateToken] lets a request through, with [req.user] set
    to a user, exactly when the header carries a token that [jwt.verify]
    decodes to the id of a stored user whose [approved] flag is set, and
    [req.user] is then that stored user; in every other case it answers
    401, 403 or 500. It never writes to the store. *)
Theorem X3_authenticate_lets_through_approved_users_only
    (B : Type) (jwt_verify : string → Auth.jwt_result)
    (authorization : option string) (s : db) :
  (∀ id user,
     Auth.authenticateToken (B:=B) jwt_verify authorization s
     = (Continue (id, user), s)
     ↔ ∃ token, Auth.bearer_token authorization = Some token
                ∧ jwt_verify token = Auth.Decoded id
                ∧ users s !! id = Some user
                ∧ u_approved user = true)
  ∧ snd (Auth.authenticateToken (B:=B) jwt_verify authorization s) = s
  ∧ match fst (Auth.authenticateToken (B:=B) jwt_verify authorization s) with
    | Continue _ => True
    | Respond r =>
        res_status r = 401 ∨ res_status r = 403 ∨ res_status r = 500
    | Throw => False
    end.
Proof.
  unfold Auth.authenticateToken.
  destruct (Auth.bearer_token authorization) as [token|]; unfold_route.
  - destruct (jwt_verify token) as [userId| | |] eqn:Hverify; simpl.
    + destruct (users s !! userId) as [user|] eqn:Huser; simpl.
      * destruct (u_approved user) eqn:Happroved; simpl.
        -- split_and!; [|done|done]. intros id user'. split.
           ++ intros [= <- <-]. by exists token.
           ++ intros (token' & [= <-] & Hid & Hu & _).
              rewrite Hverify in Hid. injection Hid as <-.
              rewrite Huser in Hu. by injection Hu as <-.
        -- split_and!; [|done|by right; left]. intros id user'.
           split; [done|].
           intros (token' & [= <-] & Hid & Hu & Ha).
           rewrite Hverify in Hid. injection Hid as <-.
           rewrite Huser in Hu. injection Hu as <-. congruence.
      * split_and!; [|done|by left]. intros id user'. split; [done|].
        intros (token' & [= <-] & Hid & Hu & _).
        rewrite Hverify in Hid. injection Hid as <-. congruence.
    + split_and!; [|done|by left]. intros id user'. split; [done|].
      intros (token' & [= <-] & Hid & _). congruence.
    + split_and!; [|done|by left]. intros id user'. split; [done|].
      intros (token' & [= <-] & Hid & _). congruence.
    + split_and!; [|done|by right; right]. intros id user'. split; [done|].
      intros (token' & [= <-] & Hid & _). congruence.
  - split_and!; [|done|by left]. intros id user'. split; [done|].
    intros (token' & Hnone & _). discriminate Hnone.
Qed.

(** ** Projects: who reads and who writes *)

Lemma length_page {A} (key : A → Z) (n m : Z) (l : list (uuid * A)) :
  (length (limit_offset n m (order_by_desc key l)) ≤ Z.to_nat n)%nat.
Proof. unfold limit_offset. rewrite length_take. lia. Qed.

(** X4. The project listing never writes to the store; it returns at most
    [limit] rows, each of them a stored project that passes the status and
    creator filters of the query; and to a caller that is neither admin
    nor madmin it returns only projects that caller created, whatever
    [user_id] the query asks for. *)
Theorem X4_project_listing_is_scoped_to_the_caller
    (ilike : string → string → bool) (caller : principal)
    (q : Projects.list_query) (s : db) :
  snd (Projects.list_projects ilike caller q s) = s
  ∧ (length (listed_projects (fst (Projects.list_projects ilike caller q s)))
     ≤ Z.to_nat (Projects.q_limit q))%nat
  ∧ ∀ v,
      v ∈ listed_projects (fst (Projects.list_projects ilike caller q s)) →
      projects s !! Projects.pv_id v = Some (Projects.pv_row v)
      ∧ (Auth.isPrivileged (pr_roles caller) = false →
         p_created_by (Projects.pv_row v) = pr_id caller)
      ∧ (∀ st, Projects.q_status q = Some st →
               p_status (Projects.pv_row v) = st)
      ∧ (∀ uid, Projects.q_user_id q = Some uid →
                p_created_by (Projects.pv_row v) = uid).
Proof.
  unfold Projects.list_projects, Projects.list_steps. unfold_route.
  destruct (Auth.canAccessProjects (pr_roles caller)); simpl;
    [destruct ((Projects.q_limit q <? 0) || (Projects.q_offset q <? 0));
     simpl|].
  - unfold listed_projects. simpl. split_and!; [done|lia|].
    intros v Hv. by apply elem_of_nil in Hv.
  - unfold listed_projects. simpl. split_and!; [done| |].
    + rewrite length_fmap. apply length_page.
    + intros v Hv.
      apply list_elem_of_fmap in Hv as ([k r] & -> & Hkr).
      apply elem_of_page, elem_of_select_where in Hkr as [Hf Hk].
      simpl in *. unfold Projects.list_filter in Hf. simpl in Hf.
      apply andb_true_iff in Hf as [Hf Hown].
      apply andb_true_iff in Hf as [Hf Huser].
      apply andb_true_iff in Hf as [Hstatus _].
      split_and!.
      * done.
      * intros Hpriv. rewrite Hpriv in Hown. simpl in Hown.
        by apply bool_decide_eq_true in Hown.
      * intros st Hst. rewrite Hst in Hstatus. simpl in Hstatus.
        by apply bool_decide_eq_true in Hstatus.
      * intros uid Huid. rewrite Huid in Huser. simpl in Huser.
        by apply bool_decide_eq_true in Huser.
  - unfold listed_projects. simpl. split_and!; [done|lia|].
    intros v Hv. by apply elem_of_nil in Hv.
Qed.

(** X5. Reading one project never writes to the store. A valid request
    by a caller with a project role is answered 200 exactly when the
    project exists and the caller created it or is admin or madmin, and
    the body is then the stored row; for an existing project of someone
    else the answer is 403, for a missing one 404. *)
Theorem X5_project_read_needs_ownership
    (caller : principal) (errors : list string) (id : uuid) (s : db) :
  snd (Projects.get_project caller errors id s) = s
  ∧ (res_status (fst (Projects.get_project caller errors id s)) = 200
     ↔ errors = [] ∧ Auth.canAccessProjects (pr_roles caller) = true
       ∧ ∃ p, projects s !! id = Some p
              ∧ Projects.owner_or_privileged caller p = true)
  ∧ (∀ v email,
       res_body (fst (Projects.get_project caller errors id s))
       = Json (Projects.J_found v email) →
       Projects.pv_id v = id ∧ projects s !! id = Some (Projects.pv_row v))
  ∧ (errors = [] → Auth.canAccessProjects (pr_roles caller) = true →
     (∀ p, projects s !! id = Some p →
           Projects.owner_or_privileged caller p = false →
           fst (Projects.get_project caller errors id s)
           = Response 403
               (Error "Access denied. You can only view your own projects."))
     ∧ (projects s !! id = None →
        fst (Projects.get_project caller errors id s)
        = Response 404 (Error "Project not found"))).
Proof.
  unfold Projects.get_project, Projects.get_steps,
    Projects.owner_or_privileged.
  unfold_route.
  destruct (bool_decide_reflect (errors = [])) as [Herr|Herr]; simpl.
  2: { split_and!; [done| |done|done]. split; [done|]. by intros [? _]. }
  destruct (Auth.canAccessProjects (pr_roles caller)); simpl.
  2: { split_and!; [done| |done|done]. split; [done|]. by intros (_ & ? & _). }
  destruct (projects s !! id) as [p|] eqn:Hp; simpl.
  2: { split_and!; [done| |done|done]. split; [done|].
       by intros (_ & _ & p & ? & _). }
  destruct (Auth.isPrivileged (pr_roles caller)); simpl.
  - split_and!; [done| | |].
    + split; [|done]. intros _. split_and!; [done|done|]. by exists p.
    + intros v email [= <- <-]. done.
    + intros _ _. split; [|done]. intros p' _ Hfalse. discriminate Hfalse.
  - destruct (bool_decide (p_created_by p = pr_id caller)) eqn:Hown; simpl.
    + split_and!; [done| | |].
      * split; [|done]. intros _. split_and!; [done|done|].
        exists p. by rewrite Hown.
      * intros v email [= <- <-]. done.
      * intros _ _. split; [|done]. intros p' [= <-] Hfalse.
        rewrite Hown in Hfalse. discriminate Hfalse.
    + split_and!; [done| |done|].
      * split; [done|]. intros (_ & _ & p' & [= <-] & Hp').
        rewrite Hown in Hp'. discriminate Hp'.
      * intros _ _. split; [|done]. by intros p' [= <-] _.
Qed.

(** X6. A caller whose roles include none of user, madmin and admin is
    refused by every project route, and none of them writes to the store.
    The listing and the statistics answer 403. Reading, creating, updating
    and completing answer 403 for a request that passes validation and
    400 "Validation failed", with the validation errors, for one that
    does not. *)
Theorem X6_project_routes_need_a_project_role
    (ilike : string → string → bool) (e : env) (caller : principal)
    (errors : list string) (id : uuid) (q : Projects.list_query)
    (cb : Projects.create_body) (ub : Projects.update_body) (s : db) :
  Auth.canAccessProjects (pr_roles caller) = false →
  Projects.list_projects ilike caller q s = (project_denied "access", s)
  ∧ Projects.stats_overview caller s = (project_denied "access", s)
  ∧ (errors = [] →
     Projects.get_project caller errors id s = (project_denied "access", s)
     ∧ Projects.create_project e caller errors cb s
       = (project_denied "creation", s)
     ∧ Projects.update_project e caller errors id ub s
       = (project_denied "access", s)
     ∧ Projects.complete_project e caller errors id s
       = (project_denied "access", s))
  ∧ (errors ≠ [] →
     Projects.get_project caller errors id s = (validation_failed errors, s)
     ∧ Projects.create_project e caller errors cb s
       = (validation_failed errors, s)
     ∧ Projects.update_project e caller errors id ub s
       = (validation_failed errors, s)
     ∧ Projects.complete_project e caller errors id s
       = (validation_failed errors, s)).
Proof.
  intros Hno.
  unfold Projects.list_projects, Projects.list_steps, Projects.get_project,
    Projects.get_steps, Projects.create_project, Projects.create_steps,
    Projects.update_project, Projects.update_steps,
    Projects.complete_project, Projects.complete_steps,
    Projects.stats_overview, Projects.stats_steps, Projects.access_denied,
    project_denied, validation_failed.
  unfold_route. rewrite Hno. simpl. split_and!; [done|done| |].
  - intros ->. simpl. done.
  - intros Herr. rewrite bool_decide_eq_false_2 by done. simpl. done.
Qed.

Lemma X6_witness :
  Projects.list_projects ilike_unused staff1 project_list_all
    (db_project P_ongoing)
  = (project_denied "access", db_project P_ongoing)
  ∧ Projects.stats_overview staff1 (db_project P_ongoing)
    = (project_denied "access", db_project P_ongoing)
  ∧ (["Invalid project ID"] = [] →
     Projects.get_project staff1 ["Invalid project ID"] "p-1"
       (db_project P_ongoing)
     = (project_denied "access", db_project P_ongoing)
     ∧ Projects.create_project env1 staff1 ["Invalid project ID"]
         create_album (db_project P_ongoing)
       = (project_denied "creation", db_project P_ongoing)
     ∧ Projects.update_project env1 staff1 ["Invalid project ID"] "p-1"
         (end_on_jan5 None) (db_project P_ongoing)
       = (project_denied "access", db_project P_ongoing)
     ∧ Projects.complete_project env1 staff1 ["Invalid project ID"] "p-1"
         (db_project P_ongoing)
       = (project_denied "access", db_project P_ongoing))
  ∧ (["Invalid project ID"] ≠ [] →
     Projects.get_project staff1 ["Invalid project ID"] "p-1"
       (db_project P_ongoing)
     = (validation_failed ["Invalid project ID"], db_project P_ongoing)
     ∧ Projects.create_project env1 staff1 ["Invalid project ID"]
         create_album (db_project P_ongoing)
       = (validation_failed ["Invalid project ID"], db_project P_ongoing)
     ∧ Projects.update_project env1 staff1 ["Invalid project ID"] "p-1"
         (end_on_jan5 None) (db_project P_ongoing)
       = (validation_failed ["Invalid project ID"], db_project P_ongoing)
     ∧ Projects.complete_project env1 staff1 ["Invalid project ID"] "p-1"
         (db_project P_ongoing)
       = (validation_failed ["Invalid project ID"], db_project P_ongoing)).
Proof.
  apply (X6_project_routes_need_a_project_role ilike_unused env1 staff1
           ["Invalid project ID"] "p-1" project_list_all create_album
           (end_on_jan5 None) (db_project P_ongoing)).
  vm_compute. reflexivity.
Defined.

(** A caller with the staff role alone asks for a project: the valid
    request is answered 403, the one with a malformed id 400. *)
Example staff_reads_a_project :
  Projects.get_project staff1 [] "p-1" (db_project P_ongoing)
  = (project_denied "access", db_project P_ongoing)
  ∧ Projects.get_project staff1 ["Invalid project ID"] "p-1"
      (db_project P_ongoing)
    = (validation_failed ["Invalid project ID"], db_project P_ongoing).
Proof. vm_compute. done. Qed.

(** X7. For a caller that is neither admin nor madmin, an update that
    carries an end date is refused, and stores nothing, unless its body
    also sets the status to completed; with that status, a valid update
    of the caller's own project is accepted and stores the end date and
    the status. *)
Theorem X7_end_date_needs_completed_status
    (e : env) (caller : principal) (errors : list string) (id : uuid)
    (u : Projects.update_body) (s : db) (d : date) :
  Auth.isPrivileged (pr_roles caller) = false →
  Projects.up_end_date u = Some d →
  (Projects.up_status u ≠ Some P_completed →
   refused_unchanged (Projects.update_project e caller errors id u s) s)
  ∧ (Projects.up_status u = Some P_completed →
     errors = [] →
     Auth.canAccessProjects (pr_roles caller) = true →
     ∀ p, projects s !! id = Some p →
          p_created_by p = pr_id caller →
          res_status (fst (Projects.update_project e caller errors id u s))
          = 200
          ∧ ∃ p', projects (snd (Projects.update_project e caller errors id
                                   u s)) !! id = Some p'
                  ∧ p_end_date p' = Some d ∧ p_status p' = P_completed).
Proof.
  intros Hpriv Hend.
  unfold refused_unchanged, is_rejection, Projects.update_project,
    Projects.update_steps, Projects.owner_or_privileged,
    Projects.end_without_completed, Projects.no_valid_fields.
  unfold_route. rewrite Hpriv, Hend. simpl. split.
  - intros Hst. rewrite (bool_decide_eq_false_2 _ Hst). simpl.
    destruct (bool_decide (errors = [])); simpl; [|done].
    destruct (Auth.canAccessProjects (pr_roles caller)); simpl; [|done].
    destruct (projects s !! id) as [p|]; simpl; [|done].
    destruct (bool_decide (p_created_by p = pr_id caller)); simpl; done.
  - intros Hst -> Hacc p Hp Hown. rewrite Hacc, Hst. simpl.
    rewrite Hp. simpl. rewrite (bool_decide_eq_true_2 _ Hown). simpl.
    rewrite !andb_false_r. simpl. split; [done|].
    rewrite (alter_lookup_insert _ _ _ _ Hp), lookup_insert_eq.
    eexists. split; [done|]. simpl. by rewrite Hend, Hst.
Qed.

Lemma X7_witness :
  (Some P_completed ≠ Some P_completed →
   refused_unchanged
     (Projects.update_project env1 owner1 [] "p-1"
        (end_on_jan5 (Some P_completed)) (db_project P_ongoing))
     (db_project P_ongoing))
  ∧ (Some P_completed = Some P_completed →
     @nil string = [] →
     Auth.canAccessProjects (pr_roles owner1) = true →
     ∀ p, projects (db_project P_ongoing) !! "p-1" = Some p →
          p_created_by p = pr_id owner1 →
          res_status (fst (Projects.update_project env1 owner1 [] "p-1"
                             (end_on_jan5 (Some P_completed))
                             (db_project P_ongoing)))
          = 200
          ∧ ∃ p', projects (snd (Projects.update_project env1 owner1 [] "p-1"
                                   (end_on_jan5 (Some P_completed))
                                   (db_project P_ongoing))) !! "p-1"
                  = Some p'
                  ∧ p_end_date p' = Some (Date 2024 1 5)
                  ∧ p_status p' = P_completed).
Proof.
  apply (X7_end_date_needs_completed_status env1 owner1 [] "p-1"
           (end_on_jan5 (Some P_completed)) (db_project P_ongoing)
           (Date 2024 1 5)).
  - vm_compute. reflexivity.
  - reflexivity.
Defined.

(** X8. A caller that is neither admin nor madmin cannot change a project
    created by someone else: whatever that caller sends to the create,
    update and complete routes, every such project is stored afterwards
    exactly as before. *)
Theorem X8_regular_users_cannot_change_others_projects
    (e : env) (caller : principal) (errors : list string) (id : uuid)
    (cb : Projects.create_body) (ub : Projects.update_body) (s : db)
    (k : uuid) (p : project_row) :
  Auth.isPrivileged (pr_roles caller) = false →
  projects s !! k = Some p →
  p_created_by p ≠ pr_id caller →
  projects (snd (Projects.create_project e caller errors cb s)) !! k = Some p
  ∧ projects (snd (Projects.update_project e caller errors id ub s)) !! k
    = Some p
  ∧ projects (snd (Projects.complete_project e caller errors id s)) !! k
    = Some p.
Proof.
  intros Hpriv Hk Hother.
  unfold Projects.create_project, Projects.create_steps,
    Projects.update_project, Projects.update_steps,
    Projects.complete_project, Projects.complete_steps,
    Projects.owner_or_privileged, insert_row.
  unfold_route. rewrite Hpriv. simpl.
  destruct (bool_decide (errors = [])); simpl; [|done].
  destruct (Auth.canAccessProjects (pr_roles caller)); simpl; [|done].
  split_and!.
  - destruct (Projects.ends_before_start _ _); simpl; [done|].
    destruct (Projects.end_without_completed _ _); simpl; [done|].
    destruct (projects s !! fresh_id e) eqn:Hfresh; simpl; [done|].
    rewrite lookup_insert_ne; [done|]. intros <-. congruence.
  - destruct (projects s !! id) as [p'|] eqn:Hid; simpl; [|done].
    destruct (bool_decide_reflect (p_created_by p' = pr_id caller))
      as [Hown|Hown]; simpl; [|done].
    destruct (Projects.end_without_completed _ _); simpl; [done|].
    destruct (Projects.no_valid_fields ub); simpl; [done|].
    unfold update_by_id. rewrite lookup_alter_ne; [done|].
    intros <-. congruence.
  - destruct (projects s !! id) as [p'|] eqn:Hid; simpl; [|done].
    destruct (bool_decide_reflect (p_created_by p' = pr_id caller))
      as [Hown|Hown]; simpl; [|done].
    destruct (bool_decide (p_status p' = P_completed)); simpl; [done|].
    unfold update_by_id. rewrite lookup_alter_ne; [done|].
    intros <-. congruence.
Qed.

Lemma X8_witness :
  projects (snd (Projects.create_project env1 other1 [] create_album
                   (db_project P_ongoing))) !! "p-1"
  = Some (project1 P_ongoing)
  ∧ projects (snd (Projects.update_project env1 other1 [] "p-1"
                     (end_on_jan5 (Some P_completed))
                     (db_project P_ongoing))) !! "p-1"
    = Some (project1 P_ongoing)
  ∧ projects (snd (Projects.complete_project env1 other1 [] "p-1"
                     (db_project P_ongoing))) !! "p-1"
    = Some (project1 P_ongoing).
Proof.
  apply (X8_regular_users_cannot_change_others_projects env1 other1 [] "p-1"
           create_album (end_on_jan5 (Some P_completed))
           (db_project P_ongoing) "p-1" (project1 P_ongoing)).
  - vm_compute. reflexivity.
  - vm_compute. reflexivity.
  - simpl. discriminate.
Defined.



(** ** Project statistics *)

Lemma project_counts_add_up (rows : list (uuid * project_row)) :
  Z.of_nat (length rows)
  = Projects.count_status P_pending rows
    + Projects.count_status P_ongoing rows
    + Projects.count_status P_completed rows.
Proof.
  unfold Projects.count_status.
  induction rows as [|[k r] rows IH]; [done|].
  rewrite !filter_cons. simpl.
  destruct (p_status r);
    repeat (case_decide; try done); simpl; lia.
Qed.

Lemma round_div_percent_bounds (completed total : Z) :
  0 ≤ completed ≤ total → 0 < total →
  0 ≤ round_div (completed * 100 * 100) total ≤ 10000.
Proof.
  intros Hc Ht. unfold round_div.
  destruct (decide (completed = 0)) as [->|Hpos]; [simpl; lia|].
  rewrite Z.sgn_pos by lia. rewrite Z.abs_eq by lia. rewrite Z.mul_1_l.
  split.
  - apply Z.div_pos; lia.
  - cut ((2 * (completed * 100 * 100) + total) / (2 * total) < 10001); [lia|].
    apply Z.div_lt_upper_bound; lia.
Qed.

(** X10. In the project statistics the total is the sum of the pending,
    ongoing and completed counts, and the completion rate is a number
    between 0 and 100 percent (it is stored in hundredths of a percent),
    never [NaN]; the counts only look at the caller's own projects unless
    the caller is admin or madmin. *)
Theorem X10_project_statistics_add_up (caller : principal) (s : db) :
  Auth.canAccessProjects (pr_roles caller) = true →
  snd (Projects.stats_overview caller s) = s
  ∧ ∃ st rate,
      fst (Projects.stats_overview caller s)
      = Response 200 (Json (Projects.J_stats st))
      ∧ Projects.st_total st
        = Projects.st_pending st + Projects.st_ongoing st
          + Projects.st_completed st
      ∧ Projects.st_total st
        = Z.of_nat (length (select_where (Projects.stats_scope caller)
                              (projects s)))
      ∧ Projects.st_completionRate st = Num rate
      ∧ 0 ≤ rate ≤ 10000.
Proof.
  intros Hacc. unfold Projects.stats_overview, Projects.stats_steps.
  unfold_route. rewrite Hacc. simpl. split; [done|].
  set (rows := select_where (Projects.stats_scope caller) (projects s)).
  pose proof (project_counts_add_up rows) as Hsum.
  assert (0 ≤ Projects.count_status P_pending rows
          ∧ 0 ≤ Projects.count_status P_ongoing rows
          ∧ 0 ≤ Projects.count_status P_completed rows) as (Hp & Ho & Hc)
    by (unfold Projects.count_status; lia).
  unfold Projects.completion_rate, nullif0.
  destruct (Z.eqb_spec (Z.of_nat (length rows)) 0) as [Hzero|Hnz]; simpl.
  - eexists _, 0. split_and!; try done; simpl; lia.
  - pose proof (round_div_percent_bounds
                  (Projects.count_status P_completed rows)
                  (Z.of_nat (length rows)) ltac:(lia) ltac:(lia)) as Hrate.
    destruct (Z.eqb_spec
                (round_div (Projects.count_status P_completed rows * 100 * 100)
                   (Z.of_nat (length rows))) 0) as [Hr|Hr].
    + eexists _, 0. split_and!; try done; simpl; lia.
    + eexists _, _. split_and!; try done; simpl; lia.
Qed.

Lemma X10_witness :
  snd (Projects.stats_overview owner1 (db_project P_completed))
  = db_project P_completed
  ∧ ∃ st rate,
      fst (Projects.stats_overview owner1 (db_project P_completed))
      = Response 200 (Json (Projects.J_stats st))
      ∧ Projects.st_total st
        = Projects.st_pending st + Projects.st_ongoing st
          + Projects.st_completed st
      ∧ Projects.st_total st
        = Z.of_nat (length (select_where (Projects.stats_scope owner1)
                              (projects (db_project P_completed))))
      ∧ Projects.st_completionRate st = Num rate
      ∧ 0 ≤ rate ≤ 10000.
Proof.
  apply (X10_project_statistics_add_up owner1 (db_project P_completed)).
  vm_compute. reflexivity.
Defined.

(** One completed project out of one gives a rate of 100.00. *)
Example completion_rate_of_all :
  Projects.st_completionRate <$>
    match res_body (fst (Projects.stats_overview owner1
                           (db_project P_completed))) with
    | Json (Projects.J_stats st) => Some st
    | _ => None
    end
  = Some (Num 10000).
Proof. vm_compute. reflexivity. Qed.

(** ** Invoices: access, deletion and numbering *)

(** X11. A caller that is neither admin nor madmin is answered 403 by
    every invoice route, valid request or not, and none of them writes to
    the store: the listing does not even flag overdue invoices. *)
Theorem X11_invoice_routes_need_billing_access
    (ilike : string → string → bool) (e : env) (caller : principal)
    (errors : list string) (id : uuid) (q : Invoices.list_query)
    (cb : Invoices.create_body) (ub : Invoices.update_body)
    (pb : Invoices.payment_body) (numeric_avg : list Z → Q) (s : db) :
  Auth.canAccessBilling (pr_roles caller) = false →
  Invoices.list_invoices ilike e caller q s = (billing_denied, s)
  ∧ Invoices.get_invoice caller errors id s = (billing_denied, s)
  ∧ Invoices.create_invoice e caller errors cb s = (billing_denied, s)
  ∧ Invoices.update_invoice e caller errors id ub s = (billing_denied, s)
  ∧ Invoices.add_payment e caller errors id pb s = (billing_denied, s)
  ∧ Invoices.delete_invoice caller errors id s = (billing_denied, s)
  ∧ InvoiceStats.stats_overview numeric_avg caller s = (billing_denied, s).
Proof.
  intros Hno.
  unfold Invoices.list_invoices, Invoices.list_body, Invoices.get_invoice,
    Invoices.get_steps, Invoices.create_invoice, Invoices.create_body_steps,
    Invoices.update_invoice, Invoices.update_steps, Invoices.add_payment,
    Invoices.payment_steps, Invoices.delete_invoice, Invoices.delete_steps,
    InvoiceStats.stats_overview, InvoiceStats.stats_steps,
    Invoices.require_billing_access, Invoices.billing_check, billing_denied.
  unfold_route. rewrite Hno. simpl. done.
Qed.

Lemma X11_witness :
  Invoices.list_invoices ilike_unused env1 owner1 list_all
    (db_invoice I_pending) = (billing_denied, db_invoice I_pending)
  ∧ Invoices.get_invoice owner1 [] "i-1" (db_invoice I_pending)
    = (billing_denied, db_invoice I_pending)
  ∧ Invoices.create_invoice env1 owner1 [] create_march (db_invoice I_pending)
    = (billing_denied, db_invoice I_pending)
  ∧ Invoices.update_invoice env1 owner1 [] "i-1" (status_only I_paid)
      (db_invoice I_pending) = (billing_denied, db_invoice I_pending)
  ∧ Invoices.add_payment env1 owner1 [] "i-1"
      {| Invoices.pm_amount := 1; Invoices.pm_markAsPaid := true |}
      (db_invoice I_pending) = (billing_denied, db_invoice I_pending)
  ∧ Invoices.delete_invoice owner1 [] "i-1" (db_invoice I_pending)
    = (billing_denied, db_invoice I_pending)
  ∧ InvoiceStats.stats_overview exact_mean owner1 (db_invoice I_pending)
    = (billing_denied, db_invoice I_pending).
Proof.
  apply (X11_invoice_routes_need_billing_access ilike_unused env1 owner1 []
           "i-1" list_all create_march (status_only I_paid)
           {| Invoices.pm_amount := 1; Invoices.pm_markAsPaid := true |}
           exact_mean (db_invoice I_pending)).
  vm_compute. reflexivity.
Defined.

Lemma delete_invoice_outcomes
    (caller : principal) (errors : list string) (id : uuid) (s : db) :
  Auth.canAccessBilling (pr_roles caller) = true →
  (Auth.hasRole (pr_roles caller) "admin" = false →
   Invoices.delete_invoice caller errors id s
   = (Response 403 (Json (Auth.RoleDenied
        "Access denied. Required roles: admin" (pr_roles caller))), s))
  ∧ (Auth.hasRole (pr_roles caller) "admin" = true → errors = [] →
     (∀ inv, invoices s !! id = Some inv →
        Invoices.delete_invoice caller errors id s
        = (Response 200 (Json (Auth.Passed
             ("Invoice " +:+ i_number inv +:+ " deleted successfully"))),
           set_invoices (delete id (invoices s)) s))
     ∧ (invoices s !! id = None →
        Invoices.delete_invoice caller errors id s
        = (Response 404 (Error "Invoice not found"), s))).
Proof.
  intros Hacc.
  unfold Invoices.delete_invoice, Invoices.delete_steps,
    Invoices.billing_check, Auth.requireAdmin, Auth.requireRole,
    Auth.hasRequiredRole, Auth.hasRole.
  unfold_route. rewrite Hacc. simpl. split.
  - intros ->. simpl. done.
  - intros -> ->. simpl. split.
    + intros inv ->. done.
    + intros ->. done.
Qed.


(** X12. Deleting an invoice takes the admin role: a madmin, who passes
    the billing check, is answered 403 with the required role and the
    caller's roles, and nothing is deleted. For an admin a valid request
    removes the invoice, reports its number and leaves every other invoice
    in place; a missing invoice gives 404. *)
Theorem X12_invoice_delete_is_admin_only
    (caller : principal) (errors : list string) (id : uuid) (s : db) :
  Auth.canAccessBilling (pr_roles caller) = true →
  (Auth.hasRole (pr_roles caller) "admin" = false →
   Invoices.delete_invoice caller errors id s
   = (Response 403 (Json (Auth.RoleDenied
        "Access denied. Required roles: admin" (pr_roles caller))), s))
  ∧ (Auth.hasRole (pr_roles caller) "admin" = true → errors = [] →
     (∀ inv, invoices s !! id = Some inv →
        Invoices.delete_invoice caller errors id s
        = (Response 200 (Json (Auth.Passed
             ("Invoice " +:+ i_number inv +:+ " deleted successfully"))),
           set_invoices (delete id (invoices s)) s))
     ∧ (invoices s !! id = None →
        Invoices.delete_invoice caller errors id s
        = (Response 404 (Error "Invoice not found"), s))).
Proof. apply delete_invoice_outcomes. Qed.

Lemma X12_witness :
  (Auth.hasRole (pr_roles madmin1) "admin" = false →
   Invoices.delete_invoice madmin1 [] "i-1" (db_invoice I_pending)
   = (Response 403 (Json (Auth.RoleDenied
        "Access denied. Required roles: admin" (pr_roles madmin1))),
      db_invoice I_pending))
  ∧ (Auth.hasRole (pr_roles madmin1) "admin" = true → @nil string = [] →
     (∀ inv, invoices (db_invoice I_pending) !! "i-1" = Some inv →
        Invoices.delete_invoice madmin1 [] "i-1" (db_invoice I_pending)
        = (Response 200 (Json (Auth.Passed
             ("Invoice " +:+ i_number inv +:+ " deleted successfully"))),
           set_invoices (delete "i-1" (invoices (db_invoice I_pending)))
             (db_invoice I_pending)))
     ∧ (invoices (db_invoice I_pending) !! "i-1" = None →
        Invoices.delete_invoice madmin1 [] "i-1" (db_invoice I_pending)
        = (Response 404 (Error "Invoice not found"), db_invoice I_pending))).
Proof.
  apply (X12_invoice_delete_is_admin_only madmin1 [] "i-1"
           (db_invoice I_pending)).
  vm_compute. reflexivity.
Defined.

(** An admin deletes the sample invoice. *)
Example admin_deletes_invoice :
  fst (Invoices.delete_invoice admin1 [] "i-1" (db_invoice I_pending))
  = Response 200 (Json (Auth.Passed "Invoice 20240001 deleted successfully"))
  ∧ invoices (snd (Invoices.delete_invoice admin1 [] "i-1"
                     (db_invoice I_pending))) !! "i-1" = None.
Proof. vm_compute. done. Qed.

Lemma append_inv_head (a b c : string) : a +:+ b = a +:+ c → b = c.
Proof.
  induction a as [|x a IH]; simpl; [done|].
  intros [= H]. by apply IH.
Qed.

Lemma invoice_number_inj year n m :
  0 ≤ n → 0 ≤ m →
  Invoices.invoice_number year n = Invoices.invoice_number year m → n = m.
Proof.
  intros Hn Hm Heq. unfold Invoices.invoice_number in Heq.
  apply append_inv_head in Heq.
  assert (digits_value (padStart 4 "0"%char (String_of (n + 1)))
          = digits_value (padStart 4 "0"%char (String_of (m + 1)))) as Hd
    by by rewrite Heq.
  rewrite !digits_value_padStart in Hd by lia.
  injection Hd. lia.
Qed.

Lemma create_invoice_cases e caller errors b s :
  (res_status (fst (Invoices.create_invoice e caller errors b s)) ≠ 201
   ∧ snd (Invoices.create_invoice e caller errors b s) = s)
  ∨ (res_status (fst (Invoices.create_invoice e caller errors b s)) = 201).
Proof.
  unfold Invoices.create_invoice, Invoices.require_billing_access,
    Invoices.create_body_steps, insert_row.
  unfold_route.
  destruct (Auth.canAccessBilling (pr_roles caller)); simpl; [|by left].
  destruct (bool_decide (errors = [])); simpl; [|by left].
  destruct (users s !! Invoices.c_client_id b) as [client|]; simpl;
    [|by left].
  destruct (u_approved client); simpl; [|by left].
  destruct (Invoices.c_project_id b) as [pid|]; simpl.
  - destruct (bool_decide (projects s !! pid = None)); simpl; [by left|].
    destruct (date_ltb (Invoices.c_due_date b) (Invoices.c_date b)); simpl;
      [by left|].
    destruct (invoices s !! fresh_id e); simpl; [by left|by right].
  - destruct (date_ltb (Invoices.c_due_date b) (Invoices.c_date b)); simpl;
      [by left|].
    destruct (invoices s !! fresh_id e); simpl; [by left|by right].
Qed.

(** X13. Deleting an invoice gives its number away: when an admin deletes
    an invoice right after it was created, the invoice table is what it
    was before the creation, and the next invoice created for the same
    year is stored with the number the deleted one had. *)
Theorem X13_deleted_invoice_number_is_issued_again
    (e : env) (caller : principal) (errors : list string)
    (b : Invoices.create_body) (s : db) (admin : principal)
    (e' : env) (caller' : principal) (errors' : list string)
    (b' : Invoices.create_body) :
  res_status (fst (Invoices.create_invoice e caller errors b s)) = 201 →
  Auth.hasRole (pr_roles admin) "admin" = true →
  getFullYear e' (Invoices.c_date b') = getFullYear e (Invoices.c_date b) →
  let s1 := snd (Invoices.create_invoice e caller errors b s) in
  let s2 := snd (Invoices.delete_invoice admin [] (fresh_id e) s1) in
  invoices s2 = invoices s
  ∧ (res_status (fst (Invoices.create_invoice e' caller' errors' b' s2)) = 201 →
     i_number <$>
       invoices (snd (Invoices.create_invoice e' caller' errors' b' s2))
         !! fresh_id e'
     = i_number <$> invoices s1 !! fresh_id e).
Proof.
  intros Hcreated Hadmin Hyear s1 s2.
  destruct (create_invoice_created _ _ _ _ _ Hcreated)
    as (Hfresh & inv & Hs1 & Hnum & _).
  assert (invoices s2 = invoices s) as Hback.
  { unfold s2, s1. rewrite Hs1.
    assert (Auth.canAccessBilling (pr_roles admin) = true) as Hacc
      by (unfold Auth.canAccessBilling; by rewrite Hadmin).
    destruct (delete_invoice_outcomes admin [] (fresh_id e)
                (set_invoices (<[fresh_id e:=inv]> (invoices s)) s) Hacc)
      as [_ Hdel].
    destruct (Hdel Hadmin eq_refl) as [Hdel' _].
    rewrite (Hdel' inv) by (simpl; apply lookup_insert_eq). simpl.
    by apply delete_insert_id. }
  split; [done|]. intros Hagain.
  destruct (create_invoice_created _ _ _ _ _ Hagain)
    as (_ & inv' & -> & Hnum' & _). simpl.
  rewrite lookup_insert_eq. unfold s1. rewrite Hs1. simpl.
  rewrite lookup_insert_eq. simpl. rewrite Hnum', Hnum.
  by rewrite Hback, Hyear.
Qed.

Lemma X13_witness :
  invoices (snd (Invoices.delete_invoice admin1 [] (fresh_id env1)
                   (snd (Invoices.create_invoice env1 admin1 [] create_march
                           (db_invoice I_pending)))))
  = invoices (db_invoice I_pending)
  ∧ (res_status
       (fst (Invoices.create_invoice env2 madmin1 [] create_march
               (snd (Invoices.delete_invoice admin1 [] (fresh_id env1)
                       (snd (Invoices.create_invoice env1 admin1 []
                               create_march (db_invoice I_pending)))))))
     = 201 →
     i_number <$>
       invoices
         (snd (Invoices.create_invoice env2 madmin1 [] create_march
                 (snd (Invoices.delete_invoice admin1 [] (fresh_id env1)
                         (snd (Invoices.create_invoice env1 admin1 []
                                 create_march (db_invoice I_pending)))))))
         !! fresh_id env2
     = i_number <$>
         invoices (snd (Invoices.create_invoice env1 admin1 [] create_march
                          (db_invoice I_pending))) !! fresh_id env1).
Proof.
  apply (X13_deleted_invoice_number_is_issued_again env1 admin1 []
           create_march (db_invoice I_pending) admin1 env2 madmin1 []
           create_march).
  - vm_compute. reflexivity.
  - vm_compute. reflexivity.
  - reflexivity.
Defined.

(** *** Numbers stay unique while nothing is deleted or re-dated *)

Lemma well_numbered_empty : well_numbered ∅.
Proof.
  split.
  - intros k r Hk. by rewrite lookup_empty in Hk.
  - intros k1 k2 r1 r2 Hk. by rewrite lookup_empty in Hk.
Qed.

(** A table with the same number and date under every key is numbered
    as well. *)
Lemma well_numbered_ext (t t' : gmap uuid invoice_row) :
  (∀ k, (λ r, (i_number r, i_date r)) <$> t' !! k
        = (λ r, (i_number r, i_date r)) <$> t !! k) →
  well_numbered t → well_numbered t'.
Proof.
  intros Hsame [Hnum Huniq].
  assert (∀ year, Invoices.count_in_year year t'
                  = Invoices.count_in_year year t) as Hcount.
  { intros year. apply count_in_year_ext. intros k.
    specialize (Hsame k).
    destruct (t' !! k), (t !! k); simpl in *; congruence. }
  assert (∀ k r', t' !! k = Some r' →
                  ∃ r, t !! k = Some r ∧ i_number r = i_number r'
                       ∧ i_date r = i_date r') as Hback.
  { intros k r' Hk. specialize (Hsame k). rewrite Hk in Hsame.
    destruct (t !! k) as [r|]; simpl in *; [|done].
    exists r. split; [done|]. split; congruence. }
  split.
  - intros k r' Hk. destruct (Hback k r' Hk) as (r & Hr & Hn & Hd).
    destruct (Hnum k r Hr) as (n & Hle & Hnr).
    unfold invoice_year in *. exists n. rewrite Hcount, <- Hd, <- Hn. done.
  - intros k1 k2 r1' r2' H1 H2 Hy Hn.
    destruct (Hback k1 r1' H1) as (r1 & Hr1 & Hn1 & Hd1).
    destruct (Hback k2 r2' H2) as (r2 & Hr2 & Hn2 & Hd2).
    apply (Huniq k1 k2 r1 r2); unfold invoice_year in *; congruence.
Qed.

Lemma well_numbered_create (t : gmap uuid invoice_row) k inv :
  t !! k = None →
  i_number inv
  = Invoices.invoice_number (invoice_year inv)
      (Invoices.count_in_year (invoice_year inv) t) →
  well_numbered t → well_numbered (<[k := inv]> t).
Proof.
  intros Hk Hnew [Hnum Huniq].
  pose proof (count_in_year_nonneg (invoice_year inv) t) as Hc.
  assert (∀ j r, t !! j = Some r → invoice_year r = invoice_year inv →
                 i_number r ≠ i_number inv) as Hfresh.
  { intros j r Hj Hy Heq. destruct (Hnum j r Hj) as (n & Hn & Hr).
    rewrite Hr, Hnew, Hy in Heq. rewrite Hy in Hn.
    apply invoice_number_inj in Heq; lia. }
  split.
  - intros j r Hj. apply lookup_insert_Some in Hj as [[<- <-]|[Hne Hj]].
    + exists (Invoices.count_in_year (invoice_year inv) t).
      rewrite count_in_year_insert by done.
      rewrite bool_decide_eq_true_2 by done. split; [lia|done].
    + destruct (Hnum j r Hj) as (n & Hn & Hr). exists n.
      rewrite count_in_year_insert by done. split; [|done].
      destruct (bool_decide (invoice_year inv = invoice_year r)); lia.
  - intros k1 k2 r1 r2 H1 H2 Hy Hn.
    apply lookup_insert_Some in H1 as [[<- <-]|[Hne1 H1]];
      apply lookup_insert_Some in H2 as [[<- <-]|[Hne2 H2]].
    + done.
    + destruct (Hfresh k2 r2 H2); congruence.
    + destruct (Hfresh k1 r1 H1); congruence.
    + by apply (Huniq k1 k2 r1 r2).
Qed.

Lemma billing_request_keeps_numbering ilike rq s :
  not_behind_utc rq →
  well_numbered (invoices s) →
  well_numbered (invoices (run_billing_request ilike rq s)).
Proof.
  intros Hzone Hs. destruct rq as [e caller errors b|p|e caller q]; simpl.
  - destruct (create_invoice_cases e caller errors b s) as [[_ ->]|Hok];
      [done|].
    destruct (create_invoice_created _ _ _ _ _ Hok)
      as (Hfresh & inv & -> & Hnum & Hdate & _). simpl.
    apply well_numbered_create; [done| |done].
    unfold invoice_year, extract_year. rewrite Hdate.
    by rewrite <- (getFullYear_not_behind e _ Hzone).
  - unfold run_payment.
    pose proof (add_payment_cases (rq_env p) (rq_caller p) (rq_errors p)
                  (rq_id p) (rq_body p) s) as Hcases.
    inversion Hcases as [r Hr Heq|inv r Hinv Hc Hmode Hr Heq
                         |inv r Hinv Hc Hmode Hfit Hr Heq]; simpl;
      [done| |];
      (apply (well_numbered_ext (invoices s)); [|done]; intros k;
       destruct (decide (rq_id p = k)) as [<-|Hne];
       [by rewrite lookup_insert_eq, Hinv|by rewrite lookup_insert_ne]).
  - unfold Invoices.list_invoices, Invoices.require_billing_access,
      Invoices.list_body.
    unfold_route.
    destruct (Auth.canAccessBilling (pr_roles caller)); simpl; [|done].
    destruct ((Invoices.q_limit q <? 0) || (Invoices.q_offset q <? 0));
      simpl; [done|].
    apply (well_numbered_ext (invoices s)); [|done]. intros k.
    unfold Invoices.flag_overdue. rewrite lookup_update_where.
    destruct (invoices s !! k) as [r|]; simpl; [|done].
    by destruct (Invoices.is_past_due (current_date e) r).
Qed.

(** X14. On a server whose local time is not behind UTC, and as long as
    invoices are only created, paid and listed, and none is deleted or
    given another date, the numbers stay apart: starting from a table
    numbered by the yearly count (the empty table is), after any sequence
    of such requests no two invoices dated in the same year have the same
    number. *)
Theorem X14_invoice_numbers_stay_unique_within_a_year
    (ilike : string → string → bool) (reqs : list billing_request) (s : db) :
  Forall not_behind_utc reqs →
  well_numbered (invoices s) →
  well_numbered (invoices (apply_billing_requests ilike reqs s))
  ∧ ∀ k1 k2 r1 r2,
      invoices (apply_billing_requests ilike reqs s) !! k1 = Some r1 →
      invoices (apply_billing_requests ilike reqs s) !! k2 = Some r2 →
      d_year (i_date r1) = d_year (i_date r2) →
      i_number r1 = i_number r2 →
      k1 = k2.
Proof.
  intros Hzone Hs.
  assert (well_numbered (invoices (apply_billing_requests ilike reqs s)))
    as Hall.
  { revert s Hs. induction Hzone as [|rq reqs Hrq _ IH]; intros s Hs; simpl;
      [done|].
    apply IH. by apply billing_request_keeps_numbering. }
  split; [done|]. apply Hall.
Qed.

Lemma X14_witness :
  well_numbered
    (invoices (apply_billing_requests ilike_unused
                 [CreateInvoice env1 admin1 [] create_march;
                  Pay (partial_payment 4000);
                  ListInvoices env1 admin1 list_all;
                  CreateInvoice env2 admin1 [] create_march]
                 {| users := {[ "u-client" := client1 ]}; projects := ∅;
                    invoices := ∅; time_entries := ∅ |}))
  ∧ ∀ k1 k2 r1 r2,
      invoices (apply_billing_requests ilike_unused
                  [CreateInvoice env1 admin1 [] create_march;
                   Pay (partial_payment 4000);
                   ListInvoices env1 admin1 list_all;
                   CreateInvoice env2 admin1 [] create_march]
                  {| users := {[ "u-client" := client1 ]}; projects := ∅;
                     invoices := ∅; time_entries := ∅ |}) !! k1 = Some r1 →
      invoices (apply_billing_requests ilike_unused
                  [CreateInvoice env1 admin1 [] create_march;
                   Pay (partial_payment 4000);
                   ListInvoices env1 admin1 list_all;
                   CreateInvoice env2 admin1 [] create_march]
                  {| users := {[ "u-client" := client1 ]}; projects := ∅;
                     invoices := ∅; time_entries := ∅ |}) !! k2 = Some r2 →
      d_year (i_date r1) = d_year (i_date r2) →
      i_number r1 = i_number r2 →
      k1 = k2.
Proof.
  apply (X14_invoice_numbers_stay_unique_within_a_year ilike_unused).
  - repeat constructor; vm_compute; discriminate.
  - simpl. apply well_numbered_empty.
Defined.

(** Two invoices created for 2024 in an empty table are numbered
    20240001 and 20240002. *)
Example two_invoices_two_numbers :
  let s := apply_billing_requests ilike_unused
             [CreateInvoice env1 admin1 [] create_march;
              CreateInvoice env2 admin1 [] create_march]
             {| users := {[ "u-client" := client1 ]}; projects := ∅;
                invoices := ∅; time_entries := ∅ |} in
  (i_number <$> invoices s !! "i-2") = Some "20240001"
  ∧ (i_number <$> invoices s !! "t-2") = Some "20240002".
Proof. vm_compute. done. Qed.

(** ** Invoices: what an update, a creation and a payment may touch *)




(** X16. An invoice is created (201) exactly when the caller has billing
    access, the request is valid, the client exists and is approved, the
    project, when one is named, exists, the due date is not before the
    invoice date, and the new key is free. It is then stored as pending
    with nothing paid and the submitted amount, client, project and dates,
    and every other invoice stays as it was; in every other case the
    store is left unchanged. *)
Theorem X16_invoice_creation_conditions
    (e : env) (caller : principal) (errors : list string)
    (b : Invoices.create_body) (s : db) :
  (res_status (fst (Invoices.create_invoice e caller errors b s)) = 201
   ↔ Auth.canAccessBilling (pr_roles caller) = true
     ∧ errors = []
     ∧ (∃ c, users s !! Invoices.c_client_id b = Some c ∧ u_approved c = true)
     ∧ (∀ pid, Invoices.c_project_id b = Some pid →
               is_Some (projects s !! pid))
     ∧ date_ltb (Invoices.c_due_date b) (Invoices.c_date b) = false
     ∧ invoices s !! fresh_id e = None)
  ∧ (res_status (fst (Invoices.create_invoice e caller errors b s)) ≠ 201 →
     snd (Invoices.create_invoice e caller errors b s) = s)
  ∧ (res_status (fst (Invoices.create_invoice e caller errors b s)) = 201 →
     (∃ inv,
        invoices (snd (Invoices.create_invoice e caller errors b s))
          !! fresh_id e = Some inv
        ∧ i_status inv = I_pending ∧ i_paid_amount inv = 0
        ∧ i_amount inv = Invoices.c_amount b
        ∧ i_client_id inv = Invoices.c_client_id b
        ∧ i_project_id inv = Invoices.c_project_id b
        ∧ i_date inv = Invoices.c_date b
        ∧ i_due_date inv = Invoices.c_due_date b)
     ∧ ∀ k, k ≠ fresh_id e →
            invoices (snd (Invoices.create_invoice e caller errors b s)) !! k
            = invoices s !! k).
Proof.
  unfold Invoices.create_invoice, Invoices.require_billing_access,
    Invoices.create_body_steps, insert_row.
  unfold_route.
  destruct (Auth.canAccessBilling (pr_roles caller)); simpl.
  2: { split_and!; [|done|done]. split; [done|]. by intros [? _]. }
  destruct (bool_decide_reflect (errors = [])) as [Herr|Herr]; simpl.
  2: { split_and!; [|done|done]. split; [done|]. by intros (_ & ? & _). }
  destruct (users s !! Invoices.c_client_id b) as [client|]; simpl.
  2: { split_and!; [|done|done]. split; [done|].
       by intros (_ & _ & (c & ? & _) & _). }
  destruct (u_approved client) eqn:Happroved; simpl.
  2: { split_and!; [|done|done]. split; [done|].
       intros (_ & _ & (c & [= <-] & ?) & _). congruence. }
  destruct (Invoices.c_project_id b) as [pid|]; simpl.
  - destruct (bool_decide_reflect (projects s !! pid = None)) as [Hp|Hp];
      simpl.
    { split_and!; [|done|done]. split; [done|].
      intros (_ & _ & _ & Hpid & _). destruct (Hpid pid eq_refl) as [p Hsome].
      congruence. }
    destruct (date_ltb (Invoices.c_due_date b) (Invoices.c_date b)); simpl.
    { split_and!; [|done|done]. split; [done|]. by intros (_ & _ & _ & _ & ? & _). }
    destruct (invoices s !! fresh_id e) eqn:Hfresh; simpl.
    { split_and!; [|done|done]. split; [done|].
      by intros (_ & _ & _ & _ & _ & ?). }
    split_and!; [|done|].
    + split; [|done]. intros _. split_and!; try done; [by exists client|].
      intros ? [= <-]. by destruct (projects s !! pid).
    + intros _. split.
      * eexists. rewrite lookup_insert_eq. by split_and!.
      * intros k Hk. by rewrite lookup_insert_ne.
  - destruct (date_ltb (Invoices.c_due_date b) (Invoices.c_date b)); simpl.
    { split_and!; [|done|done]. split; [done|]. by intros (_ & _ & _ & _ & ? & _). }
    destruct (invoices s !! fresh_id e) eqn:Hfresh; simpl.
    { split_and!; [|done|done]. split; [done|].
      by intros (_ & _ & _ & _ & _ & ?). }
    split_and!; [|done|].
    + split; [|done]. intros _. split_and!; try done. by exists client.
    + intros _. split.
      * eexists. rewrite lookup_insert_eq. by split_and!.
      * intros k Hk. by rewrite lookup_insert_ne.
Qed.

(** X17. An accepted payment rewrites only the paid amount, the status
    and the update time of the invoice it names; every other invoice and
    every other table stay as they were, and the response carries the
    invoice as stored. In mark-as-paid mode the stored paid amount and the
    total reported as paid are the invoice amount, and the balance
    reported is 0. For a partial payment the stored paid amount is the
    previous one plus the submitted amount, and the amount reported is the
    submitted one. *)
Theorem X17_payment_touches_one_invoice_and_reports_the_balance
    (rq : payment_request) (s : db) :
  res_status (fst (run_payment rq s)) = 200 →
  ∃ inv inv' info,
    invoices s !! rq_id rq = Some inv
    ∧ invoices (snd (run_payment rq s)) !! rq_id rq = Some inv'
    ∧ same_but_payment inv' inv
    ∧ i_updated_at inv' = now (rq_env rq)
    ∧ payment_summary (fst (run_payment rq s)) = Some (rq_id rq, inv', info)
    ∧ (Invoices.pm_markAsPaid (rq_body rq) = true →
       i_paid_amount inv' = i_amount inv
       ∧ Invoices.pay_totalPaid info = i_amount inv
       ∧ Invoices.pay_newBalance info = 0)
    ∧ (Invoices.pm_markAsPaid (rq_body rq) = false →
       i_paid_amount inv'
       = i_paid_amount inv + Invoices.pm_amount (rq_body rq)
       ∧ Invoices.pay_amount info = Invoices.pm_amount (rq_body rq))
    ∧ (∀ k, k ≠ rq_id rq →
            invoices (snd (run_payment rq s)) !! k = invoices s !! k)
    ∧ users (snd (run_payment rq s)) = users s
    ∧ projects (snd (run_payment rq s)) = projects s
    ∧ time_entries (snd (run_payment rq s)) = time_entries s.
Proof.
  unfold run_payment, Invoices.add_payment, Invoices.require_billing_access,
    Invoices.payment_steps, payment_summary, same_but_payment.
  unfold_route.
  destruct (Auth.canAccessBilling (pr_roles (rq_caller rq))); simpl; [|done].
  destruct (bool_decide (rq_errors rq = [])); simpl; [|done].
  destruct (invoices s !! rq_id rq) as [inv|] eqn:Hinv; simpl; [|done].
  destruct (bool_decide (i_status inv = I_cancelled)); simpl; [done|].
  destruct (Invoices.pm_markAsPaid (rq_body rq)); simpl.
  - intros _. rewrite (alter_lookup_insert _ _ _ _ Hinv).
    eexists inv, _, _. rewrite lookup_insert_eq.
    split_and!; try done; simpl; try lia.
    intros k Hk. by rewrite lookup_insert_ne.
  - destruct (Z.ltb_spec (i_amount inv)
                (i_paid_amount inv + Invoices.pm_amount (rq_body rq)));
      simpl; [done|].
    intros _. rewrite (alter_lookup_insert _ _ _ _ Hinv).
    eexists inv, _, _. rewrite lookup_insert_eq.
    split_and!; try done; simpl; try lia.
    intros k Hk. by rewrite lookup_insert_ne.
Qed.

Lemma X17_witness :
  ∃ inv inv' info,
    invoices (db_invoice I_overdue) !! "i-1" = Some inv
    ∧ invoices (snd (run_payment (partial_payment 4000)
                       (db_invoice I_overdue))) !! "i-1" = Some inv'
    ∧ same_but_payment inv' inv
    ∧ i_updated_at inv' = now env1
    ∧ payment_summary (fst (run_payment (partial_payment 4000)
                              (db_invoice I_overdue)))
      = Some ("i-1", inv', info)
    ∧ (Invoices.pm_markAsPaid (rq_body (partial_payment 4000)) = true →
       i_paid_amount inv' = i_amount inv
       ∧ Invoices.pay_totalPaid info = i_amount inv
       ∧ Invoices.pay_newBalance info = 0)
    ∧ (Invoices.pm_markAsPaid (rq_body (partial_payment 4000)) = false →
       i_paid_amount inv' = i_paid_amount inv + 4000
       ∧ Invoices.pay_amount info = 4000)
    ∧ (∀ k, k ≠ "i-1" →
            invoices (snd (run_payment (partial_payment 4000)
                             (db_invoice I_overdue))) !! k
            = invoices (db_invoice I_overdue) !! k)
    ∧ users (snd (run_payment (partial_payment 4000) (db_invoice I_overdue)))
      = users (db_invoice I_overdue)
    ∧ projects (snd (run_payment (partial_payment 4000)
                       (db_invoice I_overdue)))
      = projects (db_invoice I_overdue)
    ∧ time_entries (snd (run_payment (partial_payment 4000)
                           (db_invoice I_overdue)))
      = time_entries (db_invoice I_overdue).
Proof.
  apply (X17_payment_touches_one_invoice_and_reports_the_balance
           (partial_payment 4000) (db_invoice I_overdue)).
  vm_compute. reflexivity.
Defined.

(** X18. No request to the payment route changes a cancelled invoice:
    through any sequence of payment requests, partial or mark-as-paid, it
    stays stored exactly as it was, cancelled and with the same paid
    amount. *)
Theorem X18_cancelled_invoices_are_never_paid
    (reqs : list payment_request) (s : db) (k : uuid) (inv : invoice_row) :
  invoices s !! k = Some inv →
  i_status inv = I_cancelled →
  invoices (apply_payments reqs s) !! k = Some inv.
Proof.
  revert s. induction reqs as [|rq reqs IH]; intros s Hk Hc; simpl; [done|].
  apply IH; [|done]. unfold run_payment.
  pose proof (add_payment_cases (rq_env rq) (rq_caller rq) (rq_errors rq)
                (rq_id rq) (rq_body rq) s) as Hcases.
  inversion Hcases as [r Hr Heq|inv' r Hinv Hnc Hmode Hr Heq
                       |inv' r Hinv Hnc Hmode Hfit Hr Heq]; simpl;
    [done| |];
    (rewrite lookup_insert_ne; [done|]; intros <-; congruence).
Qed.

Lemma X18_witness :
  invoices (apply_payments [mark_as_paid; partial_payment 4000]
              (db_invoice I_cancelled)) !! "i-1"
  = Some (invoice100 I_cancelled).
Proof.
  apply (X18_cancelled_invoices_are_never_paid
           [mark_as_paid; partial_payment 4000] (db_invoice I_cancelled)
           "i-1" (invoice100 I_cancelled)).
  - vm_compute. reflexivity.
  - reflexivity.
Defined.

(** ** Invoices: listing and reading *)






(** A listing with limit -1 is answered 500, and the invoice that is
    pending past its due date stays pending. *)
Example negative_limit_is_refused :
  Invoices.list_invoices ilike_unused env1 admin1
    {| Invoices.q_status := None; Invoices.q_client_id := None;
       Invoices.q_project_id := None; Invoices.q_limit := -1;
       Invoices.q_offset := 0; Invoices.q_search := None |}
    (db_invoice I_pending)
  = (Response 500 (Error "Failed to fetch invoices"), db_invoice I_pending).
Proof. vm_compute. done. Qed.

(** X21. Reading one invoice never writes to the store and is answered
    200 exactly when the caller has billing access, the request is valid
    and the invoice exists; the body is then the stored invoice under the
    requested id. A missing invoice gives 404. *)
Theorem X21_invoice_read_returns_the_stored_row
    (caller : principal) (errors : list string) (id : uuid) (s : db) :
  snd (Invoices.get_invoice caller errors id s) = s
  ∧ (res_status (fst (Invoices.get_invoice caller errors id s)) = 200
     ↔ Auth.canAccessBilling (pr_roles caller) = true ∧ errors = []
       ∧ is_Some (invoices s !! id))
  ∧ (∀ d, found_invoice (fst (Invoices.get_invoice caller errors id s))
          = Some d →
          Invoices.v_id (Invoices.dt_view d) = id
          ∧ invoices s !! id = Some (Invoices.v_row (Invoices.dt_view d)))
  ∧ (Auth.canAccessBilling (pr_roles caller) = true → errors = [] →
     invoices s !! id = None →
     fst (Invoices.get_invoice caller errors id s)
     = Response 404 (Error "Invoice not found")).
Proof.
  unfold Invoices.get_invoice, Invoices.get_steps, Invoices.billing_check,
    found_invoice.
  unfold_route.
  destruct (Auth.canAccessBilling (pr_roles caller)); simpl.
  2: { split_and!; [done| |done|done]. split; [done|]. by intros [? _]. }
  destruct (bool_decide_reflect (errors = [])) as [Herr|Herr]; simpl.
  2: { split_and!; [done| |done|done]. split; [done|]. by intros (_ & ? & _). }
  destruct (invoices s !! id) as [inv|] eqn:Hinv; simpl.
  - split_and!; [done| | |done].
    + split; [|done]. intros _. by split_and!.
    + intros d [= <-]. done.
  - split_and!; [done| |done|done]. split; [done|].
    intros (_ & _ & [x Hx]). done.
Qed.

(** ** Invoice statistics *)

Lemma invoice_counts_add_up (rows : list invoice_row) :
  Z.of_nat (length rows)
  = InvoiceStats.count_status I_pending rows
    + InvoiceStats.count_status I_paid rows
    + InvoiceStats.count_status I_overdue rows
    + InvoiceStats.count_status I_cancelled rows.
Proof.
  unfold InvoiceStats.count_status.
  induction rows as [|r rows IH]; [done|].
  rewrite !filter_cons. simpl.
  destruct (i_status r);
    repeat (case_decide; try done); simpl; lia.
Qed.

Lemma revenue_is_sum_of_amounts st (rows : list invoice_row) :
  InvoiceStats.revenue st rows
  = foldr Z.add 0 (i_amount <$> filter (λ r, i_status r = st) rows).
Proof.
  unfold InvoiceStats.revenue, coalesce, sql_sum.
  transitivity
    (foldr Z.add 0
       ((λ r, if bool_decide (i_status r = st) then i_amount r else 0)
        <$> rows)).
  { by destruct rows. }
  induction rows as [|r rows IH]; [done|].
  rewrite filter_cons. csimpl. rewrite IH.
  destruct (bool_decide_reflect (i_status r = st)); case_decide; done.
Qed.

(** X22. The invoice statistics never write to the store. The total is
    the sum of the pending, paid, overdue and cancelled counts; the total,
    pending and overdue revenues are the sums of the amounts of the paid,
    pending and overdue invoices; and the average amount is 0 when no
    invoice is paid and otherwise the store's average over the amounts of
    the paid invoices alone. *)
Theorem X22_invoice_statistics_add_up
    (numeric_avg : list Z → Q) (caller : principal) (s : db) :
  Auth.canAccessBilling (pr_roles caller) = true →
  snd (InvoiceStats.stats_overview numeric_avg caller s) = s
  ∧ ∃ st,
      fst (InvoiceStats.stats_overview numeric_avg caller s)
      = Response 200 (Json st)
      ∧ InvoiceStats.is_total st = Z.of_nat (size (invoices s))
      ∧ InvoiceStats.is_total st
        = InvoiceStats.is_pending st + InvoiceStats.is_paid st
          + InvoiceStats.is_overdue st + InvoiceStats.is_cancelled st
      ∧ InvoiceStats.is_totalRevenue st
        = foldr Z.add 0 (i_amount <$> invoices_with I_paid s)
      ∧ InvoiceStats.is_pendingRevenue st
        = foldr Z.add 0 (i_amount <$> invoices_with I_pending s)
      ∧ InvoiceStats.is_overdueRevenue st
        = foldr Z.add 0 (i_amount <$> invoices_with I_overdue s)
      ∧ InvoiceStats.is_paid st = Z.of_nat (length (invoices_with I_paid s))
      ∧ (InvoiceStats.is_paid st = 0 →
         InvoiceStats.is_averageAmount st = 0%Q)
      ∧ (InvoiceStats.is_paid st ≠ 0 →
         InvoiceStats.is_averageAmount st
         = numeric_avg (i_amount <$> invoices_with I_paid s)).
Proof.
  intros Hacc.
  unfold InvoiceStats.stats_overview, InvoiceStats.stats_steps,
    Invoices.billing_check, invoices_with.
  unfold_route. rewrite Hacc. simpl. split; [done|].
  set (rows := snd <$> map_to_list (invoices s)).
  eexists. split; [done|]. simpl. split_and!.
  - unfold rows. rewrite length_fmap. by rewrite length_map_to_list.
  - apply invoice_counts_add_up.
  - apply revenue_is_sum_of_amounts.
  - apply revenue_is_sum_of_amounts.
  - apply revenue_is_sum_of_amounts.
  - done.
  - unfold InvoiceStats.average_paid, InvoiceStats.count_status.
    destruct (filter (λ r, i_status r = I_paid) rows) as [|r paid];
      [done|]. simpl. lia.
  - unfold InvoiceStats.average_paid, InvoiceStats.count_status.
    destruct (filter (λ r, i_status r = I_paid) rows) as [|r paid];
      [done|]. done.
Qed.

Lemma X22_witness :
  snd (InvoiceStats.stats_overview exact_mean admin1 db_three_invoices)
  = db_three_invoices
  ∧ ∃ st,
      fst (InvoiceStats.stats_overview exact_mean admin1 db_three_invoices)
      = Response 200 (Json st)
      ∧ InvoiceStats.is_total st = Z.of_nat (size (invoices db_three_invoices))
      ∧ InvoiceStats.is_total st
        = InvoiceStats.is_pending st + InvoiceStats.is_paid st
          + InvoiceStats.is_overdue st + InvoiceStats.is_cancelled st
      ∧ InvoiceStats.is_totalRevenue st
        = foldr Z.add 0 (i_amount <$> invoices_with I_paid db_three_invoices)
      ∧ InvoiceStats.is_pendingRevenue st
        = foldr Z.add 0
            (i_amount <$> invoices_with I_pending db_three_invoices)
      ∧ InvoiceStats.is_overdueRevenue st
        = foldr Z.add 0
            (i_amount <$> invoices_with I_overdue db_three_invoices)
      ∧ InvoiceStats.is_paid st
        = Z.of_nat (length (invoices_with I_paid db_three_invoices))
      ∧ (InvoiceStats.is_paid st = 0 →
         InvoiceStats.is_averageAmount st = 0%Q)
      ∧ (InvoiceStats.is_paid st ≠ 0 →
         InvoiceStats.is_averageAmount st
         = exact_mean (i_amount <$> invoices_with I_paid db_three_invoices)).
Proof.
  apply (X22_invoice_statistics_add_up exact_mean admin1 db_three_invoices).
  vm_compute. reflexivity.
Defined.

(** Two paid invoices of 100.00 and 50.00 and a pending one of 100.00:
    three invoices, two of them paid, revenue 150.00 and 100.00 pending;
    a store that averages these two amounts exactly reports 75.00. *)
Example invoice_statistics_sample :
  (λ st, (InvoiceStats.is_total st, InvoiceStats.is_paid st,
          InvoiceStats.is_totalRevenue st, InvoiceStats.is_pendingRevenue st,
          Qred (InvoiceStats.is_averageAmount st)))
  <$> invoice_stats_of (fst (InvoiceStats.stats_overview exact_mean admin1
                               db_three_invoices))
  = Some (3, 2, 15000, 10000, 7500 # 1).
Proof. vm_compute. reflexivity. Qed.

(** ** Time entries: deleting, the current entry and clocking out *)

(** X23. A user can only delete an own entry that is clocked out: every
    entry of another user, every open entry and every entry other than
    the named one is still stored after any delete request. The request
    is answered 200 exactly when it is valid and names a closed entry of
    the caller, which is then gone; an entry of somebody else is answered
    like a missing one, with 404. *)
Theorem X23_only_own_closed_entries_are_deleted
    (caller : principal) (errors : list string) (id : uuid) (s : db) :
  (∀ k r, time_entries s !! k = Some r →
          t_user_id r ≠ pr_id caller ∨ t_clock_out r = None ∨ k ≠ id →
          time_entries (snd (TimeEntries.delete_entry caller errors id s)) !! k
          = Some r)
  ∧ (res_status (fst (TimeEntries.delete_entry caller errors id s)) = 200
     ↔ errors = []
       ∧ ∃ r, time_entries s !! id = Some r
              ∧ t_user_id r = pr_id caller ∧ t_clock_out r ≠ None)
  ∧ (res_status (fst (TimeEntries.delete_entry caller errors id s)) = 200 →
     time_entries (snd (TimeEntries.delete_entry caller errors id s)) !! id
     = None)
  ∧ (errors = [] →
     (∀ r, time_entries s !! id = Some r → t_user_id r ≠ pr_id caller →
           res_status (fst (TimeEntries.delete_entry caller errors id s))
           = 404)
     ∧ (time_entries s !! id = None →
        res_status (fst (TimeEntries.delete_entry caller errors id s))
        = 404)).
Proof.
  unfold TimeEntries.delete_entry, TimeEntries.delete_steps,
    TimeEntries.is_open.
  unfold_route.
  destruct (bool_decide_reflect (errors = [])) as [Herr|Herr]; simpl.
  2: { split_and!; [done| |done|done]. split; [done|]. by intros [? _]. }
  destruct (time_entries s !! id) as [entry|] eqn:Hid; simpl.
  2: { split_and!; [done| |done|done]. split; [done|].
       by intros (_ & r & ? & _). }
  case_guard as Hown; simpl.
  2: { split_and!; [done| |done|done]. split; [done|].
       intros (_ & r & [= <-] & ? & _). done. }
  destruct (bool_decide_reflect (t_clock_out entry = None)) as [Ho|Ho]; simpl.
  { split_and!; [done| |done|]. 
    - split; [done|]. intros (_ & r & [= <-] & _ & ?). done.
    - intros _. split; [|done]. intros r [= <-] ?. done. }
  split_and!.
  - intros k r Hk [Hu|[Hopen|Hne]].
    + rewrite lookup_delete_ne; [done|]. intros <-. congruence.
    + rewrite lookup_delete_ne; [done|]. intros <-. congruence.
    + by rewrite lookup_delete_ne.
  - split; [|done]. intros _. split; [done|]. by exists entry.
  - intros _. apply lookup_delete_eq.
  - intros _. split; [|done]. intros r [= <-] ?. done.
Qed.

Lemma current_entry_cases e caller s :
  (¬ has_open_entry s (pr_id caller)
   ∧ TimeEntries.current_entry e caller s
     = (Response 200 (Json (TimeEntries.J_current None false)), s))
  ∨ (∃ k entry,
       time_entries s !! k = Some entry
       ∧ t_user_id entry = pr_id caller ∧ t_clock_out entry = None
       ∧ TimeEntries.current_entry e caller s
         = (Response 200 (Json (TimeEntries.J_current
              (Some {| TimeEntries.cv_id := k;
                       TimeEntries.cv_entry := entry;
                       TimeEntries.cv_currentDuration :=
                         TimeEntries.format_duration
                           (now e - t_clock_in entry) |})
              true)), s)).
Proof.
  unfold TimeEntries.current_entry, TimeEntries.current_steps.
  unfold_route.
  destruct (limit_offset 1 0
              (order_by_desc t_created_at
                 (select_where (TimeEntries.open_entry_of (pr_id caller))
                    (time_entries s)))) as [|[k entry] l] eqn:Hpage; simpl.
  - left. split; [|done].
    by apply no_open_rows_iff, (page_nil_iff t_created_at).
  - assert ((k, entry) ∈ select_where
              (TimeEntries.open_entry_of (pr_id caller)) (time_entries s))
      as Hin.
    { apply (elem_of_page t_created_at 1 0). rewrite Hpage.
      apply list_elem_of_here. }
    apply elem_of_select_where in Hin as [Hopen Hk]. simpl in Hk.
    apply open_entry_of_true in Hopen as [Hu Ho].
    right. by exists k, entry.
Qed.

Lemma clock_in_accepted e caller s :
  ¬ has_open_entry s (pr_id caller) →
  time_entries s !! fresh_id e = None →
  TimeEntries.clock_in e caller s
  = (Response 201 (Json (TimeEntries.J_entry "Clocked in successfully"
       (fresh_id e) (clocked_in_entry e caller) None)),
     set_time_entries
       (<[fresh_id e := clocked_in_entry e caller]> (time_entries s)) s).
Proof.
  intros Hnone Hfresh. apply no_open_rows_iff in Hnone.
  unfold TimeEntries.clock_in, TimeEntries.clock_in_steps, insert_row.
  unfold_route. rewrite Hnone. simpl. by rewrite Hfresh.
Qed.

(** X24. The current-entry route never writes to the store. It reports
    [isClockedIn] exactly when the caller has an entry without clock-out,
    and the entry it shows is then a stored open entry of the caller with
    the time since its clock-in as duration. Right after an accepted
    clock-in it shows the new entry; right after an accepted clock-out,
    in a table with at most one open entry per user, it shows none. *)
Theorem X24_current_entry_follows_clock_in_and_out
    (e e' : env) (caller : principal) (s : db) :
  snd (TimeEntries.current_entry e caller s) = s
  ∧ (current_of (fst (TimeEntries.current_entry e caller s))
     = Some (None, false)
     ↔ ¬ has_open_entry s (pr_id caller))
  ∧ (∀ v b,
       current_of (fst (TimeEntries.current_entry e caller s))
       = Some (Some v, b) →
       b = true
       ∧ time_entries s !! TimeEntries.cv_id v = Some (TimeEntries.cv_entry v)
       ∧ t_user_id (TimeEntries.cv_entry v) = pr_id caller
       ∧ t_clock_out (TimeEntries.cv_entry v) = None
       ∧ TimeEntries.cv_currentDuration v
         = TimeEntries.format_duration
             (now e - t_clock_in (TimeEntries.cv_entry v)))
  ∧ (res_status (fst (TimeEntries.clock_in e caller s)) = 201 →
     ∃ v, current_of
            (fst (TimeEntries.current_entry e' caller
                    (snd (TimeEntries.clock_in e caller s))))
          = Some (Some v, true)
          ∧ TimeEntries.cv_id v = fresh_id e
          ∧ t_clock_in (TimeEntries.cv_entry v) = now e)
  ∧ (one_open_entry_per_user s →
     res_status (fst (TimeEntries.clock_out e caller s)) = 200 →
     current_of
       (fst (TimeEntries.current_entry e' caller
               (snd (TimeEntries.clock_out e caller s))))
     = Some (None, false)).
Proof.
  split_and!.
  - by destruct (current_entry_cases e caller s)
      as [[_ ->]|(k & entry & _ & _ & _ & ->)].
  - destruct (current_entry_cases e caller s)
      as [[Hnone ->]|(k & entry & Hk & Hu & Ho & ->)]; simpl.
    + done.
    + split; [done|]. intros Hnone. destruct Hnone. by exists k, entry.
  - intros v b.
    destruct (current_entry_cases e caller s)
      as [[Hnone ->]|(k & entry & Hk & Hu & Ho & ->)]; simpl; [done|].
    intros [= <- <-]. done.
  - intros Hin.
    destruct (clock_in_cases e caller s)
      as [[_ Heq]|[(_ & _ & Heq)|(Hnone & Hfresh & _)]];
      [by rewrite Heq in Hin|by rewrite Heq in Hin|].
    rewrite (clock_in_accepted e caller s Hnone Hfresh). simpl.
    destruct (current_entry_cases e' caller
                (set_time_entries
                   (<[fresh_id e:=clocked_in_entry e caller]>
                      (time_entries s)) s))
      as [[Hno _]|(k & entry & Hk & Hu' & Ho' & ->)].
    + destruct Hno. exists (fresh_id e), (clocked_in_entry e caller).
      simpl. by rewrite lookup_insert_eq.
    + simpl in Hk. apply lookup_insert_Some in Hk as [[<- <-]|[Hne Hk]].
      * eexists. by split_and!.
      * destruct Hnone. by exists k, entry.
  - intros Hinv Hout.
    destruct (clock_out_cases e caller s)
      as [[_ Heq]|(_ & r & k & entry & Hk & Hu & Ho & Heq & _)];
      rewrite Heq in Hout; [done|]. rewrite Heq. simpl.
    destruct (current_entry_cases e' caller
                (set_time_entries
                   (<[k:=TimeEntries.close_entry e entry]> (time_entries s))
                   s))
      as [[_ ->]|(k' & entry' & Hk' & Hu' & Ho' & _)]; [done|].
    simpl in Hk'. apply lookup_insert_Some in Hk' as [[<- <-]|[Hne Hk']].
    + done.
    + destruct Hne. apply (Hinv k k' entry entry'); congruence.
Qed.

(** X25. An accepted clock-out closes one open entry of the caller: it
    stores the current instant as clock-out on it, keeps its clock-in and
    date, reports the time between the two as duration, and leaves every
    other entry as it was. In a table with at most one open entry per
    user the caller has no open entry afterwards. *)
Theorem X25_clock_out_closes_the_open_entry
    (e : env) (caller : principal) (s : db) :
  res_status (fst (TimeEntries.clock_out e caller s)) = 200 →
  ∃ k entry closed,
    time_entries s !! k = Some entry
    ∧ t_user_id entry = pr_id caller ∧ t_clock_out entry = None
    ∧ time_entries (snd (TimeEntries.clock_out e caller s)) !! k = Some closed
    ∧ t_clock_out closed = Some (now e)
    ∧ t_clock_in closed = t_clock_in entry
    ∧ t_date closed = t_date entry
    ∧ t_user_id closed = t_user_id entry
    ∧ clocked_out (fst (TimeEntries.clock_out e caller s))
      = Some (k, closed,
              Some (TimeEntries.format_duration (now e - t_clock_in entry)))
    ∧ (∀ j, j ≠ k →
            time_entries (snd (TimeEntries.clock_out e caller s)) !! j
            = time_entries s !! j)
    ∧ (one_open_entry_per_user s →
       ¬ has_open_entry (snd (TimeEntries.clock_out e caller s))
           (pr_id caller)).
Proof.
  unfold TimeEntries.clock_out, TimeEntries.clock_out_steps, clocked_out.
  unfold_route.
  destruct (limit_offset 1 0
              (order_by_desc t_created_at
                 (select_where (TimeEntries.open_entry_of (pr_id caller))
                    (time_entries s)))) as [|[k entry] l] eqn:Hpage; simpl;
    [done|].
  intros _.
  assert ((k, entry) ∈ select_where
            (TimeEntries.open_entry_of (pr_id caller)) (time_entries s))
    as Hin.
  { apply (elem_of_page t_created_at 1 0). rewrite Hpage.
    apply list_elem_of_here. }
  apply elem_of_select_where in Hin as [Hopen Hk]. simpl in Hk.
  apply open_entry_of_true in Hopen as [Hu Ho].
  rewrite (alter_lookup_insert _ _ _ _ Hk).
  exists k, entry, (TimeEntries.close_entry e entry).
  rewrite lookup_insert_eq. split_and!; try done.
  - intros j Hj. by rewrite lookup_insert_ne.
  - intros Hinv (j & r & Hj & Hur & Hor). simpl in Hj.
    apply lookup_insert_Some in Hj as [[<- <-]|[Hne Hj]]; [done|].
    destruct Hne. apply (Hinv k j entry r); congruence.
Qed.

Lemma X25_witness :
  ∃ k entry closed,
    time_entries db_clocked_in !! k = Some entry
    ∧ t_user_id entry = pr_id owner1 ∧ t_clock_out entry = None
    ∧ time_entries (snd (TimeEntries.clock_out env2 owner1 db_clocked_in)) !! k
      = Some closed
    ∧ t_clock_out closed = Some (now env2)
    ∧ t_clock_in closed = t_clock_in entry
    ∧ t_date closed = t_date entry
    ∧ t_user_id closed = t_user_id entry
    ∧ clocked_out (fst (TimeEntries.clock_out env2 owner1 db_clocked_in))
      = Some (k, closed,
              Some (TimeEntries.format_duration
                      (now env2 - t_clock_in entry)))
    ∧ (∀ j, j ≠ k →
            time_entries (snd (TimeEntries.clock_out env2 owner1
                                 db_clocked_in)) !! j
            = time_entries db_clocked_in !! j)
    ∧ (one_open_entry_per_user db_clocked_in →
       ¬ has_open_entry (snd (TimeEntries.clock_out env2 owner1
                                db_clocked_in)) (pr_id owner1)).
Proof.
  apply (X25_clock_out_closes_the_open_entry env2 owner1 db_clocked_in).
  vm_compute. reflexivity.
Defined.

(** An hour after clocking in, the reported duration is 1:00. *)
Example clock_out_after_an_hour :
  (λ x, snd x) <$>
    clocked_out (fst (TimeEntries.clock_out env2 owner1 db_clocked_in))
  = Some (Some "1:00").
Proof. vm_compute. reflexivity. Qed.

(** ** Durations *)

Lemma length_two_digits (n : nat) :
  (n < 100)%nat →
  String.length (padStart 2 "0"%char (String_of (Z.of_nat n))) = 2%nat.
Proof.
  intros Hn.
  do 100 (destruct n as [|n]; [vm_compute; reflexivity|]). lia.
Qed.

(** X26. For an elapsed time that is not negative, the duration text is
    the whole hours, a colon, and the remaining whole minutes on exactly
    two digits; the minutes are below 60, and hours and minutes together
    are the elapsed whole minutes. *)
Theorem X26_duration_is_hours_and_two_digit_minutes (diffMs : Z) :
  0 ≤ diffMs →
  ∃ minutes mm,
    TimeEntries.format_duration diffMs
    = String_of (diffMs / 3600000) +:+ ":" +:+ mm
    ∧ String.length mm = 2%nat
    ∧ digits_value mm = Some minutes
    ∧ 0 ≤ minutes < 60
    ∧ diffMs / 3600000 * 60 + minutes = diffMs / 60000.
Proof.
  intros Hd. unfold TimeEntries.format_duration.
  change (1000 * 60 * 60) with 3600000. change (1000 * 60) with 60000.
  rewrite Z.rem_mod_nonneg by lia.
  set (minutes := diffMs `mod` 3600000 / 60000).
  assert (0 ≤ minutes < 60) as Hm.
  { unfold minutes. split.
    - apply Z.div_pos; [|lia]. apply Z.mod_pos_bound. lia.
    - apply Z.div_lt_upper_bound; [lia|].
      pose proof (Z.mod_pos_bound diffMs 3600000). lia. }
  exists minutes, (padStart 2 "0"%char (String_of minutes)). split_and!.
  - done.
  - rewrite <- (Z2Nat.id minutes) by lia. apply length_two_digits. lia.
  - apply digits_value_padStart. lia.
  - lia.
  - lia.
  - unfold minutes.
    rewrite (Z.div_mod diffMs 3600000) at 3 by lia.
    replace (3600000 * (diffMs / 3600000) + diffMs `mod` 3600000)
      with (diffMs `mod` 3600000 + diffMs / 3600000 * 60 * 60000) by lia.
    rewrite Z.div_add by lia. lia.
Qed.

Lemma X26_witness :
  ∃ minutes mm,
    TimeEntries.format_duration 5400000
    = String_of (5400000 / 3600000) +:+ ":" +:+ mm
    ∧ String.length mm = 2%nat
    ∧ digits_value mm = Some minutes
    ∧ 0 ≤ minutes < 60
    ∧ 5400000 / 3600000 * 60 + minutes = 5400000 / 60000.
Proof.
  apply (X26_duration_is_hours_and_two_digit_minutes 5400000). lia.
Defined.

(** Ninety minutes read 1:30; five minutes read 0:05. *)
Example durations :
  TimeEntries.format_duration 5400000 = "1:30"
  ∧ TimeEntries.format_duration 300000 = "0:05".
Proof. vm_compute. done. Qed.

(** ** Time statistics, listing and the summary of the day *)

Lemma length_remove_dups_le `{EqDecision A} (l : list A) :
  (length (remove_dups l) ≤ length l)%nat.
Proof.
  induction l as [|x l IH]; simpl; [done|].
  destruct (decide_rel elem_of x l); simpl; lia.
Qed.

Lemma open_and_closed_partition (rows : list time_entry_row) :
  length rows
  = (length (filter (λ r, TimeEntries.is_open r = false) rows)
     + length (filter (λ r, TimeEntries.is_open r = true) rows))%nat.
Proof.
  induction rows as [|r rows IH]; [done|].
  rewrite !filter_cons. simpl.
  destruct (TimeEntries.is_open r); repeat (case_decide; try done); simpl; lia.
Qed.

Lemma length_filter_snd {A} (P : A → Prop) `{∀ x, Decision (P x)}
    (l : list (uuid * A)) :
  length (filter P (snd <$> l)) = length (filter (λ kr, P (snd kr)) l).
Proof.
  induction l as [|[k r] l IH]; [done|].
  csimpl. rewrite !filter_cons. simpl.
  destruct (decide (P r)); simpl; by rewrite IH.
Qed.

(** A duplicate-free list whose elements are all the same has at most one
    element. *)
Lemma NoDup_all_equal_length {A} (l : list A) :
  NoDup l → (∀ x y, x ∈ l → y ∈ l → x = y) → (length l ≤ 1)%nat.
Proof.
  intros Hnd Heq. destruct l as [|x [|y l]]; simpl; [lia|lia|].
  apply NoDup_cons in Hnd as [Hx _]. destruct Hx.
  rewrite (Heq x y); [apply list_elem_of_here| |].
  - apply list_elem_of_here.
  - apply list_elem_of_further, list_elem_of_here.
Qed.

(** X27. The time statistics never write to the store and only count the
    caller's entries of the period. The total is the completed plus the
    active entries, the days worked are at most the total, and the
    average per day is a number, 0 when no day was worked. In a table
    with at most one open entry per user, at most one active entry is
    reported. *)
Theorem X27_time_statistics_add_up
    (date_minus : date → TimeEntries.interval → date)
    (e : env) (caller : principal) (p : TimeEntries.period) (s : db) :
  snd (TimeEntries.stats date_minus e caller p s) = s
  ∧ ∃ st avg,
      fst (TimeEntries.stats date_minus e caller p s)
      = Response 200 (Json (TimeEntries.J_stats (TimeEntries.periodName p) st))
      ∧ TimeEntries.ts_totalEntries st
        = Z.of_nat (length (select_where
                              (TimeEntries.stats_filter date_minus e
                                 (pr_id caller) p) (time_entries s)))
      ∧ TimeEntries.ts_totalEntries st
        = TimeEntries.ts_completedEntries st + TimeEntries.ts_activeEntries st
      ∧ 0 ≤ TimeEntries.ts_daysWorked st ≤ TimeEntries.ts_totalEntries st
      ∧ TimeEntries.ts_averageHoursPerDay st = Num avg
      ∧ (TimeEntries.ts_daysWorked st = 0 → avg = 0)
      ∧ (one_open_entry_per_user s → TimeEntries.ts_activeEntries st ≤ 1).
Proof.
  unfold TimeEntries.stats, TimeEntries.stats_steps. unfold_route.
  split; [done|].
  set (sel := select_where
                (TimeEntries.stats_filter date_minus e (pr_id caller) p)
                (time_entries s)).
  eexists _, _. split; [done|]. simpl. split_and!.
  - by rewrite length_fmap.
  - rewrite (open_and_closed_partition (snd <$> sel)). lia.
  - lia.
  - pose proof (length_remove_dups_le (t_date <$> (snd <$> sel))) as Hle.
    rewrite !length_fmap in Hle. rewrite length_fmap. lia.
  - done.
  - intros Hzero. by rewrite Hzero.
  - intros Hinv. rewrite length_filter_snd.
    cut (length (filter (λ kr, TimeEntries.is_open kr.2 = true) sel) ≤ 1)%nat;
      [lia|].
    apply NoDup_all_equal_length.
    + apply NoDup_filter. unfold sel, select_where.
      apply NoDup_filter, NoDup_map_to_list.
    + intros [k1 r1] [k2 r2] H1 H2.
      apply list_elem_of_filter in H1 as [Ho1 H1].
      apply list_elem_of_filter in H2 as [Ho2 H2].
      apply elem_of_select_where in H1 as [Hf1 Hk1].
      apply elem_of_select_where in H2 as [Hf2 Hk2].
      unfold TimeEntries.stats_filter, TimeEntries.is_open in *. simpl in *.
      apply andb_true_iff in Hf1 as [Hu1 _].
      apply andb_true_iff in Hf2 as [Hu2 _].
      apply bool_decide_eq_true in Hu1, Hu2, Ho1, Ho2.
      assert (k1 = k2) as <- by (apply (Hinv k1 k2 r1 r2); congruence).
      congruence.
Qed.

Lemma in_month_iff (m : TimeEntries.month_param) (d : date) :
  1 ≤ TimeEntries.m_month m ≤ 12 → valid_date d →
  negb (date_ltb d (TimeEntries.month_start m))
  && date_ltb d (TimeEntries.next_month m) = true
  ↔ d_year d = TimeEntries.m_year m ∧ d_month d = TimeEntries.m_month m.
Proof.
  intros Hm [Hdm Hdd].
  unfold TimeEntries.month_start, TimeEntries.next_month, date_ltb.
  destruct (Z.eqb_spec (TimeEntries.m_month m) 12); simpl;
    repeat match goal with
           | |- context [Z.ltb ?a ?b] => destruct (Z.ltb_spec a b)
           | |- context [Z.eqb ?a ?b] => destruct (Z.eqb_spec a b)
           end; simpl; split; intros; try done; try lia.
Qed.

(** X28. The listing of time entries never writes to the store and
    returns at most [limit] rows, all of them stored entries of the
    caller; each closed entry carries the time between its clock-in and
    clock-out as duration and each open one none. With a date filter the
    rows are of that date; the month filter, also across the turn of the
    year, keeps exactly the dates of that month. *)
Theorem X28_time_entry_listing_is_own_and_filtered
    (caller : principal) (q : TimeEntries.list_query) (s : db) :
  snd (TimeEntries.list_entries caller q s) = s
  ∧ (length (listed_entries (fst (TimeEntries.list_entries caller q s)))
     ≤ Z.to_nat (TimeEntries.q_limit q))%nat
  ∧ (∀ v, v ∈ listed_entries (fst (TimeEntries.list_entries caller q s)) →
       time_entries s !! TimeEntries.ev_id v = Some (TimeEntries.ev_entry v)
       ∧ t_user_id (TimeEntries.ev_entry v) = pr_id caller
       ∧ (∀ d, TimeEntries.q_date q = Some d →
               t_date (TimeEntries.ev_entry v) = d)
       ∧ (∀ m, TimeEntries.q_month q = Some m →
               1 ≤ TimeEntries.m_month m ≤ 12 →
               valid_date (t_date (TimeEntries.ev_entry v)) →
               d_year (t_date (TimeEntries.ev_entry v)) = TimeEntries.m_year m
               ∧ d_month (t_date (TimeEntries.ev_entry v))
                 = TimeEntries.m_month m)
       ∧ TimeEntries.ev_duration v
         = (λ out, TimeEntries.format_duration
                     (out - t_clock_in (TimeEntries.ev_entry v)))
           <$> t_clock_out (TimeEntries.ev_entry v))
  ∧ ∀ m k r,
      TimeEntries.q_month q = Some m → TimeEntries.q_date q = None →
      1 ≤ TimeEntries.m_month m ≤ 12 → valid_date (t_date r) →
      (TimeEntries.list_filter (pr_id caller) q (k, r) = true
       ↔ t_user_id r = pr_id caller
         ∧ d_year (t_date r) = TimeEntries.m_year m
         ∧ d_month (t_date r) = TimeEntries.m_month m).
Proof.
  unfold TimeEntries.list_entries, TimeEntries.list_steps, listed_entries.
  unfold_route.
  destruct ((TimeEntries.q_limit q <? 0) || (TimeEntries.q_offset q <? 0));
    simpl; split_and!.
  - done.
  - lia.
  - intros v Hv. by apply elem_of_nil in Hv.
  - intros m k r Hm Hd Hrange Hvalid.
    unfold TimeEntries.list_filter. simpl. rewrite Hm, Hd. simpl.
    rewrite andb_true_r, andb_true_iff, bool_decide_eq_true.
    by rewrite in_month_iff.
  - done.
  - rewrite length_fmap. apply length_page.
  - intros v Hv.
    apply list_elem_of_fmap in Hv as ([k r] & -> & Hkr).
    apply elem_of_page, elem_of_select_where in Hkr as [Hf Hk].
    unfold TimeEntries.list_filter in Hf. simpl in *.
    apply andb_true_iff in Hf as [Hf Hmonth].
    apply andb_true_iff in Hf as [Huser Hdate].
    apply bool_decide_eq_true in Huser.
    split_and!; [done|done| | |].
    + intros d Hd. rewrite Hd in Hdate. simpl in Hdate.
      by apply bool_decide_eq_true in Hdate.
    + intros m Hm Hrange Hvalid. rewrite Hm in Hmonth.
      by apply in_month_iff.
    + by destruct (t_clock_out r).
  - intros m k r Hm Hd Hrange Hvalid.
    unfold TimeEntries.list_filter. simpl. rewrite Hm, Hd. simpl.
    rewrite andb_true_r, andb_true_iff, bool_decide_eq_true.
    by rewrite in_month_iff.
Qed.

(** Entries of December 2024 are on or after 2024-12-01 and before
    2025-01-01. *)
Example december_rolls_over :
  TimeEntries.next_month
    {| TimeEntries.m_year := 2024; TimeEntries.m_month := 12 |}
  = Date 2025 1 1
  ∧ TimeEntries.next_month
      {| TimeEntries.m_year := 2024; TimeEntries.m_month := 6 |}
    = Date 2024 7 1.
Proof. done. Qed.

Lemma find_is_Some {A} (f : A → bool) (l : list A) :
  is_Some (List.find f l) ↔ ∃ x, x ∈ l ∧ f x = true.
Proof.
  induction l as [|y l IH]; simpl.
  - split; [by intros [? ?]|]. intros (x & Hx & _). by apply elem_of_nil in Hx.
  - destruct (f y) eqn:Hy.
    + split; [|by eauto]. intros _. exists y. split; [left|done].
    + rewrite IH. split.
      * intros (x & Hx & Hfx). exists x. split; [by right|done].
      * intros (x & Hx & Hfx). apply elem_of_cons in Hx as [->|Hx];
          [congruence|by eauto].
Qed.

Lemma total_worked_ms_from (e : env) (b : bool) (rows : list time_entry_row)
    (a : Z) :
  (b = false → ∀ r, r ∈ rows → TimeEntries.is_open r = false) →
  foldl (λ totalWorkedMs entry,
           match t_clock_out entry with
           | Some out => totalWorkedMs + (out - t_clock_in entry)
           | None =>
               if b then totalWorkedMs + (now e - t_clock_in entry)
               else totalWorkedMs
           end) a rows
  = a + total_elapsed e rows.
Proof.
  revert a. induction rows as [|r rows IH]; intros a Hclosed; simpl; [lia|].
  rewrite IH by (intros Hb r' Hr'; apply Hclosed; [done|by right]).
  unfold elapsed. destruct (t_clock_out r) eqn:Hout; [lia|].
  destruct b; [lia|].
  specialize (Hclosed eq_refl r (list_elem_of_here _ _)).
  unfold TimeEntries.is_open in Hclosed. rewrite Hout in Hclosed.
  by rewrite bool_decide_eq_false in Hclosed.
Qed.

Lemma total_worked_ms_elapsed (e : env) (rows : list time_entry_row) :
  TimeEntries.total_worked_ms e
    (bool_decide (is_Some (List.find TimeEntries.is_open rows))) rows
  = total_elapsed e rows.
Proof.
  unfold TimeEntries.total_worked_ms.
  rewrite total_worked_ms_from; [lia|].
  intros Hnone r Hr.
  destruct (TimeEntries.is_open r) eqn:Ho; [|done].
  apply bool_decide_eq_false in Hnone. destruct Hnone.
  apply find_is_Some. by exists r.
Qed.

Lemma total_elapsed_perm (e : env) (l l' : list time_entry_row) :
  l ≡ₚ l' → total_elapsed e l = total_elapsed e l'.
Proof.
  unfold total_elapsed. induction 1; simpl; lia.
Qed.

(** X29. The summary of the day never writes to the store and looks at
    the caller's entries of the current date only: it counts them, reads
    "Not Started" exactly when there are none, and reports the caller as
    clocked in, with status "In Progress" and no clock-out time, exactly
    when one of them is open, so an entry left open on an earlier date
    does not count. The time worked is the sum over these entries of the
    time up to the clock-out, or up to now for an open one. *)
Theorem X29_today_summary_follows_the_entries_of_the_day
    (e : env) (caller : principal) (s : db) :
  snd (TimeEntries.today e caller s) = s
  ∧ ∃ sm,
      fst (TimeEntries.today e caller s)
      = Response 200 (Json (TimeEntries.J_today sm))
      ∧ TimeEntries.td_date sm = current_date e
      ∧ TimeEntries.td_entriesCount sm
        = Z.of_nat (length (entries_of_today e caller s))
      ∧ (TimeEntries.td_status sm = "Not Started"
         ↔ entries_of_today e caller s = [])
      ∧ (TimeEntries.td_isCurrentlyClockedIn sm = true
         ↔ ∃ k r, time_entries s !! k = Some r
                  ∧ t_user_id r = pr_id caller
                  ∧ t_date r = current_date e
                  ∧ t_clock_out r = None)
      ∧ (TimeEntries.td_status sm = "In Progress"
         ↔ TimeEntries.td_isCurrentlyClockedIn sm = true)
      ∧ (TimeEntries.td_isCurrentlyClockedIn sm = true
         → TimeEntries.td_clockOutTime sm = None)
      ∧ TimeEntries.td_totalWorked sm
        = TimeEntries.format_duration
            (total_elapsed e (entries_of_today e caller s)).
Proof.
  unfold TimeEntries.today, TimeEntries.today_steps, entries_of_today.
  unfold_route. split; [done|].
  set (sel := select_where (TimeEntries.today_filter e (pr_id caller))
                (time_entries s)).
  assert (order_by_desc t_created_at sel ≡ₚ sel) as Hperm
    by apply merge_sort_Permutation.
  assert (∀ r, r ∈ snd <$> sel ↔
               ∃ k, time_entries s !! k = Some r
                    ∧ t_user_id r = pr_id caller
                    ∧ t_date r = current_date e) as Hsel.
  { intros r. rewrite list_elem_of_fmap. split.
    - intros ([k r'] & -> & Hkr).
      apply elem_of_select_where in Hkr as [Hf Hk].
      unfold TimeEntries.today_filter in Hf. simpl in *.
      apply andb_true_iff in Hf as [Hu Hd].
      apply bool_decide_eq_true in Hu, Hd. by exists k.
    - intros (k & Hk & Hu & Hd). exists (k, r). split; [done|].
      apply elem_of_select_where. split; [|done].
      unfold TimeEntries.today_filter. simpl.
      by rewrite !bool_decide_eq_true_2. }
  destruct (order_by_desc t_created_at sel) as [|x sorted] eqn:Hsorted.
  - apply Permutation_nil_l in Hperm. rewrite <- Hperm in *.
    eexists. split; [done|]. simpl. split_and!; try done.
    split; [done|]. intros (k & r & Hk & Hu & Hd & _).
    assert (r ∈ snd <$> @nil (uuid * time_entry_row)) as Hr
      by (apply Hsel; eauto).
    by apply elem_of_nil in Hr.
  - eexists. split; [done|]. simpl.
    set (rows := snd x :: (snd <$> sorted)).
    assert (rows ≡ₚ snd <$> sel) as Hrows
      by (rewrite <- Hperm; done).
    assert (bool_decide (is_Some (List.find TimeEntries.is_open rows)) = true
            ↔ ∃ k r, time_entries s !! k = Some r
                     ∧ t_user_id r = pr_id caller
                     ∧ t_date r = current_date e
                     ∧ t_clock_out r = None) as Hopen.
    { rewrite bool_decide_eq_true, find_is_Some. split.
      - intros (r & Hr & Ho). rewrite Hrows in Hr.
        apply Hsel in Hr as (k & Hk & Hu & Hd).
        apply bool_decide_eq_true in Ho. by exists k, r.
      - intros (k & r & Hk & Hu & Hd & Ho). exists r. split.
        + rewrite Hrows. apply Hsel. by exists k.
        + by apply bool_decide_eq_true. }
    change (List.find TimeEntries.is_open rows) with
      (if TimeEntries.is_open (snd x) then Some (snd x)
       else List.find TimeEntries.is_open (snd <$> sorted)) in Hopen.
    split_and!.
    + done.
    + rewrite <- (Permutation_length Hrows). done.
    + split.
      * by destruct (bool_decide _).
      * intros Hnil. rewrite Hnil in Hrows.
        by apply Permutation_nil_r in Hrows.
    + done.
    + by destruct (bool_decide _).
    + by intros ->.
    + rewrite <- (total_elapsed_perm e _ _ Hrows).
      rewrite <- (total_worked_ms_elapsed e rows). reflexivity.
Qed.

(** After clocking in on an empty store the day is in progress, with one
    entry and nothing worked yet. *)
Example today_after_clock_in :
  today_of (fst (TimeEntries.today env1 owner1 db_clocked_in))
  = Some {| TimeEntries.td_date := current_date env1;
            TimeEntries.td_clockInTime := Some (now env1);
            TimeEntries.td_clockOutTime := None;
            TimeEntries.td_totalWorked := "0:00";
            TimeEntries.td_status := "In Progress";
            TimeEntries.td_isCurrentlyClockedIn := true;
            TimeEntries.td_entriesCount := 1 |}.
Proof. vm_compute. done. Qed.
